(** * fastTinker: the code execution engine

    A shallow embedding of the execution engine of fastTinker (the
    renderer-side snippet rewriting of [scripts/renderer.js] and the
    main-process handlers [executeJavaScript], [executePHP] and
    [stop-execution]), with the properties its specification states. *)

From Stdlib Require Import ZArith Ascii String List Lia Bool Sorted.
From stdpp Require Import base list gmap sets pretty.

Local Open Scope Z_scope.

(** ** JavaScript strings

    A JavaScript string is a sequence of UTF-16 code units. *)

Module JsString.

Definition char16 := N.
Definition jsstring := list char16.

(** Source literals are ASCII; [U] reads one as a JavaScript string. *)
Definition ch (a : ascii) : char16 := N_of_ascii a.
Definition U (s : string) : jsstring := map ch (list_ascii_of_string s).

Definition NL : char16 := 10%N.   (* the line feed *)
Definition DQ : char16 := 34%N.   (* the double quote *)
Definition SQ : char16 := 39%N.   (* the single quote *)
Definition BS : char16 := 92%N.   (* the backslash *)

Definition char_eqb (a b : char16) : bool := N.eqb a b.

Definition inRange (lo hi c : char16) : bool := (N.leb lo c && N.leb c hi)%bool.

(** LineTerminator of ECMAScript: LF, CR, LS, PS. *)
Definition isLineTerminator (c : char16) : bool :=
  (N.eqb c 10 || N.eqb c 13 || N.eqb c 8232 || N.eqb c 8233)%bool.

(** WhiteSpace and LineTerminator: what [String.prototype.trim] strips
    and what the class [\s] matches. *)
Definition isSpace (c : char16) : bool :=
  (N.eqb c 9 || N.eqb c 11 || N.eqb c 12 || N.eqb c 32 || N.eqb c 160
   || N.eqb c 5760 || inRange 8192%N 8202%N c || N.eqb c 8239 || N.eqb c 8287
   || N.eqb c 12288 || N.eqb c 65279 || isLineTerminator c)%bool.

Fixpoint trimStart (s : jsstring) : jsstring :=
  match s with
  | c :: s' => if isSpace c then trimStart s' else s
  | [] => []
  end.

Definition trimEnd (s : jsstring) : jsstring := rev (trimStart (rev s)).

Definition trim (s : jsstring) : jsstring := trimEnd (trimStart s).

Fixpoint startsWith (s p : jsstring) {struct p} : bool :=
  match p, s with
  | [], _ => true
  | a :: p', b :: s' => (char_eqb a b && startsWith s' p')%bool
  | _ :: _, [] => false
  end.

Definition endsWith (s p : jsstring) : bool := startsWith (rev s) (rev p).

(** [s.indexOf(p)] searched from the front of [s], counted from [i]. *)
Fixpoint indexOf_go (s p : jsstring) (i : Z) : Z :=
  if startsWith s p then i
  else match s with
       | [] => -1
       | _ :: s' => indexOf_go s' p (i + 1)
       end.

Definition len (s : jsstring) : Z := Z.of_nat (length s).

Definition clamp (i : Z) (s : jsstring) : Z := Z.max 0 (Z.min i (len s)).

(** [s.indexOf(p, from)]: [from] is clamped to [0 .. s.length]. *)
Definition indexOf (s p : jsstring) (from : Z) : Z :=
  let k := clamp from s in
  indexOf_go (drop (Z.to_nat k) s) p k.

Definition includes (s p : jsstring) : bool := negb (indexOf s p 0 =? -1).

(** [s.substring(a, b)]: both ends clamped, swapped when [a > b]. *)
Definition substring (s : jsstring) (a b : Z) : jsstring :=
  let a' := clamp a s in
  let b' := clamp b s in
  let lo := Z.min a' b' in
  let hi := Z.max a' b' in
  take (Z.to_nat (hi - lo)) (drop (Z.to_nat lo) s).

(** [s[i]]: [None] stands for [undefined]. *)
Definition charAt (s : jsstring) (i : Z) : option char16 :=
  if i <? 0 then None else s !! Z.to_nat i.

(** A string is truthy when it is not empty. *)
Definition truthy (s : jsstring) : bool :=
  match s with [] => false | _ => true end.

(** [a || b] on strings. *)
Definition orElse (a b : jsstring) : jsstring := if truthy a then a else b.

(** [s.split('\n')]: never the empty list. *)
Fixpoint split (s : jsstring) : list jsstring :=
  match s with
  | [] => [[]]
  | c :: s' =>
      if char_eqb c NL then [] :: split s'
      else match split s' with
           | l :: ls => (c :: l) :: ls
           | [] => [[c]]
           end
  end.

(** [ls.join(sep)]. *)
Fixpoint join (sep : jsstring) (ls : list jsstring) : jsstring :=
  match ls with
  | [] => []
  | [l] => l
  | l :: ls' => l ++ sep ++ join sep ls'
  end.

(** [s.replace(/c/g, r)] for a one-character pattern. *)
Definition replaceAllChar (c : char16) (r : jsstring) (s : jsstring) : jsstring :=
  flat_map (fun x => if char_eqb x c then r else [x]) s.

(** The first code unit of [s], if any, is no white space. *)
Definition noLeadingSpace (s : jsstring) : Prop :=
  match s with c :: _ => isSpace c = false | [] => True end.

End JsString.

Export JsString.

Arguments ch a%_char.
Arguments U s%_string.

(** ** Regular expressions

    The patterns of the source are matched the way the JavaScript engine
    matches them: by backtracking, left alternative first, greedy
    repetition taking the longest run first. *)

Module Regex.

Inductive regex :=
| Eps                              (* the empty pattern *)
| Class (p : char16 -> bool)       (* one code unit of a class *)
| Cat (r1 r2 : regex)              (* r1 r2 *)
| Or (r1 r2 : regex)               (* r1|r2 *)
| Star (r : regex)                 (* r*  (greedy) *)
| LazyStar (r : regex)             (* r*? *)
| Group (r : regex)                (* the capture group whose text is read *)
| Eol.                             (* $ without the m flag *)

Definition Lit1 (c : char16) : regex := Class (char_eqb c).
Definition Lit (s : jsstring) : regex := fold_right (fun c r => Cat (Lit1 c) r) Eps s.
Definition Plus (r : regex) : regex := Cat r (Star r).
Definition AnyOf (rs : list regex) : regex :=
  match rs with
  | [] => Class (fun _ => false)
  | r :: rs' => fold_left Or rs' r
  end.

(** [\s], [.], [[\s\S]], [[^c]]. *)
Definition space : regex := Class isSpace.
Definition dot : regex := Class (fun c => negb (isLineTerminator c)).
Definition anyChar : regex := Class (fun _ => true).
Definition notChar (c : char16) : regex := Class (fun x => negb (char_eqb x c)).

(** A matcher takes the input left, the text of the capture group so
    far and what to do after a match. *)
Definition matcher (A : Type) : Type :=
  jsstring -> option jsstring -> (jsstring -> option jsstring -> option A) -> option A.

(** Greedy repetition of [m]: one more iteration is tried before the
    continuation.  An iteration that consumes nothing is rejected, as
    in ECMAScript's RepeatMatcher, so [n], the length of the input, is
    enough iterations. *)
Fixpoint greedy {A} (m : matcher A) (k : jsstring -> option jsstring -> option A)
         (n : nat) (s : jsstring) (cap : option jsstring) : option A :=
  match n with
  | O => k s cap
  | S n' =>
      match m s cap (fun s1 cap1 =>
                       if (length s1 <? length s)%nat then greedy m k n' s1 cap1 else None) with
      | Some a => Some a
      | None => k s cap
      end
  end.

(** Lazy repetition of [m]: the continuation is tried before one more
    iteration. *)
Fixpoint lazy {A} (m : matcher A) (k : jsstring -> option jsstring -> option A)
         (n : nat) (s : jsstring) (cap : option jsstring) : option A :=
  match k s cap with
  | Some a => Some a
  | None =>
      match n with
      | O => None
      | S n' =>
          m s cap (fun s1 cap1 =>
                     if (length s1 <? length s)%nat then lazy m k n' s1 cap1 else None)
      end
  end.

(** [run r s cap k]: match [r] at the front of [s], then continue with
    [k] on the rest; [cap] is the text of the capture group so far. *)
Fixpoint run {A} (r : regex) (s : jsstring) (cap : option jsstring)
         (k : jsstring -> option jsstring -> option A) : option A :=
  match r with
  | Eps => k s cap
  | Class p =>
      match s with
      | c :: s' => if p c then k s' cap else None
      | [] => None
      end
  | Cat r1 r2 => run r1 s cap (fun s1 cap1 => run r2 s1 cap1 k)
  | Or r1 r2 =>
      match run r1 s cap k with
      | Some a => Some a
      | None => run r2 s cap k
      end
  | Star r' => greedy (run r') k (length s) s cap
  | LazyStar r' => lazy (run r') k (length s) s cap
  | Group r' =>
      run r' s cap (fun s1 _ => k s1 (Some (take (length s - length s1) s)))
  | Eol => match s with [] => k s cap | _ :: _ => None end
  end.

(** The result of a match: the matched text ([m[0]]) and the text of the
    capture group ([m[1]]). *)
Record matched := { whole : jsstring; group1 : option jsstring }.

(** A match that has to start at the front of [s] (a pattern with [^]). *)
Definition matchHere (r : regex) (s : jsstring) : option matched :=
  run r s None
    (fun rest cap => Some {| whole := take (length s - length rest) s; group1 := cap |}).

(** [s.match(r)] for an unanchored pattern without the g flag: the
    leftmost match. *)
Fixpoint search (r : regex) (s : jsstring) : option matched :=
  match matchHere r s with
  | Some m => Some m
  | None => match s with
            | [] => None
            | _ :: s' => search r s'
            end
  end.

(** [r.test(s)]. *)
Definition testHere (r : regex) (s : jsstring) : bool := from_option (fun _ => true) false (matchHere r s).
Definition test (r : regex) (s : jsstring) : bool := from_option (fun _ => true) false (search r s).

End Regex.

Export Regex.

(** ** The Magic-Comment Extractor ([processMagicComments]) *)

Module MagicComments.

Record MagicComment := { line : nat; expression : jsstring }.

Record Processed := { code : jsstring; magicComments : list MagicComment }.

(** [/\/\/\s*\$\s*(.+)/] *)
Definition magicPattern : regex :=
  Cat (Lit (U "//"))
    (Cat (Star space) (Cat (Lit1 (ch "$")) (Cat (Star space) (Group (Plus dot))))).

(** [line.match(magicPattern)], reduced to its group 1. *)
Definition magicMatch (l : jsstring) : option jsstring :=
  match search magicPattern l with
  | Some m => group1 m
  | None => None
  end.

(** The state the [forEach] callback updates: the two arrays it pushes to. *)
Record Acc := { acc_magicComments : list MagicComment; acc_processedLines : list jsstring }.

Definition callback (st : Acc) (l : jsstring) (index : nat) : Acc :=
  match magicMatch l with
  | Some g =>
      {| acc_magicComments :=
           acc_magicComments st ++ [ {| line := index + 1; expression := trim g |} ];
         acc_processedLines := acc_processedLines st ++ [l] |}
  | None =>
      {| acc_magicComments := acc_magicComments st;
         acc_processedLines := acc_processedLines st ++ [l] |}
  end.

(** [lines.forEach((line, index) => ...)], from index [index] on. *)
Fixpoint forEach (lines : list jsstring) (index : nat) (st : Acc) : Acc :=
  match lines with
  | [] => st
  | l :: rest => forEach rest (S index) (callback st l index)
  end.

Definition processMagicComments (c : jsstring) : Processed :=
  let lines := split c in
  let st := forEach lines 0 {| acc_magicComments := []; acc_processedLines := [] |} in
  {| code := join [NL] (acc_processedLines st);
     magicComments := acc_magicComments st |}.

End MagicComments.

(** ** The Auto-Log Transform ([autoLogExpressions], [autoLogExpressionsPHP]) *)

Module AutoLog.

(** [s.replace(r, repl)] without the g flag: the leftmost match only. *)
Fixpoint replaceFirst (r : regex) (repl : jsstring) (s : jsstring) : jsstring :=
  match matchHere r s with
  | Some m => repl ++ drop (length (whole m)) s
  | None => match s with
            | [] => []
            | c :: s' => c :: replaceFirst r repl s'
            end
  end.

(** [s.split(r)[0]]: the text before the leftmost match of a separator
    that consumes one code unit. *)
Fixpoint splitHead (r : regex) (s : jsstring) : jsstring :=
  match s with
  | [] => []
  | c :: s' => if testHere r s then [] else c :: splitHead r s'
  end.

Definition alpha (c : char16) : bool :=
  (inRange (ch "a") (ch "z") c || inRange (ch "A") (ch "Z") c)%bool.
Definition digit (c : char16) : bool := inRange (ch "0") (ch "9") c.

(** [[a-zA-Z_$]] and [[a-zA-Z0-9_$]] *)
Definition jsIdentStart : regex :=
  Class (fun c => (alpha c || char_eqb c (ch "_") || char_eqb c (ch "$"))%bool).
Definition jsIdentPart : regex :=
  Class (fun c => (alpha c || digit c || char_eqb c (ch "_") || char_eqb c (ch "$"))%bool).
(** [[a-zA-Z_]] and [[a-zA-Z0-9_]] *)
Definition phpIdentStart : regex :=
  Class (fun c => (alpha c || char_eqb c (ch "_"))%bool).
Definition phpIdentPart : regex :=
  Class (fun c => (alpha c || digit c || char_eqb c (ch "_"))%bool).

(** [\[[^\]]*\]] and [\([^)]*\)] *)
Definition bracketed : regex :=
  Cat (Lit1 (ch "[")) (Cat (Star (notChar (ch "]"))) (Lit1 (ch "]"))).
Definition parenthesised : regex :=
  Cat (Lit1 (ch "(")) (Cat (Star (notChar (ch ")"))) (Lit1 (ch ")"))).

(** [(\.[a-zA-Z_$][a-zA-Z0-9_$]*|\[[^\]]*\]|\([^)]*\))] *)
Definition jsChain : regex :=
  Or (Cat (Lit1 (ch ".")) (Cat jsIdentStart (Star jsIdentPart)))
     (Or bracketed parenthesised).

(** [/^[a-zA-Z_$][a-zA-Z0-9_$]*(chain)*(chain)*$/] *)
Definition expressionPattern : regex :=
  Cat jsIdentStart (Cat (Star jsIdentPart) (Cat (Star jsChain) (Cat (Star jsChain) Eol))).

(** [/^[a-zA-Z_$][a-zA-Z0-9_$]*$/] *)
Definition simpleNamePattern : regex :=
  Cat jsIdentStart (Cat (Star jsIdentPart) Eol).

(** [(->[a-zA-Z_][a-zA-Z0-9_]*(\[.*?\]|\([^)]*\))*|\[[^\]]*\]|\([^)]*\))] *)
Definition phpChain : regex :=
  Or (Cat (Lit (U "->"))
        (Cat phpIdentStart
           (Cat (Star phpIdentPart)
              (Star (Or (Cat (Lit1 (ch "[")) (Cat (LazyStar dot) (Lit1 (ch "]"))))
                        parenthesised)))))
     (Or bracketed parenthesised).

(** [/^\$[a-zA-Z_][a-zA-Z0-9_]*(chain)*(chain)*$/] *)
Definition phpExpressionPattern : regex :=
  Cat (Lit1 (ch "$"))
    (Cat phpIdentStart
       (Cat (Star phpIdentPart) (Cat (Star phpChain) (Cat (Star phpChain) Eol)))).

(** [/^\$[a-zA-Z_][a-zA-Z0-9_]*$/] *)
Definition phpSimpleVarPattern : regex :=
  Cat (Lit1 (ch "$")) (Cat phpIdentStart (Cat (Star phpIdentPart) Eol)).

(** [/=\s*[^=]/] *)
Definition assignmentPattern : regex :=
  Cat (Lit1 (ch "=")) (Cat (Star space) (notChar (ch "="))).

(** [/;$/] *)
Definition trailingSemicolon : regex := Cat (Lit1 (ch ";")) Eol.

(** [/\s|\(/] *)
Definition wordBreak : regex := Or space (Lit1 (ch "(")).

(** [/^\s*/] *)
Definition leadingSpace : regex := Star space.

Definition statementKeywords : list jsstring :=
  map U [ "const"; "let"; "var"; "function"; "class"; "if"; "else"; "for"; "while";
          "do"; "switch"; "case"; "default"; "try"; "catch"; "finally"; "throw";
          "return"; "break"; "continue"; "import"; "export"; "async"; "await"; "yield";
          "debugger"; "with"; "enum"; "interface"; "type"; "namespace" ]%string.

Definition statementKeywordsPHP : list jsstring :=
  map U [ "function"; "class"; "if"; "else"; "elseif"; "for"; "foreach"; "while";
          "do"; "switch"; "case"; "default"; "try"; "catch"; "finally"; "throw";
          "return"; "break"; "continue"; "goto"; "declare"; "namespace"; "use";
          "abstract"; "final"; "private"; "public"; "protected"; "static"; "const";
          "require"; "require_once"; "include"; "include_once"; "echo"; "print";
          "print_r"; "var_dump"; "var_export" ]%string.

(** [/^(if|for|while|switch|catch|function|class|const|let|var|return|break|continue|throw|try|else|case|default|async|await|yield|import|export)/] *)
Definition leadingKeywordPattern : regex :=
  AnyOf (map (fun w => Lit (U w))
           [ "if"; "for"; "while"; "switch"; "catch"; "function"; "class"; "const";
             "let"; "var"; "return"; "break"; "continue"; "throw"; "try"; "else";
             "case"; "default"; "async"; "await"; "yield"; "import"; "export" ]%string).

Definition has (set : list jsstring) (w : jsstring) : bool := bool_decide (w ∈ set).

(** The variables of the loop. *)
Record Loop := {
  inMultiLineComment : bool;
  braceDepth : Z;
  parenDepth : Z;
  processedLines : list jsstring
}.

Definition push (st : Loop) (inML : bool) (l : jsstring) : Loop :=
  {| inMultiLineComment := inML; braceDepth := braceDepth st;
     parenDepth := parenDepth st; processedLines := processedLines st ++ [l] |}.

(** [for (const char of line)]: the net count of [open] against [close]. *)
Definition lineDepth (open close : char16) (l : jsstring) : Z :=
  fold_left (fun d c => let d1 := if char_eqb c open then d + 1 else d in
                        if char_eqb c close then d1 - 1 else d1) l 0.

Definition countDepths (st : Loop) (l : jsstring) : Loop :=
  {| inMultiLineComment := inMultiLineComment st;
     braceDepth := braceDepth st + lineDepth (ch "{") (ch "}") l;
     parenDepth := parenDepth st + lineDepth (ch "(") (ch ")") l;
     processedLines := processedLines st |}.

Definition isStatementLine (keywords : list jsstring) (trimmed : jsstring) : bool :=
  let firstWord := splitHead wordBreak trimmed in
  (has keywords firstWord
   || startsWith trimmed (U "{")
   || startsWith trimmed (U "}")
   || endsWith trimmed (U "{")
   || (includes trimmed (U ":") && negb (includes trimmed (U "?"))))%bool.

Definition hasAssignmentJS (trimmed : jsstring) : bool :=
  (test assignmentPattern trimmed
   && negb (includes trimmed (U "==")) && negb (includes trimmed (U "==="))
   && negb (includes trimmed (U "!=")) && negb (includes trimmed (U "!=="))
   && negb (includes trimmed (U "=>")))%bool.

Definition hasAssignmentPHP (trimmed : jsstring) : bool :=
  (test assignmentPattern trimmed
   && negb (includes trimmed (U "==")) && negb (includes trimmed (U "==="))
   && negb (includes trimmed (U "!=")) && negb (includes trimmed (U "!=="))
   && negb (includes trimmed (U "=>")) && negb (includes trimmed (U "<=>")))%bool.

Definition indentOf (l : jsstring) : jsstring :=
  match matchHere leadingSpace l with
  | Some m => whole m
  | None => []
  end.

Definition startsWithConsoleCall (s : jsstring) : bool :=
  (startsWith s (U "console.log") || startsWith s (U "console.error")
   || startsWith s (U "console.warn") || startsWith s (U "console.info"))%bool.

Definition startsWithPHPOutput (s : jsstring) : bool :=
  (startsWith s (U "echo") || startsWith s (U "print") || startsWith s (U "print_r")
   || startsWith s (U "var_dump") || startsWith s (U "var_export"))%bool.

(** The part of the loop body both languages share: the comment
    handling, the depth counters and the statement test; [rewrite_] is
    what follows for a line that passed them. *)
Definition body (keywords : list jsstring)
           (rewrite_ : Loop -> jsstring -> jsstring -> Loop)
           (st : Loop) (l : jsstring) : Loop :=
  let trimmed := trim l in
  if (negb (truthy trimmed) || startsWith trimmed (U "//"))%bool then
    push st (inMultiLineComment st) l
  else if includes trimmed (U "/*") then
    push st (negb (includes trimmed (U "*/"))) l
  else if includes trimmed (U "*/") then
    push st false l
  else if inMultiLineComment st then
    push st true l
  else
    let st := countDepths st l in
    if isStatementLine keywords trimmed then push st (inMultiLineComment st) l
    else rewrite_ st l trimmed.

Definition rewriteJS (st : Loop) (l trimmed : jsstring) : Loop :=
  let hasAssignment := hasAssignmentJS trimmed in
  let withoutSemicolon := replaceFirst trailingSemicolon [] trimmed in
  if (negb hasAssignment && (braceDepth st <=? 0) && (parenDepth st <=? 0))%bool then
    let looksLikeExpression :=
      (testHere expressionPattern withoutSemicolon
       || testHere simpleNamePattern withoutSemicolon)%bool in
    if (looksLikeExpression && (0 <? len withoutSemicolon)
        && negb (testHere leadingKeywordPattern trimmed))%bool then
      if startsWithConsoleCall (trim withoutSemicolon) then
        push st (inMultiLineComment st) l
      else
        let indent := indentOf l in
        push st (inMultiLineComment st)
          (indent ++ U "console.log(" ++ withoutSemicolon ++ U ");")
    else push st (inMultiLineComment st) l
  else push st (inMultiLineComment st) l.

Definition rewritePHP (st : Loop) (l trimmed : jsstring) : Loop :=
  let hasAssignment := hasAssignmentPHP trimmed in
  let withoutSemicolon := replaceFirst trailingSemicolon [] trimmed in
  if (negb hasAssignment && (braceDepth st <=? 0) && (parenDepth st <=? 0))%bool then
    let looksLikeExpression :=
      (testHere phpExpressionPattern withoutSemicolon
       || testHere phpSimpleVarPattern withoutSemicolon)%bool in
    if (looksLikeExpression && (0 <? len withoutSemicolon))%bool then
      let exprTrimmed := trim withoutSemicolon in
      if startsWithPHPOutput exprTrimmed then
        push st (inMultiLineComment st) l
      else
        let indent := indentOf l in
        let isSimpleVar := testHere phpSimpleVarPattern withoutSemicolon in
        (* in the PHP text written here, \n is a backslash and an n *)
        if isSimpleVar then
          push st (inMultiLineComment st)
            (indent ++ U "echo var_export(" ++ withoutSemicolon
               ++ U ", true) . " ++ [DQ] ++ U "\n" ++ [DQ] ++ U ";")
        else
          push st (inMultiLineComment st)
            (indent ++ U "echo print_r(" ++ withoutSemicolon
               ++ U ", true) . " ++ [DQ] ++ U "\n" ++ [DQ] ++ U ";")
    else push st (inMultiLineComment st) l
  else push st (inMultiLineComment st) l.

Definition initial : Loop :=
  {| inMultiLineComment := false; braceDepth := 0; parenDepth := 0; processedLines := [] |}.

Definition autoLogExpressions (code : jsstring) : jsstring :=
  if (negb (truthy code) || negb (truthy (trim code)))%bool then code
  else
    let lines := split code in
    join [NL] (processedLines (fold_left (body statementKeywords rewriteJS) lines initial)).

Definition autoLogExpressionsPHP (code : jsstring) : jsstring :=
  if (negb (truthy code) || negb (truthy (trim code)))%bool then code
  else
    let lines := split code in
    join [NL] (processedLines (fold_left (body statementKeywordsPHP rewritePHP) lines initial)).

(** The transform the renderer applies for the current language. *)
Inductive Language := JavaScript | PHP.

Definition autoLog (lang : Language) (code : jsstring) : jsstring :=
  match lang with
  | JavaScript => autoLogExpressions code
  | PHP => autoLogExpressionsPHP code
  end.

(** A line already invokes the output call of the language when its
    trimmed text starts with the name of one. *)
Definition invokesOutput (lang : Language) (l : jsstring) : bool :=
  match lang with
  | JavaScript => startsWithConsoleCall (trim l)
  | PHP => startsWithPHPOutput (trim l)
  end.

(** The texts a line can be rewritten to. *)
Definition withoutSemicolonOf (l : jsstring) : jsstring :=
  replaceFirst trailingSemicolon [] (trim l).

Definition wrappedJS (l : jsstring) : jsstring :=
  indentOf l ++ U "console.log(" ++ withoutSemicolonOf l ++ U ");".

Definition wrappedPHP (call : jsstring) (l : jsstring) : jsstring :=
  indentOf l ++ call ++ withoutSemicolonOf l ++ U ", true) . " ++ [DQ] ++ U "\n" ++ [DQ] ++ U ";".

(** How a line of the result relates to the line it comes from. *)
Definition rewritten (lang : Language) (l o : jsstring) : Prop :=
  o = l \/
  match lang with
  | JavaScript =>
      startsWithConsoleCall (trim (withoutSemicolonOf l)) = false /\ o = wrappedJS l
  | PHP =>
      (testHere phpExpressionPattern (withoutSemicolonOf l)
       || testHere phpSimpleVarPattern (withoutSemicolonOf l))%bool = true
      /\ (o = wrappedPHP (U "echo var_export(") l \/ o = wrappedPHP (U "echo print_r(") l)
  end.

End AutoLog.

(** ** JavaScript values and [JSON.parse] *)

Module Json.

(** The values the handlers build and [JSON.parse] returns.  A number
    is kept as its decimal literal; an object is the list of its own
    properties in insertion order. *)
#[warnings="-register-all"]
Inductive value :=
| VUndefined
| VNull
| VBool (b : bool)
| VNumber (literal : jsstring)
| VString (s : jsstring)
| VArray (items : list value)
| VObject (fields : list (jsstring * value)).

Definition key_eqb (a b : jsstring) : bool := bool_decide (a = b).

(** [o[k]] on the own properties of an object. *)
Fixpoint getField (fields : list (jsstring * value)) (k : jsstring) : option value :=
  match fields with
  | [] => None
  | (k', v) :: rest => if key_eqb k' k then Some v else getField rest k
  end.

(** [o[k] = v]: an existing property keeps its place. *)
Fixpoint setField (fields : list (jsstring * value)) (k : jsstring) (v : value)
  : list (jsstring * value) :=
  match fields with
  | [] => [(k, v)]
  | (k', v') :: rest =>
      if key_eqb k' k then (k', v) :: rest else (k', v') :: setField rest k v
  end.

Definition numberOfNat (n : nat) : value := VNumber (U (pretty n)).

(** *** The JSON grammar (ECMA-404) *)

Definition isJsonSpace (c : char16) : bool :=
  (N.eqb c 32 || N.eqb c 9 || N.eqb c 10 || N.eqb c 13)%bool.

Fixpoint skipWs (s : jsstring) : jsstring :=
  match s with
  | c :: s' => if isJsonSpace c then skipWs s' else s
  | [] => []
  end.

Definition isDigit (c : char16) : bool := inRange 48%N 57%N c.

Fixpoint digits (s : jsstring) : jsstring * jsstring :=
  match s with
  | c :: s' => if isDigit c then let '(d, r) := digits s' in (c :: d, r) else ([], s)
  | [] => ([], [])
  end.

Definition hexDigit (c : char16) : option N :=
  if inRange 48%N 57%N c then Some (c - 48)%N
  else if inRange 97%N 102%N c then Some (c - 87)%N
  else if inRange 65%N 70%N c then Some (c - 55)%N
  else None.

Definition hex4 (a b c d : char16) : option char16 :=
  match hexDigit a, hexDigit b, hexDigit c, hexDigit d with
  | Some x, Some y, Some z, Some w => Some (((x * 16 + y) * 16 + z) * 16 + w)%N
  | _, _, _, _ => None
  end.

Definition simpleEscape (c : char16) : option char16 :=
  if N.eqb c 34 then Some 34%N          (* quote *)
  else if N.eqb c 92 then Some 92%N     (* backslash *)
  else if N.eqb c 47 then Some 47%N     (* slash *)
  else if N.eqb c 98 then Some 8%N      (* backspace *)
  else if N.eqb c 102 then Some 12%N    (* form feed *)
  else if N.eqb c 110 then Some 10%N    (* line feed *)
  else if N.eqb c 114 then Some 13%N    (* carriage return *)
  else if N.eqb c 116 then Some 9%N     (* tab *)
  else None.

(** The characters of a string after its opening quote, up to and
    including the closing one. *)
Fixpoint parseChars (s : jsstring) (acc : jsstring) : option (jsstring * jsstring) :=
  match s with
  | [] => None
  | c :: r =>
      if N.eqb c 34 then Some (rev acc, r)
      else if N.eqb c 92 then
        match r with
        | e :: r1 =>
            if N.eqb e 117 then
              match r1 with
              | h1 :: h2 :: h3 :: h4 :: r2 =>
                  match hex4 h1 h2 h3 h4 with
                  | Some u => parseChars r2 (u :: acc)
                  | None => None
                  end
              | _ => None
              end
            else
              match simpleEscape e with
              | Some u => parseChars r1 (u :: acc)
              | None => None
              end
        | [] => None
        end
      else if (c <? 32)%N then None
      else parseChars r (c :: acc)
  end.

(** A number: an optional minus, an integer part without a leading
    zero, an optional fraction and an optional exponent. *)
Definition parseNumber (s : jsstring) : option (jsstring * jsstring) :=
  let '(sign, s1) :=
    match s with
    | c :: r => if N.eqb c 45 then ([c], r) else ([], s)
    | [] => ([], s)
    end in
  match s1 with
  | [] => None
  | c :: r =>
      if negb (isDigit c) then None
      else
        let '(int, s2) := if N.eqb c 48 then ([c], r) else digits s1 in
        let frac :=
          match s2 with
          | p :: r2 =>
              if N.eqb p 46 then
                match digits r2 with
                | ([], _) => None
                | (d, r3) => Some (p :: d, r3)
                end
              else Some ([], s2)
          | [] => Some ([], s2)
          end in
        match frac with
        | None => None
        | Some (fr, s3) =>
            let exp :=
              match s3 with
              | e :: r3 =>
                  if (N.eqb e 101 || N.eqb e 69)%bool then
                    let '(sg, r4) :=
                      match r3 with
                      | g :: r5 => if (N.eqb g 43 || N.eqb g 45)%bool then ([g], r5) else ([], r3)
                      | [] => ([], r3)
                      end in
                    match digits r4 with
                    | ([], _) => None
                    | (d, r6) => Some (e :: sg ++ d, r6)
                    end
                  else Some ([], s3)
              | [] => Some ([], s3)
              end in
            match exp with
            | None => None
            | Some (ex, s4) => Some (sign ++ int ++ fr ++ ex, s4)
            end
        end
  end.

(** A value, the elements of an array after its first bracket, and the
    members of an object after its first brace.  [fuel] bounds the
    nesting and the number of elements; see [JSON_parse]. *)
Fixpoint parseValue (fuel : nat) (s : jsstring) : option (value * jsstring) :=
  match fuel with
  | O => None
  | S f =>
      match skipWs s with
      | [] => None
      | c :: r =>
          if N.eqb c 123 then                       (* { *)
            match skipWs r with
            | c2 :: r2 => if N.eqb c2 125 then Some (VObject [], r2) else parseMembers f r []
            | [] => None
            end
          else if N.eqb c 91 then                   (* [ *)
            match skipWs r with
            | c2 :: r2 => if N.eqb c2 93 then Some (VArray [], r2) else parseElements f r []
            | [] => None
            end
          else if N.eqb c 34 then                   (* a string *)
            match parseChars r [] with
            | Some (str, r2) => Some (VString str, r2)
            | None => None
            end
          else if startsWith (c :: r) (U "true") then Some (VBool true, drop 4 (c :: r))
          else if startsWith (c :: r) (U "false") then Some (VBool false, drop 5 (c :: r))
          else if startsWith (c :: r) (U "null") then Some (VNull, drop 4 (c :: r))
          else
            match parseNumber (c :: r) with
            | Some (lit, r2) => Some (VNumber lit, r2)
            | None => None
            end
      end
  end
with parseElements (fuel : nat) (s : jsstring) (acc : list value) : option (value * jsstring) :=
  match fuel with
  | O => None
  | S f =>
      match parseValue f s with
      | Some (v, r) =>
          match skipWs r with
          | c :: r2 =>
              if N.eqb c 44 then parseElements f r2 (v :: acc)
              else if N.eqb c 93 then Some (VArray (rev (v :: acc)), r2)
              else None
          | [] => None
          end
      | None => None
      end
  end
with parseMembers (fuel : nat) (s : jsstring) (acc : list (jsstring * value))
  : option (value * jsstring) :=
  match fuel with
  | O => None
  | S f =>
      match skipWs s with
      | q :: r =>
          if N.eqb q 34 then
            match parseChars r [] with
            | Some (k, r1) =>
                match skipWs r1 with
                | colon :: r2 =>
                    if N.eqb colon 58 then
                      match parseValue f r2 with
                      | Some (v, r3) =>
                          match skipWs r3 with
                          | c :: r4 =>
                              if N.eqb c 44 then parseMembers f r4 (setField acc k v)
                              else if N.eqb c 125 then Some (VObject (setField acc k v), r4)
                              else None
                          | [] => None
                          end
                      | None => None
                      end
                    else None
                | [] => None
                end
            | None => None
            end
          else None
      | [] => None
      end
  end.

(** [JSON.parse(text)]: [None] when it throws a SyntaxError.  The fuel
    given is above the length of the text, which is enough for every
    text ([JSON_parse_fuel_enough]). *)
Definition JSON_parse (text : jsstring) : option value :=
  match parseValue (2 * length text + 2) text with
  | Some (v, rest) => match skipWs rest with [] => Some v | _ :: _ => None end
  | None => None
  end.

(** *** ExecutionResult *)

(** [{ output: o, error: e, value: v }] *)
Definition executionResult (o e v : value) : value :=
  VObject [(U "output", o); (U "error", e); (U "value", v)].

(** [{ message: m }] *)
Definition errorOf (m : jsstring) : value := VObject [(U "message", VString m)].

(** [{ type: t, args: a }] *)
Definition logEntry (t a : jsstring) : value :=
  VObject [(U "type", VString t); (U "args", VString a)].

(** An object with an output list, an error object or null, and a
    value field. *)
Definition wellFormed (v : value) : bool :=
  match v with
  | VObject fields =>
      match getField fields (U "output"), getField fields (U "error"), getField fields (U "value") with
      | Some (VArray _), Some (VNull | VObject _), Some _ => true
      | _, _, _ => false
      end
  | _ => false
  end.

End Json.

Export Json.

(** ** The Process Execution Manager and the Result Protocol Parser

    The handlers [executeJavaScript] and [executePHP] install on a child
    process, and the [stop-execution] handler.  A handler acts on the
    registry [executionProcesses], on the temporary files and on the
    promise of its execution. *)

Module Engine.

(** A child process, named by its process id. *)
Definition Child := positive.

Record World := {
  executionProcesses : gmap jsstring Child;   (* the registry, keyed by execId *)
  files : gset jsstring;                      (* the temporary files that exist *)
  signalled : gset Child;                     (* the children [kill()] was called on *)
  settled : list value;                       (* what [resolve] was called with *)
  consoleErrors : list jsstring               (* the main process's [console.error] *)
}.

(** The completion of a piece of handler code: it returns, or throws an
    error carrying a message. *)
Inductive completion (A : Type) :=
| Normal (a : A)
| Throw (message : jsstring).
Arguments Normal {A} a.
Arguments Throw {A} message.

Definition M (A : Type) : Type := World -> completion A * World.

Definition ret {A} (a : A) : M A := fun w => (Normal a, w).

Definition bind {A B} (m : M A) (k : A -> M B) : M B :=
  fun w => match m w with
           | (Normal a, w1) => k a w1
           | (Throw e, w1) => (Throw e, w1)
           end.

Definition throw {A} (message : jsstring) : M A := fun w => (Throw message, w).

(** [try { body } catch (e) { handler }], [e] seen through [e.message]. *)
Definition tryCatch {A} (body : M A) (handler : jsstring -> M A) : M A :=
  fun w => match body w with
           | (Normal a, w1) => (Normal a, w1)
           | (Throw e, w1) => handler e w1
           end.

Notation "x <- m ;; k" := (bind m (fun x => k))
  (at level 100, m at next level, right associativity).
Notation "m ;;; k" := (bind m (fun _ => k))
  (at level 100, right associativity).

(** [executionProcesses.set(execId, child)] *)
Definition registry_set (execId : jsstring) (child : Child) : M unit :=
  fun w => (Normal tt,
            {| executionProcesses := <[execId := child]> (executionProcesses w);
               files := files w; signalled := signalled w; settled := settled w;
               consoleErrors := consoleErrors w |}).

(** [executionProcesses.delete(execId)] *)
Definition registry_delete (execId : jsstring) : M unit :=
  fun w => (Normal tt,
            {| executionProcesses := delete execId (executionProcesses w);
               files := files w; signalled := signalled w; settled := settled w;
               consoleErrors := consoleErrors w |}).

(** [fs.writeFile(path, text)], seen through the file's existence. *)
Definition fs_writeFile (path : jsstring) : M unit :=
  fun w => (Normal tt,
            {| executionProcesses := executionProcesses w;
               files := files w ∪ {[path]}; signalled := signalled w;
               settled := settled w; consoleErrors := consoleErrors w |}).

(** [fs.unlink(path).catch(() => {})]: the file is gone afterwards, and
    a failure (no such file) is swallowed. *)
Definition fs_unlink (path : jsstring) : M unit :=
  fun w => (Normal tt,
            {| executionProcesses := executionProcesses w;
               files := files w ∖ {[path]}; signalled := signalled w;
               settled := settled w; consoleErrors := consoleErrors w |}).

(** [resolve(v)] *)
Definition resolve (v : value) : M unit :=
  fun w => (Normal tt,
            {| executionProcesses := executionProcesses w;
               files := files w; signalled := signalled w;
               settled := settled w ++ [v]; consoleErrors := consoleErrors w |}).

(** [console.error(label, e)] *)
Definition console_error (label : jsstring) : M unit :=
  fun w => (Normal tt,
            {| executionProcesses := executionProcesses w;
               files := files w; signalled := signalled w;
               settled := settled w; consoleErrors := consoleErrors w ++ [label] |}).

Definition JS_START : jsstring := U "__FASTTINKER_JS_RESULT_START__".
Definition JS_END : jsstring := U "__FASTTINKER_JS_RESULT_END__".
Definition PHP_START : jsstring := U "__FASTTINKER_PHP_RESULT_START__".
Definition PHP_END : jsstring := U "__FASTTINKER_PHP_RESULT_END__".

(** [/\{[\s\S]*\}/] *)
Definition jsonObjectPattern : regex :=
  Cat (Lit1 (ch "{")) (Cat (Star anyChar) (Lit1 (ch "}"))).

(** [stdout.match(/\{[\s\S]*\}/)], reduced to [jsonMatch[0]]. *)
Definition jsonMatch (stdout : jsstring) : option jsstring :=
  option_map whole (search jsonObjectPattern stdout).

(** [{ output: [], error: { message: m }, value: undefined }] *)
Definition failure (m : jsstring) : value :=
  executionResult (VArray []) (errorOf m) VUndefined.

(** [{ output: [{ type: 'log', args: text }], error: null,
      value: undefined, magicComments: [] }] *)
Definition rawOutput (text : jsstring) : value :=
  VObject [(U "output", VArray [logEntry (U "log") text]);
           (U "error", VNull);
           (U "value", VUndefined);
           (U "magicComments", VArray [])].

(** The text between the sentinels, as the close handler of
    [executeJavaScript] cuts it out of stdout; [None] when one of the
    two searches finds nothing. *)
Definition sentinelPayloadJS (stdout : jsstring) : option jsstring :=
  let resultStart := indexOf stdout (JS_START ++ [NL]) 0 in
  let resultEnd := indexOf stdout ([NL] ++ JS_END) resultStart in
  if (negb (resultStart =? -1) && negb (resultEnd =? -1))%bool then
    Some (substring stdout (resultStart + len (JS_START ++ [NL])) resultEnd)
  else None.

(** The same for the close handler of [executePHP], which also
    accepts sentinels without their line feeds and trims the text. *)
Definition sentinelPayloadPHP (stdout : jsstring) : option jsstring :=
  let resultStart1 := indexOf stdout (PHP_START ++ [NL]) 0 in
  let resultStart2 := indexOf stdout PHP_START 0 in
  let resultStart := if negb (resultStart1 =? -1) then resultStart1 else resultStart2 in
  let resultEnd :=
    if negb (resultStart =? -1) then
      let searchStart := resultStart + len PHP_START in
      let resultEnd1 := indexOf stdout ([NL] ++ PHP_END) searchStart in
      let resultEnd2 := indexOf stdout PHP_END searchStart in
      if negb (resultEnd1 =? -1) then resultEnd1 else resultEnd2
    else -1 in
  if (negb (resultStart =? -1) && negb (resultEnd =? -1))%bool then
    let jsonStart := resultStart + len PHP_START in
    let jsonStart :=
      if bool_decide (charAt stdout jsonStart = Some NL) then jsonStart + 1 else jsonStart in
    Some (trim (substring stdout jsonStart resultEnd))
  else None.

(** [e.code === 'ENOENT'] needs the error's code, [error.message] its
    message. *)
Record SpawnError := { err_message : jsstring; err_code : jsstring }.

(** The error Node's [child_process] emits when a spawn fails: an
    ErrnoException whose message is the system call, here
    [spawn <file>], followed by the error code. *)
Definition spawnFailure (file code : jsstring) : SpawnError :=
  {| err_message := U "spawn " ++ file ++ U " " ++ code; err_code := code |}.

(** [{ output: [], error: { message: m, code: c }, value: undefined }] *)
Definition spawnFailed (m c : jsstring) : value :=
  executionResult (VArray [])
    (VObject [(U "message", VString m); (U "code", VString c)]) VUndefined.

Section Handlers.

(** The message of the SyntaxError [JSON.parse] throws on a text is
    the JavaScript engine's. *)
Variable syntaxErrorMessage : jsstring -> jsstring.

Definition parse (text : jsstring) : M value :=
  match JSON_parse text with
  | Some v => ret v
  | None => throw (syntaxErrorMessage text)
  end.

(** The [catch] clause both close handlers end with. *)
Definition parseFailed (stdout stderr : jsstring) (message : jsstring) : M unit :=
  console_error (U "Error parsing execution result:") ;;;
  resolve (failure (orElse message
                      (U "Execution failed: " ++ orElse stderr (substring stdout 0 200)))).

(** [nodeProcess.on('close', ...)] *)
Definition closeJS (execId scriptPath stdout stderr : jsstring) : M unit :=
  registry_delete execId ;;;
  fs_unlink scriptPath ;;;
  tryCatch
    (match sentinelPayloadJS stdout with
     | Some jsonStr =>
         result <- parse jsonStr ;;
         resolve result
     | None =>
         if (truthy stderr && negb (includes stdout JS_START))%bool then
           resolve (failure stderr)
         else
           match jsonMatch stdout with
           | Some text =>
               result <- parse text ;;
               resolve result
           | None => resolve (executionResult (VArray []) VNull VUndefined)
           end
     end)
    (parseFailed stdout stderr).

(** [nodeProcess.on('error', ...)] *)
Definition errorJS (execId scriptPath nodeExecutable : jsstring) (error : SpawnError) : M unit :=
  registry_delete execId ;;;
  fs_unlink scriptPath ;;;
  let errorMessage :=
    if bool_decide (err_code error = U "ENOENT") then
      U "Node.js not found. Please install Node.js and ensure it is accessible."
        ++ [NL; NL] ++ U "Tried: " ++ nodeExecutable
    else err_message error in
  resolve (spawnFailed errorMessage (err_code error)).

(** [phpProcess.on('close', ...)] *)
Definition closePHP (execId scriptPath stdout stderr : jsstring) : M unit :=
  registry_delete execId ;;;
  let hasParseError := (truthy stderr && includes stderr (U "Parse error"))%bool in
  (if negb hasParseError then fs_unlink scriptPath else ret tt) ;;;
  tryCatch
    (match sentinelPayloadPHP stdout with
     | Some jsonStr =>
         result <- parse jsonStr ;;
         resolve result
     | None =>
         if (truthy stderr && negb (includes stdout PHP_START))%bool then
           resolve (failure stderr)
         else
           match jsonMatch stdout with
           | Some text =>
               tryCatch
                 (result <- parse text ;;
                  resolve result)
                 (fun _ =>
                    resolve (failure (U "Failed to parse execution result. Output: "
                                        ++ substring stdout 0 200)))
           | None =>
               if truthy (trim stdout) then
                 resolve (rawOutput (trim stdout))
               else if truthy (trim stderr) then
                 resolve (failure (trim stderr))
               else
                 resolve (failure (U "Execution returned no output."))
           end
     end)
    (parseFailed stdout stderr).

(** [phpProcess.on('error', ...)] *)
Definition errorPHP (execId scriptPath phpExecutable : jsstring) (error : SpawnError) : M unit :=
  registry_delete execId ;;;
  fs_unlink scriptPath ;;;
  let errorMessage :=
    if bool_decide (err_code error = U "ENOENT") then
      U "PHP not found. Please install PHP and ensure it is accessible."
        ++ [NL; NL] ++ U "Tried: " ++ phpExecutable
    else err_message error in
  resolve (spawnFailed errorMessage (err_code error)).

End Handlers.

(** [ipcMain.handle('stop-execution', ...)]: every tracked child is
    sent the signal (a failing [kill()] is ignored), the registry is
    cleared and [{ success: true }] returned. *)
Definition stopExecution : M value :=
  fun w =>
    (Normal (VObject [(U "success", VBool true)]),
     {| executionProcesses := ∅;
        files := files w;
        signalled := signalled w ∪ list_to_set (map snd (map_to_list (executionProcesses w)));
        settled := settled w;
        consoleErrors := consoleErrors w |}).

(** *** Execution identifiers and script paths *)

(** [Date.now().toString()]: the clock reading, an integer number of
    milliseconds, in decimal. *)
Definition execIdOf (now : Z) : jsstring := U (pretty now).

Section Paths.

(** [os.tmpdir()] *)
Variable tmpdir : jsstring.

(** [path.join(os.tmpdir(), name)] for a file name without
    separators. *)
Definition inTmpdir (name : jsstring) : jsstring := tmpdir ++ U "/" ++ name.

Definition scriptPathJS (execId : jsstring) : jsstring :=
  inTmpdir (U "fasttinker-js-" ++ execId ++ U ".js").

Definition scriptPathPHP (execId : jsstring) : jsstring :=
  inTmpdir (U "fasttinker-php-" ++ execId ++ U ".php").

(** What [executeJavaScript] and [executePHP] do up to the spawn:
    take the id from the clock, write the script, spawn the child
    and track it. *)
Definition startJS (now : Z) (child : Child) : M jsstring :=
  let execId := execIdOf now in
  fs_writeFile (scriptPathJS execId) ;;;
  registry_set execId child ;;;
  ret execId.

Definition startPHP (now : Z) (child : Child) : M jsstring :=
  let execId := execIdOf now in
  fs_writeFile (scriptPathPHP execId) ;;;
  registry_set execId child ;;;
  ret execId.

End Paths.

End Engine.

(** ** The generated harness

    The script [executeJavaScript] and [executePHP] write around the
    user's code: the console shim of its header and the probe section of
    its footer. *)

Module Harness.

Import MagicComments.

(** *** The console shim *)

(** A value passed to a console method, seen through what the shim
    asks of it: whether it is [undefined], [null], a function or an
    object, and what [String(v)], [v.toString()] and
    [JSON.stringify(v, null, 2)] give. *)
Inductive argument :=
| AUndefined
| ANull
| AFunction (source : jsstring)
| AObject (stringified : option jsstring) (asString : jsstring)
    (* [stringified] is [None] when [JSON.stringify] throws *)
| APrimitive (asString : jsstring).

Definition isDefined (a : argument) : bool :=
  match a with AUndefined => false | _ => true end.

Definition safeStringify (v : argument) : jsstring :=
  match v with
  | ANull => U "null"
  | AUndefined => U "undefined"
  | AFunction source => source
  | AObject (Some text) _ => text
  | AObject None asString => asString
  | APrimitive asString => asString
  end.

Inductive method := log | error | warn | info.

Definition methodName (m : method) : jsstring :=
  match m with
  | log => U "log" | error => U "error" | warn => U "warn" | info => U "info"
  end.

(** [{ type, args }] *)
Record LogEntry := { type : jsstring; args : jsstring }.

(** What a call of the shim acts on: the buffer [__output] and the
    calls passed on to [originalConsole]. *)
Record Console := {
  output : list LogEntry;
  forwarded : list (method * list argument)
}.

(** [global.console[m](...args)] *)
Definition console (m : method) (arguments : list argument) (c : Console) : Console :=
  let filteredArgs := filter (fun a => isDefined a = true) arguments in
  if bool_decide (length filteredArgs = 0%nat) then c
  else
    let formatted := join (U " ") (map safeStringify filteredArgs) in
    {| output := output c ++ [ {| type := methodName m; args := formatted |} ];
       forwarded := forwarded c ++ [ (m, filteredArgs) ] |}.

(** *** The probe section *)

Definition number (n : nat) : jsstring := U (pretty n).

(** [.replace(/\\/g, '\\\\').replace(/'/g, "\\'")] *)
Definition escapeQuotes (s : jsstring) : jsstring :=
  replaceAllChar SQ [BS; SQ] (replaceAllChar BS [BS; BS] s).

(** What one magic comment contributes to the script. *)
Inductive Probe :=
| ProbeJS (lineNum : nat) (expr display : jsstring)
    (* evaluate [expr]; push its value, or the error, with [lineNum] *)
| ProbePHP (lineNum : nat) (display code phpString : jsstring)
    (* evaluate the variable [code]; push its value with [lineNum] *)
| ProbeSkipped (lineNum : nat).
    (* a comment only *)

(** The text of a probe, as the handlers write it. *)
Definition render (p : Probe) : jsstring :=
  match p with
  | ProbeJS lineNum expr display =>
      join [NL]
        [ [];
          U "    // Magic comment evaluation for line " ++ number lineNum ++ U ": " ++ expr;
          U "    try {";
          U "      var __magicEval = " ++ expr ++ U ";";
          U "      var __magicSerialized;";
          U "      try {";
          U "        JSON.stringify(__magicEval);";
          U "        __magicSerialized = __magicEval;";
          U "      } catch (serErr) {";
          U "        __magicSerialized = '[Non-serializable: ' + (typeof __magicEval) + ']';";
          U "      }";
          U "      if (typeof __magicResults !== 'undefined') {";
          U "        __magicResults.push({ line: " ++ number lineNum ++ U ", expression: '"
            ++ display ++ U "', value: __magicSerialized });";
          U "      }";
          U "    } catch (e) {";
          U "      if (typeof __magicResults !== 'undefined') {";
          U "        __magicResults.push({ line: " ++ number lineNum ++ U ", expression: '"
            ++ display ++ U "', value: null, error: e.message });";
          U "      }";
          U "    }" ]
  | ProbePHP lineNum display code phpString =>
      let arrayLinePart :=
        U "array('line' => " ++ number lineNum ++ U ", 'expression' => '" ++ phpString
          ++ U "', 'value' => $__magicSerialized)" in
      let arrayErrorPart :=
        U "array('line' => " ++ number lineNum ++ U ", 'expression' => '" ++ phpString
          ++ U "', 'value' => null, 'error' => $e->getMessage())" in
      join [NL]
        [ U "    // Magic comment evaluation for line " ++ number lineNum ++ U ": " ++ display;
          U "    try {";
          U "        $__magicEval = @" ++ code ++ U ";";
          U "        $__magicSerialized = null;";
          U "        if (is_object($__magicEval) || is_array($__magicEval)) {";
          U "            $__magicSerialized = json_decode(json_encode($__magicEval), true);";
          U "        } else {";
          U "            $__magicSerialized = $__magicEval;";
          U "        }";
          U "        $__magicResults[] = " ++ arrayLinePart ++ U ";";
          U "    } catch (Exception $e) {";
          U "        $__magicResults[] = " ++ arrayErrorPart ++ U ";";
          U "    }" ]
  | ProbeSkipped lineNum =>
      U "    // Magic comment skipped for line " ++ number lineNum
        ++ U ": complex expression not supported"
  end.

(** The callback of [magicComments.map] in [executeJavaScript]. *)
Definition probeJS (mc : MagicComment) : Probe :=
  let escapedExprForDisplay :=
    replaceAllChar DQ [BS; DQ] (escapeQuotes (expression mc)) in
  ProbeJS (line mc) (expression mc) escapedExprForDisplay.

(** [/^[a-zA-Z_][a-zA-Z0-9_]*$/] *)
Definition simpleVariablePattern : regex :=
  Cat AutoLog.phpIdentStart (Cat (Star AutoLog.phpIdentPart) Eol).

Definition isSimpleVariable (exprForCode : jsstring) : bool :=
  (testHere simpleVariablePattern exprForCode && negb (startsWith exprForCode (U "$")))%bool.

(** The callback of [magicComments.map] in [executePHP]. *)
Definition probePHP (mc : MagicComment) : Probe :=
  let escapedExprForDisplay := escapeQuotes (expression mc) in
  let escapedExprForString := escapeQuotes (expression mc) in
  let exprForCode := trim (expression mc) in
  if isSimpleVariable exprForCode then
    let exprForCode := U "$" ++ exprForCode in
    let escapedExprForCode := escapeQuotes exprForCode in
    let exprForPHPString := replaceAllChar SQ [BS; SQ] escapedExprForString in
    ProbePHP (line mc) escapedExprForDisplay escapedExprForCode exprForPHPString
  else ProbeSkipped (line mc).

(** [magicComments.map(...).join('\n')], the empty text for no magic
    comment. *)
Definition magicCommentsEvalJS (mcs : list MagicComment) : jsstring :=
  match mcs with
  | [] => []
  | _ => join [NL] (map (fun mc => render (probeJS mc)) mcs)
  end.


(** *** What the probe section does when the script runs *)

(** The interpreters are not modelled.  The handlers paste text into
    the script as source (the user's code and, in JavaScript, the
    expression of every magic comment), so what a run does is the
    interpreter's reading of that text.  It is a parameter of the model,
    with an outcome for whatever the interpreter makes of the text. *)

(** What an entry of [__magicResults] ([$__magicResults]) holds as its
    value: the value probed, a text, or [null]. *)
Inductive held (V : Type) :=
| Held (v : V)
| Text (s : jsstring)
| Null.
Arguments Held {V} v.
Arguments Text {V} s.
Arguments Null {V}.

(** [{ line, expression, value, error? }] in the array;
    [e_expression] is the text between the quotes of the script's
    [expression:] literal. *)
Record Entry (V : Type) := {
  e_line : nat;
  e_expression : jsstring;
  e_value : held V;
  e_error : option jsstring
}.
Arguments e_line {V} _.
Arguments e_expression {V} _.
Arguments e_value {V} _.
Arguments e_error {V} _.

(** What the statement of a probe does, the text pasted into it read
    as source ([var __magicEval = <text>;] in JavaScript,
    [$__magicEval = @<text>;] in PHP), given the array as it stands. *)
Inductive pasted (V : Type) :=
| Evaluates (v : V)
    (* the text is an expression, its value is [v], nothing else happens *)
| Raises (message : jsstring)
    (* the statement throws what the [catch] of the probe handles: in
       JavaScript an object whose [message] is this text, in PHP an
       [Exception] with this message *)
| GoesOn (now : list (Entry V) -> list (Entry V))
    (* anything else after which the probe section goes on (the text
       changes the array, throws a value without message, ...): the
       array is then [now results] *)
| Stops (payload : list (Entry V) -> option (list (Entry V))).
    (* anything after which the rest of the wrapper is not run:
       [payload results] is the list the script writes, if it still
       writes one *)
Arguments Evaluates {V} v.
Arguments Raises {V} message.
Arguments GoesOn {V} now.
Arguments Stops {V} payload.


(** The statement throws what the [catch] of the probe does not
    handle (in PHP an [Error], which is no [Exception]; in JavaScript
    [null], whose [message] cannot be read): the outer [catch] writes an
    empty list. *)
Definition Escapes {V} : pasted V := Stops (fun _ => Some []).

(** [{ line, expression, value, error? }] in the [magicComments] list of
    an ExecutionResult; [pr_expression] as [e_expression] below. *)
Record ProbeResult := {
  pr_line : nat;
  pr_expression : jsstring;
  pr_value : value;
  pr_error : option jsstring
}.

(** An interpreter, seen through what the harness asks of it. *)
Record Interpreter := {
  val : Type;
    (* its values *)
  pastedOutcome : nat -> jsstring -> pasted val;
    (* what the statement of the probe number [i] of the script does,
       given the text pasted into it *)
  typeofRejected : val -> option jsstring;
    (* [JSON.stringify(__magicEval)] in a JavaScript probe: [None] when
       it returns, [typeof __magicEval] when it throws *)
  payloadImage : nat -> val -> option value
    (* the image, in the payload, of the value held by the entry
       number [j] of the array ([safeJsonStringify], which writes
       [[Circular]] for an object it has met before; [json_encode]);
       [None] when the serializer fails, and the payload with it *)
}.

Definition entry {V} (lineNum : nat) (expr : jsstring) (v : held V) (error : option jsstring)
  : Entry V :=
  {| e_line := lineNum; e_expression := expr; e_value := v; e_error := error |}.

(** The probe number [i] run against the array: the array afterwards
    when the probe section goes on, the list written when the wrapper
    is left.  A skipped probe is a comment.  The array is the one the
    script declares before the wrapper, so the test
    [typeof __magicResults !== 'undefined'] holds; a text that changes
    that is a [GoesOn].  In PHP the entry of an object or an array holds
    its decoded encoding, which its image in the payload stands for. *)
Definition runProbe (I : Interpreter) (i : nat) (results : list (Entry (val I))) (p : Probe)
  : list (Entry (val I)) + option (list (Entry (val I))) :=
  match p with
  | ProbeJS lineNum expr display =>
      match pastedOutcome I i expr with
      | Evaluates v =>
          let serialized :=
            match typeofRejected I v with
            | None => Held v
            | Some typeOf => Text (U "[Non-serializable: " ++ typeOf ++ U "]")
            end in
          inl (results ++ [entry lineNum display serialized None])
      | Raises message => inl (results ++ [entry lineNum display Null (Some message)])
      | GoesOn now => inl (now results)
      | Stops payload => inr (payload results)
      end
  | ProbePHP lineNum _ code phpString =>
      match pastedOutcome I i code with
      | Evaluates v => inl (results ++ [entry lineNum phpString (Held v) None])
      | Raises message => inl (results ++ [entry lineNum phpString Null (Some message)])
      | GoesOn now => inl (now results)
      | Stops payload => inr (payload results)
      end
  | ProbeSkipped _ => inl results
  end.

(** The probe section, from the probe number [i] on: the list the
    script writes as [magicComments], if it writes one. *)
Fixpoint runProbes (I : Interpreter) (i : nat) (results : list (Entry (val I)))
         (probes : list Probe) : option (list (Entry (val I))) :=
  match probes with
  | [] => Some results
  | p :: rest =>
      match runProbe I i results p with
      | inl results' => runProbes I (S i) results' rest
      | inr payload => payload
      end
  end.

(** How the script runs up to the probe section. *)
Inductive scriptRun (V : Type) :=
| DoesNotParse
    (* the interpreter rejects the script: nothing runs, nothing is
       written *)
| LeavesEarly (payload : option (list (Entry V)))
    (* the user's code ends the wrapper (it throws, returns or exits):
       the list the script writes, if it writes one *)
| ReachesEnd (results : list (Entry V)).
    (* the user's code runs to its last line; the array then holds
       [results]: nothing, unless the code touched it *)
Arguments DoesNotParse {V}.
Arguments LeavesEarly {V} payload.
Arguments ReachesEnd {V} results.

(** The list the script writes as [magicComments] of its result. *)
Definition magicResults (I : Interpreter) (probe : MagicComment -> Probe)
           (run : scriptRun (val I)) (mcs : list MagicComment)
  : option (list (Entry (val I))) :=
  match run with
  | DoesNotParse => None
  | LeavesEarly payload => payload
  | ReachesEnd results => runProbes I 0 results (map probe mcs)
  end.

(** The entry number [j] as it is in the payload. *)
Definition payloadEntry (I : Interpreter) (j : nat) (e : Entry (val I)) : option ProbeResult :=
  match (match e_value e with
         | Held v => payloadImage I j v
         | Text s => Some (VString s)
         | Null => Some VNull
         end) with
  | Some v =>
      Some {| pr_line := e_line e; pr_expression := e_expression e;
              pr_value := v; pr_error := e_error e |}
  | None => None
  end.

Fixpoint payloadEntries (I : Interpreter) (j : nat) (es : list (Entry (val I)))
  : option (list ProbeResult) :=
  match es with
  | [] => Some []
  | e :: es' =>
      match payloadEntry I j e, payloadEntries I (S j) es' with
      | Some r, Some rs => Some (r :: rs)
      | _, _ => None
      end
  end.

(** The [magicComments] list of the ExecutionResult the close handler
    resolves from the payload of the script; [None] when the handler
    gets no payload it can read. *)
Definition returnedResults (I : Interpreter) (probe : MagicComment -> Probe)
           (run : scriptRun (val I)) (mcs : list MagicComment) : option (list ProbeResult) :=
  match magicResults I probe run mcs with
  | Some es => payloadEntries I 0 es
  | None => None
  end.

(** The magic comments [executePHP] writes a probe for: those whose
    expression is a plain name. *)
Definition probedPHP (mc : MagicComment) : Prop :=
  isSimpleVariable (trim (expression mc)) = true.





End Harness.

(** ** Sample runs *)

Module Samples.

Import Engine.

(** A JavaScript engine's message for every SyntaxError. *)
Definition unexpectedToken (text : jsstring) : jsstring := U "Unexpected token".

(** An execution of the JavaScript handler started at clock reading 17
    and tracked as child 7, its script on disk. *)
Definition tracked : World :=
  {| executionProcesses := {[ execIdOf 17 := 7%positive ]};
     files := {[ scriptPathJS (U "/tmp") (execIdOf 17) ]};
     signalled := ∅; settled := []; consoleErrors := [] |}.

Definition idle : World :=
  {| executionProcesses := ∅; files := ∅; signalled := ∅; settled := [];
     consoleErrors := [] |}.

(** stdout holding the payload [42] between the JavaScript sentinels. *)
Definition stdoutNumberJS : jsstring :=
  JS_START ++ [NL] ++ U "42" ++ [NL] ++ JS_END ++ [NL].

(** stdout holding the payload [[1]] between the PHP sentinels. *)
Definition stdoutArrayPHP : jsstring :=
  PHP_START ++ [NL] ++ U "[1]" ++ [NL] ++ PHP_END ++ [NL].

(** The payload [{"output":[],"error":null,"value":1}] a script wrote
    before its process was signalled. *)
Definition payloadText : jsstring :=
  U "{" ++ [DQ] ++ U "output" ++ [DQ] ++ U ":[]," ++ [DQ] ++ U "error" ++ [DQ] ++ U ":null,"
    ++ [DQ] ++ U "value" ++ [DQ] ++ U ":1}".

Definition stdoutPayloadJS : jsstring :=
  JS_START ++ [NL] ++ payloadText ++ [NL] ++ JS_END ++ [NL].

Definition payloadValue : value :=
  VObject [(U "output", VArray []); (U "error", VNull); (U "value", VNumber (U "1"))].

(** An interpreter for which [y] is not defined and every other text
    is an expression of the value 41; it accepts every value and
    writes it as it is. *)
Definition sampleInterpreter : Harness.Interpreter :=
  {| Harness.val := value;
     Harness.pastedOutcome := fun _ text =>
       if bool_decide (text = U "y") then Harness.Raises (U "y is not defined")
       else Harness.Evaluates (VNumber (U "41"));
     Harness.typeofRejected := fun _ => None;
     Harness.payloadImage := fun _ v => Some v |}.

(** A PHP interpreter for which reading [$this] is an [Error], which
    the [catch] of the probe does not handle. *)
Definition outsideObjectContext : Harness.Interpreter :=
  {| Harness.val := value;
     Harness.pastedOutcome := fun _ text =>
       if bool_decide (text = U "$this") then Harness.Escapes
       else Harness.Evaluates (VNumber (U "41"));
     Harness.typeofRejected := fun _ => None;
     Harness.payloadImage := fun _ v => Some v |}.

(** A JavaScript interpreter for which every text evaluates to one
    and the same object, which the serializer writes once. *)
Definition sharedObject : Harness.Interpreter :=
  {| Harness.val := value;
     Harness.pastedOutcome := fun _ _ => Harness.Evaluates (VObject []);
     Harness.typeofRejected := fun _ => None;
     Harness.payloadImage := fun j v =>
       if bool_decide (j = 0%nat) then Some v else Some (VString (U "[Circular]")) |}.

End Samples.

(** ** Executions by language *)

Module Executions.

Import AutoLog Engine.

Definition scriptPathOf (lang : Language) (tmpdir execId : jsstring) : jsstring :=
  match lang with
  | JavaScript => scriptPathJS tmpdir execId
  | PHP => scriptPathPHP tmpdir execId
  end.

(** [executeJavaScript] or [executePHP] up to the spawn, as
    [execute-code] chooses by the language. *)
Definition startOf (lang : Language) (tmpdir : jsstring) (now : Z) (child : Child) : M jsstring :=
  match lang with
  | JavaScript => startJS tmpdir now child
  | PHP => startPHP tmpdir now child
  end.

End Executions.

(** ** The payload frame the generated scripts write *)

Module Protocol.

Import Engine.

(** The three [process.stdout.write] calls at the end of the JavaScript
    script: the start sentinel and a line feed, the serialized result,
    a line feed and the end sentinel and a line feed. *)
Definition frameJS (json : jsstring) : jsstring :=
  JS_START ++ [NL] ++ json ++ [NL] ++ JS_END ++ [NL].

(** The three [echo] statements at the end of the PHP script. *)
Definition framePHP (json : jsstring) : jsstring :=
  PHP_START ++ [NL] ++ json ++ [NL] ++ PHP_END ++ [NL].

End Protocol.

(** ** The renderer's [executeCode] and [displayExecutionResults] *)

Module Renderer.

Import MagicComments AutoLog.

(** What [executeCode] hands to the main process: the auto-logged code
    of the current language and the magic comments of the code as
    typed. *)
Definition prepareExecution (currentLanguage code : jsstring)
  : jsstring * list MagicComment :=
  let processedCode := processMagicComments code in
  let autoLoggedCode :=
    if bool_decide (currentLanguage = U "javascript") then
      autoLogExpressions (MagicComments.code processedCode)
    else if bool_decide (currentLanguage = U "php") then
      autoLogExpressionsPHP (MagicComments.code processedCode)
    else MagicComments.code processedCode in
  (autoLoggedCode, magicComments processedCode).

(** The loop of [displayExecutionResults] that looks for the brace
    closing the first one: [i] is the index of the first code unit of
    [s] in the trimmed text, [braceCount] the count so far; the result
    is [endIndex], [None] when the loop ends without a [break]. *)
Fixpoint findEndIndex (s : jsstring) (i : nat) (braceCount : Z) : option nat :=
  match s with
  | [] => None
  | c :: s' =>
      let braceCount := if char_eqb c (ch "{") then braceCount + 1 else braceCount in
      if char_eqb c (ch "}") then
        let braceCount := braceCount - 1 in
        if braceCount =? 0 then Some (i + 1)%nat
        else findEndIndex s' (S i) braceCount
      else findEndIndex s' (S i) braceCount
  end.

(** [trimmed.substring(0, endIndex)] for a text that starts with a
    brace: the text handed to [JSON.parse] to count the properties. *)
Definition objectText (trimmed : jsstring) : option jsstring :=
  if startsWith trimmed (U "{") then
    match findEndIndex trimmed 0 0 with
    | Some endIndex => Some (take endIndex trimmed)
    | None => None
    end
  else None.

End Renderer.

(** ** The Runtime Locator ([findNodeExecutable], [findPHPExecutable],
       [findComposerExecutable]) *)

Module Locator.

Section Environment.

(** What the locator reads of the machine it runs on. *)
Variable platform : jsstring.                          (* [process.platform] *)
Variable env : jsstring -> option jsstring.            (* [process.env] *)
Variable existsSync : jsstring -> bool.                (* [fsSync.existsSync] *)
Variable readdirSync : jsstring -> option (list jsstring).
  (* [fsSync.readdirSync]; [None] when it throws *)
Variable exec : jsstring -> option jsstring.
  (* the stdout of [execAsync(command)]; [None] when it rejects *)
Variable path_join : list jsstring -> jsstring.        (* [path.join] *)
Variable sortNewestFirst : list jsstring -> list jsstring.
  (* [versions.sort((a, b) => b.localeCompare(a, undefined, { numeric: true }))] *)

(** [process.env[name] || fallback] *)
Definition envOr (name : string) (fallback : jsstring) : jsstring :=
  match env (U name) with
  | Some v => orElse v fallback
  | None => fallback
  end.

(** The [for] loops over candidate paths: the first one that exists. *)
Fixpoint firstExisting (paths : list jsstring) : option jsstring :=
  match paths with
  | [] => None
  | p :: rest => if existsSync p then Some p else firstExisting rest
  end.

(** [checkCommonPaths()]: the first well-known path that exists, else
    the bare command. *)
Definition checkCommonPaths (commonPaths : list jsstring) (bare : jsstring) : jsstring :=
  match firstExisting commonPaths with
  | Some p => p
  | None => bare
  end.

(** The [which]/[where] lookup with its two callbacks: the first line
    of the trimmed output when it names a file that exists, else the
    common paths. *)
Definition lookUp (command : jsstring) (commonPaths : list jsstring) (bare : jsstring) : jsstring :=
  match exec command with
  | Some stdout =>
      let found := hd [] (split (trim stdout)) in
      if (truthy found && existsSync found)%bool then found
      else checkCommonPaths commonPaths bare
  | None => checkCommonPaths commonPaths bare
  end.

Definition win32 : bool := bool_decide (platform = U "win32").

Definition commonPathsNode : list jsstring :=
  if win32 then
    [ path_join [envOr "PROGRAMFILES" (U "C:\Program Files"); U "nodejs"; U "node.exe"];
      path_join [envOr "PROGRAMFILES(X86)" (U "C:\Program Files (x86)"); U "nodejs"; U "node.exe"];
      path_join [envOr "APPDATA" []; U "npm"; U "node.exe"] ]
  else
    [ U "/usr/bin/node"; U "/usr/local/bin/node"; U "/opt/homebrew/bin/node"; U "/snap/bin/node" ].

Definition commonPathsPHP : list jsstring :=
  if win32 then
    [ path_join [envOr "PROGRAMFILES" (U "C:\Program Files"); U "PHP"; U "php.exe"];
      path_join [envOr "PROGRAMFILES(X86)" (U "C:\Program Files (x86)"); U "PHP"; U "php.exe"];
      U "C:\xampp\php\php.exe";
      U "C:\wamp\bin\php\php.exe" ]
  else
    [ U "/usr/bin/php"; U "/usr/local/bin/php"; U "/opt/homebrew/bin/php"; U "/snap/bin/php";
      U "/usr/local/php/bin/php" ].

Definition commonPathsComposer : list jsstring :=
  if win32 then
    [ path_join [envOr "APPDATA" []; U "Composer"; U "composer.bat"];
      path_join [envOr "LOCALAPPDATA" []; U "Composer"; U "composer.bat"] ]
  else
    [ U "/usr/local/bin/composer";
      U "/usr/bin/composer";
      path_join [envOr "HOME" []; U ".composer"; U "vendor"; U "bin"; U "composer"];
      path_join [envOr "HOME" []; U ".config"; U "composer"; U "vendor"; U "bin"; U "composer"] ].

(** The nvm step of [findNodeExecutable]: the [bin/node] of the newest
    installed version that has one; an exception of [readdirSync] is
    caught and ends the step. *)
Definition nvmNode (homeDir : jsstring) : option jsstring :=
  let nvmDir := path_join [homeDir; U ".nvm"; U "versions"; U "node"] in
  if existsSync nvmDir then
    match readdirSync nvmDir with
    | Some versions =>
        firstExisting
          (map (fun version => path_join [nvmDir; version; U "bin"; U "node"])
             (sortNewestFirst versions))
    | None => None
    end
  else None.

Definition findNodeExecutable : jsstring :=
  let homeDir := envOr "HOME" (envOr "USERPROFILE" []) in
  match (if truthy homeDir then nvmNode homeDir else None) with
  | Some nodePath => nodePath
  | None =>
      lookUp (if win32 then U "where node" else U "which node") commonPathsNode (U "node")
  end.

Definition findPHPExecutable : jsstring :=
  lookUp (if win32 then U "where php" else U "which php") commonPathsPHP (U "php").

Definition findComposerExecutable : jsstring :=
  lookUp (if win32 then U "where composer" else U "which composer")
    commonPathsComposer (U "composer").

End Environment.

End Locator.

(** ** Snippet files ([list-snippets], [save-snippet], [delete-snippet]) *)

Module Snippets.

Record LangConfig := {
  extensions : list jsstring;
  defaultExtension : jsstring;
  monacoLanguage : jsstring;
  packageManager : jsstring;
  resultMarker : jsstring;
  resultMarkerEnd : jsstring
}.

Definition javascriptConfig : LangConfig :=
  {| extensions := [U ".js"; U ".ts"];
     defaultExtension := U ".js";
     monacoLanguage := U "javascript";
     packageManager := U "npm";
     resultMarker := U "__FASTTINKER_JS_RESULT_START__";
     resultMarkerEnd := U "__FASTTINKER_JS_RESULT_END__" |}.

Definition phpConfig : LangConfig :=
  {| extensions := [U ".php"];
     defaultExtension := U ".php";
     monacoLanguage := U "php";
     packageManager := U "composer";
     resultMarker := U "__FASTTINKER_PHP_RESULT_START__";
     resultMarkerEnd := U "__FASTTINKER_PHP_RESULT_END__" |}.

(** What [LANGUAGES[language]] gives: a configuration, a member
    inherited from [Object.prototype] (truthy, with none of the
    configuration's properties), or [undefined]. *)
Inductive languageEntry :=
| Configured (config : LangConfig)
| Inherited
| Absent.

Definition objectPrototypeKeys : list jsstring :=
  map U [ "constructor"; "hasOwnProperty"; "isPrototypeOf"; "propertyIsEnumerable";
          "toLocaleString"; "toString"; "valueOf"; "__proto__"; "__defineGetter__";
          "__defineSetter__"; "__lookupGetter__"; "__lookupSetter__" ]%string.

Definition LANGUAGES (language : jsstring) : languageEntry :=
  if bool_decide (language = U "javascript") then Configured javascriptConfig
  else if bool_decide (language = U "php") then Configured phpConfig
  else if bool_decide (language ∈ objectPrototypeKeys) then Inherited
  else Absent.

(** [langConfig.extensions.some(ext => f.endsWith(ext))] *)
Definition hasExtension (config : LangConfig) (f : jsstring) : bool :=
  existsb (fun ext => endsWith f ext) (extensions config).

(** The [list-snippets] handler on the entries [files] of the snippets
    directory.  For an inherited member [extensions] is [undefined]:
    the filter throws at its first file and the [catch] returns the
    empty list, which is also what the filter gives for no file. *)
Definition listSnippets (files : list jsstring) (language : jsstring) : list jsstring :=
  match LANGUAGES language with
  | Configured config => filter (fun f => hasExtension config f = true) files
  | Inherited => []
  | Absent => []
  end.

(** The file name [save-snippet] writes and [delete-snippet] unlinks
    under the snippets directory: [`${name}${langConfig.defaultExtension}`];
    [None] when the handler answers [Unsupported language]. *)
Definition snippetFileName (name language : jsstring) : option jsstring :=
  match LANGUAGES language with
  | Configured config => Some (name ++ defaultExtension config)
  | Inherited => Some (name ++ U "undefined")
  | Absent => None
  end.

End Snippets.

(** ** The loop of the Auto-Log Transform, by language *)

Module AutoLogLoop.

Import AutoLog.

Definition keywordsOf (lang : Language) : list jsstring :=
  match lang with
  | JavaScript => statementKeywords
  | PHP => statementKeywordsPHP
  end.

Definition hasAssignment (lang : Language) : jsstring -> bool :=
  match lang with
  | JavaScript => hasAssignmentJS
  | PHP => hasAssignmentPHP
  end.

Definition rewriteOf (lang : Language) : Loop -> jsstring -> jsstring -> Loop :=
  match lang with
  | JavaScript => rewriteJS
  | PHP => rewritePHP
  end.

(** One turn of the loop of [autoLogExpressions] or
    [autoLogExpressionsPHP]. *)
Definition step (lang : Language) : Loop -> jsstring -> Loop :=
  body (keywordsOf lang) (rewriteOf lang).

(** The variables of the loop other than the lines pushed. *)
Definition control (st : Loop) : bool * Z * Z :=
  (inMultiLineComment st, braceDepth st, parenDepth st).

(** The tests of the loop that send a line to the result as it is,
    whatever the loop has seen before: an empty or comment line, a
    line with a comment delimiter, a statement line, an assignment. *)
Definition passedOver (lang : Language) (l : jsstring) : bool :=
  let trimmed := trim l in
  (negb (truthy trimmed) || startsWith trimmed (U "//")
   || includes trimmed (U "/*") || includes trimmed (U "*/")
   || isStatementLine (keywordsOf lang) trimmed
   || hasAssignment lang trimmed)%bool.

(** The variables of the loop when it comes to line [i] (counted
    from 0) of the snippet. *)
Definition stateBefore (lang : Language) (code : jsstring) (i : nat) : Loop :=
  fold_left (step lang) (take i (split code)) initial.

End AutoLogLoop.

(** * Properties *)

(** ** Strings *)

Section StringFacts.

Lemma char_eqb_eq (a b : char16) : char_eqb a b = true <-> a = b.
Proof. unfold char_eqb. apply N.eqb_eq. Qed.

Lemma char_eqb_neq (a b : char16) : char_eqb a b = false <-> a <> b.
Proof. unfold char_eqb. apply N.eqb_neq. Qed.

Lemma split_cons_inv (s : jsstring) : exists l ls, split s = l :: ls.
Proof.
  induction s as [|c s [l [ls IH]]]; simpl; [eauto|].
  destruct (char_eqb c NL); [eauto|]. rewrite IH. eauto.
Qed.

Lemma join_cons2 (sep l l' : jsstring) (ls : list jsstring) :
  join sep (l :: l' :: ls) = l ++ sep ++ join sep (l' :: ls).
Proof. reflexivity. Qed.

(** Splitting a text at its line feeds and joining the lines with a
    line feed gives the text back. *)
Lemma join_split (s : jsstring) : join [NL] (split s) = s.
Proof.
  induction s as [|c s IH]; [reflexivity|].
  simpl split. destruct (split_cons_inv s) as [l [ls E]].
  rewrite E in IH |- *.
  destruct (char_eqb c NL) eqn:Ec.
  - apply char_eqb_eq in Ec. subst c. rewrite join_cons2, IH. reflexivity.
  - destruct ls as [|l' ls].
    + simpl in *. congruence.
    + rewrite join_cons2 in IH. rewrite join_cons2, <- IH. reflexivity.
Qed.

Lemma split_no_NL (l : jsstring) : NL ∉ l -> split l = [l].
Proof.
  induction l as [|c l IH]; intros H; [reflexivity|].
  simpl. destruct (char_eqb c NL) eqn:Ec.
  - apply char_eqb_eq in Ec. subst. exfalso. apply H. left.
  - rewrite IH; [reflexivity|]. intros Hin. apply H. now right.
Qed.

Lemma split_app_NL (l s : jsstring) : NL ∉ l -> split (l ++ NL :: s) = l :: split s.
Proof.
  induction l as [|c l IH]; intros H.
  - reflexivity.
  - simpl. destruct (char_eqb c NL) eqn:Ec.
    + apply char_eqb_eq in Ec. subst. exfalso. apply H. left.
    + rewrite IH; [reflexivity|]. intros Hin. apply H. now right.
Qed.

(** Joining lines that hold no line feed and splitting the text gives
    the lines back. *)
Lemma split_join (ls : list jsstring) :
  ls <> [] -> Forall (fun l => NL ∉ l) ls -> split (join [NL] ls) = ls.
Proof.
  induction ls as [|l ls IH]; intros Hne Hall; [congruence|].
  inversion Hall as [|? ? Hl Hls]; subst.
  destruct ls as [|l' ls].
  - simpl. now apply split_no_NL.
  - rewrite join_cons2. simpl app. rewrite split_app_NL by assumption.
    f_equal. apply IH; [congruence|assumption].
Qed.

Lemma split_lines_no_NL (s : jsstring) : Forall (fun l => NL ∉ l) (split s).
Proof.
  induction s as [|c s IH]; simpl.
  - constructor; [|constructor]. apply not_elem_of_nil.
  - destruct (char_eqb c NL) eqn:Ec.
    + constructor; [apply not_elem_of_nil|assumption].
    + destruct (split s) as [|l ls]; [repeat constructor|].
      * intros H. apply list_elem_of_singleton in H. subst c.
        apply char_eqb_neq in Ec. congruence.
      * inversion IH; subst. constructor; [|assumption].
        intros H. apply elem_of_cons in H as [H|H]; [|tauto].
        subst c. apply char_eqb_neq in Ec. congruence.
Qed.

(** *** Trimming *)

Lemma trimStart_noLeading (s : jsstring) : noLeadingSpace (trimStart s).
Proof.
  induction s as [|c s IH]; simpl; [exact I|].
  destruct (isSpace c) eqn:E; [assumption|]. simpl. assumption.
Qed.

Lemma trimStart_id (s : jsstring) : noLeadingSpace s -> trimStart s = s.
Proof. destruct s as [|c s]; simpl; [reflexivity|]. now intros ->. Qed.

(** [trimStart] drops a run of white space from the front. *)
Lemma trimStart_suffix (s : jsstring) :
  exists p, s = p ++ trimStart s /\ Forall (fun c => isSpace c = true) p.
Proof.
  induction s as [|c s [p [E Hp]]]; simpl.
  - exists []. split; [reflexivity|constructor].
  - destruct (isSpace c) eqn:Ec.
    + exists (c :: p). split; [simpl; congruence|]. now constructor.
    + exists []. split; [reflexivity|constructor].
Qed.

Lemma trimStart_spaces_app (p s : jsstring) :
  Forall (fun c => isSpace c = true) p -> trimStart (p ++ s) = trimStart s.
Proof. induction 1 as [|c p Hc _ IH]; simpl; [reflexivity|]. now rewrite Hc. Qed.

Lemma trimEnd_prefix (s : jsstring) :
  exists q, s = trimEnd s ++ q /\ Forall (fun c => isSpace c = true) q.
Proof.
  unfold trimEnd. destruct (trimStart_suffix (rev s)) as [p [E Hp]].
  exists (rev p). split.
  - rewrite <- rev_app_distr, <- E. now rewrite rev_involutive.
  - now apply Forall_rev.
Qed.

Lemma noLeading_app_l (a b : jsstring) : noLeadingSpace (a ++ b) -> noLeadingSpace a.
Proof. destruct a; simpl; auto. Qed.

Lemma trim_noLeading (s : jsstring) : noLeadingSpace (trim s).
Proof.
  unfold trim. destruct (trimEnd_prefix (trimStart s)) as [q [E _]].
  apply noLeading_app_l with (b := q). rewrite <- E. apply trimStart_noLeading.
Qed.

Lemma trim_noTrailing (s : jsstring) : noLeadingSpace (rev (trim s)).
Proof. unfold trim, trimEnd. rewrite rev_involutive. apply trimStart_noLeading. Qed.

(** Trimming a trimmed string changes nothing. *)
Lemma trim_idempotent (s : jsstring) : trim (trim s) = trim s.
Proof.
  pose proof (trim_noLeading s) as H1. pose proof (trim_noTrailing s) as H2.
  unfold trim at 1. rewrite (trimStart_id _ H1).
  unfold trimEnd. rewrite (trimStart_id _ H2). apply rev_involutive.
Qed.

(** A string that starts with a non-space prefix whose last code unit
    is no white space keeps the prefix when trimmed. *)
Lemma trimEnd_keeps_prefix (p t : jsstring) :
  noLeadingSpace (rev p) -> p <> [] -> exists t', trimEnd (p ++ t) = p ++ t'.
Proof.
  intros Hp Hne. unfold trimEnd. rewrite rev_app_distr.
  destruct (trimStart_suffix (rev t)) as [sp [E Hsp]].
  destruct (trimStart (rev t)) as [|c r] eqn:Et.
  - rewrite app_nil_r in E. rewrite E, trimStart_spaces_app by assumption.
    rewrite trimStart_id by assumption. exists []. rewrite rev_involutive.
    now rewrite app_nil_r.
  - assert (Hc : isSpace c = false).
    { pose proof (trimStart_noLeading (rev t)) as H. now rewrite Et in H. }
    rewrite E, <- app_assoc, trimStart_spaces_app by assumption.
    simpl. rewrite Hc. exists (rev (c :: r)).
    change (c :: r ++ rev p) with ((c :: r) ++ rev p).
    rewrite rev_app_distr, rev_involutive. reflexivity.
Qed.

Lemma startsWith_app (p t : jsstring) : startsWith (p ++ t) p = true.
Proof.
  induction p as [|c p IH]; simpl; [reflexivity|].
  unfold char_eqb. now rewrite N.eqb_refl.
Qed.

Lemma startsWith_inv (s p : jsstring) : startsWith s p = true -> exists t, s = p ++ t.
Proof.
  revert s. induction p as [|c p IH]; intros s H; [now exists s|].
  destruct s as [|b s]; simpl in H; [discriminate|].
  apply andb_true_iff in H as [Hc H]. apply char_eqb_eq in Hc. subst b.
  destruct (IH s H) as [t ->]. now exists t.
Qed.

Lemma trim_keeps_prefix (p t : jsstring) :
  noLeadingSpace p -> noLeadingSpace (rev p) -> p <> [] ->
  startsWith (trim (p ++ t)) p = true.
Proof.
  intros H1 H2 Hne. unfold trim.
  rewrite trimStart_id.
  - destruct (trimEnd_keeps_prefix p t H2 Hne) as [t' ->]. apply startsWith_app.
  - destruct p; [congruence|exact H1].
Qed.

End StringFacts.

(** ** The Magic-Comment Extractor *)

Section MagicCommentFacts.

Import MagicComments.

Lemma forEach_processedLines (lines : list jsstring) (index : nat) (st : Acc) :
  acc_processedLines (forEach lines index st) = acc_processedLines st ++ lines.
Proof.
  revert index st. induction lines as [|l lines IH]; intros index st; simpl.
  - now rewrite app_nil_r.
  - rewrite IH. unfold callback. destruct (magicMatch l); simpl;
      now rewrite <- app_assoc.
Qed.

(** The entries the loop adds, from index [index] on: one for each
    line the pattern matches, numbered from the line's index. *)
Lemma forEach_magicComments (lines : list jsstring) (index : nat) (st : Acc) (mc : MagicComment) :
  mc ∈ acc_magicComments (forEach lines index st) <->
  mc ∈ acc_magicComments st \/
  exists i l g, lines !! i = Some l /\ magicMatch l = Some g /\
                mc = {| line := index + i + 1; expression := trim g |}.
Proof.
  revert index st. induction lines as [|l lines IH]; intros index st; simpl.
  - split; [auto|]. intros [H|(i & l & g & H & _)]; [assumption|discriminate].
  - rewrite IH. unfold callback. split.
    + intros [H|(i & l' & g & Hi & Hm & ->)].
      * destruct (magicMatch l) as [g|] eqn:Hm; simpl in H; [|now left].
        apply elem_of_app in H as [H|H]; [now left|].
        apply list_elem_of_singleton in H. subst mc. right.
        exists 0%nat, l, g. repeat split; [assumption|].
        do 2 f_equal. lia.
      * right. exists (S i), l', g. repeat split; [assumption..|].
        do 2 f_equal. lia.
    + intros [H|(i & l' & g & Hi & Hm & ->)].
      * left. destruct (magicMatch l); simpl; [|assumption].
        apply elem_of_app. now left.
      * destruct i as [|i]; simpl in Hi.
        -- injection Hi as <-. left. rewrite Hm. simpl.
           apply elem_of_app. right. apply list_elem_of_singleton.
           do 2 f_equal. lia.
        -- right. exists i, l', g. repeat split; [assumption..|].
           do 2 f_equal. lia.
Qed.

(** The line numbers the loop adds grow strictly. *)
Lemma forEach_sorted (lines : list jsstring) (index : nat) (st : Acc) :
  StronglySorted lt (map line (acc_magicComments st)) ->
  Forall (fun mc => (line mc <= index)%nat) (acc_magicComments st) ->
  StronglySorted lt (map line (acc_magicComments (forEach lines index st))).
Proof.
  revert index st. induction lines as [|l lines IH]; intros index st Hs Hb; simpl.
  - assumption.
  - apply IH; unfold callback; destruct (magicMatch l) as [g|]; simpl.
    + rewrite map_app. simpl.
      clear IH. induction (acc_magicComments st) as [|m ms IHm]; simpl.
      * repeat constructor.
      * inversion Hs as [|? ? Hs' Hlt]; subst. inversion Hb as [|? ? Hm Hb']; subst.
        constructor; [now apply IHm|].
        apply Forall_app. split; [assumption|]. constructor; [simpl; lia|constructor].
    + assumption.
    + apply Forall_app. split.
      * eapply Forall_impl; [exact Hb|]. simpl. intros. lia.
      * constructor; [simpl; lia|constructor].
    + eapply Forall_impl; [exact Hb|]. simpl. intros. lia.
Qed.


(** C9: for every snippet, [processMagicComments] returns the snippet
    unchanged, character for character, and the list of magic
    comments is determined by the snippet alone: it holds exactly one
    entry for each line the annotation pattern matches, numbered from
    1 ([index + 1]) and carrying the trimmed text of the captured
    expression, in the order of the lines.  The function is total: it
    has a result on every input. *)
Theorem processMagicComments_leaves_code_unchanged (snippet : jsstring) :
  code (processMagicComments snippet) = snippet
  /\ (forall mc : MagicComment,
         mc ∈ magicComments (processMagicComments snippet) <->
         exists i l g, split snippet !! i = Some l /\ magicMatch l = Some g /\
                       mc = {| line := i + 1; expression := trim g |})
  /\ StronglySorted lt (map line (magicComments (processMagicComments snippet)))
  /\ Forall (fun mc => (1 <= line mc <= length (split snippet))%nat
                       /\ trim (expression mc) = expression mc)
       (magicComments (processMagicComments snippet)).
Proof.
  unfold processMagicComments. simpl.
  assert (Hchar : forall mc : MagicComment,
             mc ∈ acc_magicComments
                    (forEach (split snippet) 0
                       {| acc_magicComments := []; acc_processedLines := [] |}) <->
             exists i l g, split snippet !! i = Some l /\ magicMatch l = Some g /\
                           mc = {| line := i + 1; expression := trim g |}).
  { intros mc. rewrite forEach_magicComments. simpl. split.
    - intros [H|H]; [now apply elem_of_nil in H|exact H].
    - intros H. now right. }
  split; [|split; [|split]].
  - rewrite forEach_processedLines. simpl. apply join_split.
  - exact Hchar.
  - apply forEach_sorted; simpl; constructor.
  - apply Forall_forall. intros mc Hmc. apply Hchar in Hmc as (i & l & g & Hi & _ & ->).
    simpl. apply lookup_lt_Some in Hi. split; [lia|]. apply trim_idempotent.
Qed.

End MagicCommentFacts.

(** ** Regular expressions *)

Section RegexFacts.

(** A greedy run of one class, followed by a continuation that always
    accepts, consumes code units of the class only. *)
Lemma greedy_class {A} (m : matcher A) (p : char16 -> bool)
      (k : jsstring -> option jsstring -> option A)
      (n : nat) (s : jsstring) (cap : option jsstring) :
  (forall s cap k', m s cap k' = run (Class p) s cap k') ->
  (forall rest c, is_Some (k rest c)) ->
  (length s <= n)%nat ->
  exists pre rest,
    s = pre ++ rest /\ Forall (fun c => p c = true) pre /\
    greedy m k n s cap = k rest cap.
Proof.
  intros Hm Hk. revert s. induction n as [|n IH]; intros s Hn.
  - exists [], s. split; [reflexivity|split; [constructor|reflexivity]].
  - destruct s as [|c s].
    { exists [], []. split; [reflexivity|split; [constructor|]].
      simpl. now rewrite Hm. }
    simpl greedy. rewrite Hm. cbn [run]. destruct (p c) eqn:Hp.
    + assert (Hlt : (length s <? S (length s))%nat = true)
        by (apply Nat.ltb_lt; lia).
      rewrite Hlt. destruct (IH s) as (pre & rest & E & Hpre & Hg); [simpl in Hn; lia|].
      rewrite Hg. exists (c :: pre), rest.
      split; [simpl; congruence|split; [now constructor|]].
      destruct (Hk rest cap) as [a ->]. reflexivity.
    + exists [], (c :: s). split; [reflexivity|split; [constructor|reflexivity]].
Qed.

(** The value of a match comes from the continuation. *)
Lemma run_from_continuation {A} (r : regex) :
  forall (s : jsstring) (cap : option jsstring)
         (k : jsstring -> option jsstring -> option A) (a : A),
    run r s cap k = Some a -> exists rest cap', k rest cap' = Some a.
Proof.
  induction r as [|p|r1 IH1 r2 IH2|r1 IH1 r2 IH2|r IH|r IH|r IH|]; intros s cap k a H; simpl in H.
  - eauto.
  - destruct s as [|c s]; [discriminate|]. destruct (p c); [eauto|discriminate].
  - apply IH1 in H as (s1 & c1 & H). now apply IH2 in H.
  - destruct (run r1 s cap k) eqn:E.
    + injection H as ->. eauto.
    + eauto.
  - remember (length s) as n eqn:Hn. clear Hn. revert s cap H.
    induction n as [|n IHn]; intros s cap H; simpl in H; [eauto|].
    match type of H with match ?m with _ => _ end = _ => destruct m eqn:E end.
    + injection H as ->. apply IH in E as (s1 & c1 & E).
      destruct (length s1 <? length s)%nat; [eauto|discriminate].
    + eauto.
  - remember (length s) as n eqn:Hn. clear Hn. revert s cap H.
    induction n as [|n IHn]; intros s cap H; simpl in H.
    + destruct (k s cap) eqn:E; [injection H as ->; eauto|discriminate].
    + destruct (k s cap) eqn:E; [injection H as ->; eauto|].
      apply IH in H as (s1 & c1 & H).
      destruct (length s1 <? length s)%nat; [eauto|discriminate].
  - apply IH in H as (s1 & c1 & H). eauto.
  - destruct s; [eauto|discriminate].
Qed.

(** The text a match returns is a prefix of the input. *)
Lemma matchHere_whole (r : regex) (s : jsstring) (m : matched) :
  matchHere r s = Some m -> exists n, whole m = take n s.
Proof.
  unfold matchHere. intros H. apply run_from_continuation in H as (rest & cap & H).
  injection H as <-. simpl. eauto.
Qed.

(** A pattern that starts with a literal does not match an input that
    starts with another code unit. *)
Lemma matchHere_first (c x : char16) (r : regex) (s : jsstring) :
  x <> c -> matchHere (Cat (Lit1 c) r) (x :: s) = None.
Proof.
  intros Hx. unfold matchHere. simpl.
  destruct (char_eqb c x) eqn:E; [|reflexivity].
  apply char_eqb_eq in E. congruence.
Qed.

End RegexFacts.

(** ** The Auto-Log Transform *)

Section AutoLogFacts.

Import AutoLog.

Lemma trim_spaces_keeps_prefix (sp p t : jsstring) :
  Forall (fun c => isSpace c = true) sp ->
  noLeadingSpace p -> noLeadingSpace (rev p) -> p <> [] ->
  startsWith (trim (sp ++ p ++ t)) p = true.
Proof.
  intros Hsp H1 H2 Hne. unfold trim. rewrite trimStart_spaces_app by assumption.
  rewrite trimStart_id.
  - destruct (trimEnd_keeps_prefix p t H2 Hne) as [t' ->]. apply startsWith_app.
  - destruct p; [congruence|exact H1].
Qed.

Lemma elem_of_trimStart (x : char16) (s : jsstring) : x ∈ trimStart s -> x ∈ s.
Proof.
  destruct (trimStart_suffix s) as [p [E _]]. intros H. rewrite E.
  apply elem_of_app. now right.
Qed.

Lemma elem_of_trim (x : char16) (s : jsstring) : x ∈ trim s -> x ∈ s.
Proof.
  unfold trim. intros H. apply elem_of_trimStart.
  destruct (trimEnd_prefix (trimStart s)) as [q [E _]]. rewrite E.
  apply elem_of_app. now left.
Qed.

Lemma elem_of_replaceFirst (r : regex) (x : char16) (s : jsstring) :
  x ∈ replaceFirst r [] s -> x ∈ s.
Proof.
  induction s as [|c s IH]; simpl.
  - destruct (matchHere r []); simpl; [rewrite drop_nil|]; auto.
  - destruct (matchHere r (c :: s)); simpl.
    + intros H. eapply subseteq_drop, H.
    + intros H. apply elem_of_cons in H as [->|H]; [left|right; auto].
Qed.

(** Removing a trailing semicolon leaves a prefix without semicolon in
    place. *)
Lemma replaceFirst_keeps_prefix (p t : jsstring) :
  forallb (fun c => negb (char_eqb (ch ";") c)) p = true ->
  exists t', replaceFirst trailingSemicolon [] (p ++ t) = p ++ t'.
Proof.
  induction p as [|c p IH]; intros H; [eauto|].
  cbn [forallb] in H. apply andb_true_iff in H as [Hc H].
  apply negb_true_iff, char_eqb_neq in Hc.
  destruct (IH H) as [t' E]. exists t'.
  simpl app. simpl replaceFirst. unfold trailingSemicolon at 1.
  rewrite matchHere_first by congruence. now rewrite E.
Qed.

(** A line whose trimmed text starts with [p] still starts with [p]
    once the semicolon is removed and the text trimmed again. *)
Lemma prefix_kept (p l : jsstring) :
  p <> [] ->
  forallb (fun c => negb (char_eqb (ch ";") c)) p = true ->
  noLeadingSpace p -> noLeadingSpace (rev p) ->
  startsWith (trim l) p = true ->
  startsWith (withoutSemicolonOf l) p = true
  /\ startsWith (trim (withoutSemicolonOf l)) p = true.
Proof.
  intros Hne Hsemi H1 H2 H. unfold withoutSemicolonOf.
  apply startsWith_inv in H as [t ->].
  destruct (replaceFirst_keeps_prefix p t Hsemi) as [t' ->].
  split; [apply startsWith_app|].
  apply (trim_spaces_keeps_prefix [] p t'); auto.
Qed.

(** The indentation is a run of white space at the front of the line. *)
Lemma indentOf_spaces (l : jsstring) :
  Forall (fun c => isSpace c = true) (indentOf l) /\ exists rest, l = indentOf l ++ rest.
Proof.
  unfold indentOf, matchHere, leadingSpace, space. cbn [run].
  match goal with
  | |- context [greedy ?m ?k ?n ?s ?c] =>
      destruct (greedy_class m isSpace k n s c) as (pre & rest & E & Hpre & ->);
      [reflexivity|eauto|lia|]
  end.
  simpl. subst l. rewrite length_app.
  replace (length pre + length rest - length rest)%nat with (length pre) by lia.
  rewrite take_app_length. split; [assumption|]. now exists rest.
Qed.

Lemma elem_of_indentOf (x : char16) (l : jsstring) : x ∈ indentOf l -> x ∈ l.
Proof.
  destruct (indentOf_spaces l) as [_ [rest E]]. intros H. rewrite E.
  apply elem_of_app. now left.
Qed.

Lemma push_lines (st : Loop) (b : bool) (l : jsstring) :
  processedLines (push st b l) = processedLines st ++ [l].
Proof. reflexivity. Qed.

(** One turn of the JavaScript loop appends one line: the line read,
    or the line wrapped in [console.log]. *)
Lemma rewriteJS_appends (st : Loop) (l : jsstring) :
  exists o, processedLines (rewriteJS st l (trim l)) = processedLines st ++ [o]
            /\ rewritten JavaScript l o.
Proof.
  unfold rewriteJS, rewritten.
  fold (withoutSemicolonOf l).
  repeat match goal with
         | |- context [if ?b then _ else _] => destruct b eqn:?
         end; rewrite push_lines; eexists; (split; [reflexivity|]); auto.
Qed.

Lemma rewritePHP_appends (st : Loop) (l : jsstring) :
  exists o, processedLines (rewritePHP st l (trim l)) = processedLines st ++ [o]
            /\ rewritten PHP l o.
Proof.
  unfold rewritePHP, rewritten.
  fold (withoutSemicolonOf l).
  destruct (negb (hasAssignmentPHP (trim l)) && (braceDepth st <=? 0) && (parenDepth st <=? 0))%bool;
    [|eexists; split; [apply push_lines|auto]].
  destruct (testHere phpExpressionPattern (withoutSemicolonOf l)
            || testHere phpSimpleVarPattern (withoutSemicolonOf l))%bool eqn:Hlooks;
    [|eexists; split; [apply push_lines|auto]].
  simpl andb.
  destruct (0 <? len (withoutSemicolonOf l)); [|eexists; split; [apply push_lines|auto]].
  destruct (startsWithPHPOutput (trim (withoutSemicolonOf l)));
    [eexists; split; [apply push_lines|auto]|].
  destruct (testHere phpSimpleVarPattern (withoutSemicolonOf l));
    (eexists; split; [apply push_lines|]); right; (split; [reflexivity|]); auto.
Qed.

Lemma body_appends (lang : Language) (keywords : list jsstring)
      (rw : Loop -> jsstring -> jsstring -> Loop) :
  (forall st l, exists o, processedLines (rw st l (trim l)) = processedLines st ++ [o]
                          /\ rewritten lang l o) ->
  forall st l, exists o, processedLines (body keywords rw st l) = processedLines st ++ [o]
                         /\ rewritten lang l o.
Proof.
  intros Hrw st l. unfold body.
  repeat match goal with
         | |- context [if ?b then _ else _] => destruct b
         end; try (exists l; split; [reflexivity|now left]).
  destruct (Hrw (countDepths st l) l) as (o & E & R). exists o. split; [exact E|exact R].
Qed.

Lemma fold_appends (lang : Language) (step : Loop -> jsstring -> Loop) :
  (forall st l, exists o, processedLines (step st l) = processedLines st ++ [o]
                          /\ rewritten lang l o) ->
  forall lines st,
  exists outs, processedLines (fold_left step lines st) = processedLines st ++ outs
               /\ Forall2 (rewritten lang) lines outs.
Proof.
  intros Hstep lines. induction lines as [|l lines IH]; intros st; simpl.
  - exists []. split; [now rewrite app_nil_r|constructor].
  - destruct (Hstep st l) as (o & E & R).
    destruct (IH (step st l)) as (outs & E' & R').
    exists (o :: outs). split; [|now constructor].
    rewrite E', E, <- app_assoc. reflexivity.
Qed.

End AutoLogFacts.

Section AutoLogTheorem.

Import AutoLog.

Ltac not_in_literal H :=
  apply (bool_decide_eq_true_2 _) in H; vm_compute in H; discriminate H.

Lemma rewritten_no_NL (lang : Language) (l o : jsstring) :
  NL ∉ l -> rewritten lang l o -> NL ∉ o.
Proof.
  intros Hl [->|R]; [assumption|].
  assert (Hw : NL ∉ withoutSemicolonOf l).
  { intros H. apply Hl. unfold withoutSemicolonOf in H.
    now apply elem_of_replaceFirst, elem_of_trim in H. }
  assert (Hi : NL ∉ indentOf l).
  { intros H. apply Hl. now apply elem_of_indentOf in H. }
  destruct lang.
  - destruct R as [_ ->]. unfold wrappedJS. intros H.
    repeat (apply elem_of_app in H as [H|H]); try tauto; not_in_literal H.
  - destruct R as [_ [->| ->]]; unfold wrappedPHP; intros H;
      repeat (apply elem_of_app in H as [H|H]); try tauto; not_in_literal H.
Qed.

Lemma rewritten_all_no_NL (lang : Language) (ls os : list jsstring) :
  Forall2 (rewritten lang) ls os ->
  Forall (fun l => NL ∉ l) ls -> Forall (fun l => NL ∉ l) os.
Proof.
  induction 1 as [|l o ls os Rlo _ IH]; intros Hno; constructor;
    inversion Hno; subst; [eapply rewritten_no_NL; eassumption|now apply IH].
Qed.

(** The lines of the result, one for each line of the snippet. *)
Lemma autoLog_lines (lang : Language) (code : jsstring) :
  Forall2 (rewritten lang) (split code) (split (autoLog lang code)).
Proof.
  assert (Hrefl : Forall2 (rewritten lang) (split code) (split code)).
  { apply Forall2_same_length_lookup_2; [reflexivity|].
    intros i x y Hx Hy. left. congruence. }
  assert (Hgen : forall keywords rw,
             (forall st l, exists o, processedLines (rw st l (trim l)) = processedLines st ++ [o]
                                     /\ rewritten lang l o) ->
             Forall2 (rewritten lang) (split code)
               (split (join [NL] (processedLines
                                    (fold_left (body keywords rw) (split code) initial))))).
  { intros keywords rw Hrw.
    destruct (fold_appends lang (body keywords rw) (body_appends lang keywords rw Hrw)
                (split code) initial) as (outs & E & R).
    rewrite E. simpl app. rewrite split_join; [assumption| |].
    - destruct (split_cons_inv code) as (l & ls & Hs). rewrite Hs in R.
      inversion R. congruence.
    - eapply rewritten_all_no_NL; [exact R|apply split_lines_no_NL]. }
  destruct lang; unfold autoLog, autoLogExpressions, autoLogExpressionsPHP;
    destruct (negb (truthy code) || negb (truthy (trim code)))%bool; try exact Hrefl.
  - apply Hgen, rewriteJS_appends.
  - apply Hgen, rewritePHP_appends.
Qed.

Lemma startsWith_cons_inv (s p : jsstring) (c : char16) :
  startsWith s (c :: p) = true -> exists t, s = c :: t.
Proof. intros H. apply startsWith_inv in H as [t ->]. now exists (p ++ t). Qed.

(** A line that invokes the output call is not rewritten. *)
Lemma invokes_kept (lang : Language) (l o : jsstring) :
  invokesOutput lang l = true -> rewritten lang l o -> o = l.
Proof.
  intros Hinv [->|R]; [reflexivity|]. exfalso. destruct lang; simpl in Hinv.
  - destruct R as [Hno _]. unfold startsWithConsoleCall in Hinv, Hno.
    repeat (apply orb_false_iff in Hno as [Hno ?]).
    repeat (apply orb_true_iff in Hinv as [Hinv|Hinv]);
      (eapply prefix_kept in Hinv as [_ Hinv];
       [congruence|discriminate|reflexivity|reflexivity|reflexivity]).
  - destruct R as [Hlooks _]. unfold startsWithPHPOutput in Hinv.
    assert (Hfirst : exists c t, withoutSemicolonOf l = c :: t /\ c <> ch "$").
    { repeat (apply orb_true_iff in Hinv as [Hinv|Hinv]);
        (eapply prefix_kept in Hinv as [Hinv _];
         [|discriminate|reflexivity|reflexivity|reflexivity]);
        apply startsWith_cons_inv in Hinv as [t ->];
        eexists _, t; (split; [reflexivity|discriminate]). }
    destruct Hfirst as (c & t & E & Hc). rewrite E in Hlooks.
    unfold testHere, phpExpressionPattern, phpSimpleVarPattern in Hlooks.
    rewrite !matchHere_first in Hlooks by assumption. discriminate.
Qed.

(** A rewritten line invokes the output call. *)
Lemma wrapped_invokes (lang : Language) (l o : jsstring) :
  rewritten lang l o -> o <> l -> invokesOutput lang o = true.
Proof.
  intros [->|R] Hne; [congruence|]. destruct (indentOf_spaces l) as [Hsp _].
  destruct lang; simpl.
  - destruct R as [_ ->]. unfold wrappedJS, startsWithConsoleCall.
    change (U "console.log(") with (U "console.log" ++ U "(").
    rewrite <- (app_assoc (U "console.log")).
    rewrite trim_spaces_keeps_prefix; [reflexivity|assumption|reflexivity|reflexivity|discriminate].
  - destruct R as [_ [->| ->]]; unfold wrappedPHP, startsWithPHPOutput.
    + change (U "echo var_export(") with (U "echo" ++ U " var_export(").
      rewrite <- (app_assoc (U "echo")).
      rewrite trim_spaces_keeps_prefix; [reflexivity|assumption|reflexivity|reflexivity|discriminate].
    + change (U "echo print_r(") with (U "echo" ++ U " print_r(").
      rewrite <- (app_assoc (U "echo")).
      rewrite trim_spaces_keeps_prefix; [reflexivity|assumption|reflexivity|reflexivity|discriminate].
Qed.

(** C8: in JavaScript and in PHP, a line of the snippet that already
    invokes the language's output call (its trimmed text starts with
    [console.log], [console.error], [console.warn] or [console.info];
    with [echo], [print], [print_r], [var_dump] or [var_export]) is
    the same line of the result; and a line the transform did rewrite
    invokes the output call, so that applying the transform to its own
    result leaves that line as it is: no line is wrapped twice. *)
Theorem autoLog_never_wraps_output_calls
        (lang : Language) (code : jsstring) (i : nat) (l : jsstring) :
  split code !! i = Some l ->
  (invokesOutput lang l = true -> split (autoLog lang code) !! i = Some l)
  /\ (forall l', split (autoLog lang code) !! i = Some l' -> l' <> l ->
                 invokesOutput lang l' = true
                 /\ split (autoLog lang (autoLog lang code)) !! i = Some l').
Proof.
  intros Hl.
  assert (Hkept : forall c j x, split c !! j = Some x -> invokesOutput lang x = true ->
                                split (autoLog lang c) !! j = Some x).
  { intros c j x Hx Hinv.
    destruct (Forall2_lookup_l _ _ _ _ _ (autoLog_lines lang c) Hx) as (o & Ho & R).
    now rewrite (invokes_kept lang x o Hinv R) in Ho. }
  split; [now apply Hkept|].
  intros l' Hl' Hne.
  pose proof (Forall2_lookup_lr _ _ _ _ _ _ (autoLog_lines lang code) Hl Hl') as R.
  assert (Hinv : invokesOutput lang l' = true) by (eapply wrapped_invokes; eassumption).
  split; [assumption|]. now apply Hkept.
Qed.

End AutoLogTheorem.

(** ** The close, error and stop handlers *)

Section EngineFacts.

Import Engine.

Variable msgOf : jsstring -> jsstring.

Ltac handler_steps :=
  unfold closeJS, closePHP, errorJS, errorPHP, parseFailed, parse, bind, tryCatch,
    registry_delete, fs_unlink, resolve, console_error, ret, throw; simpl.

(** The close handler of [executeJavaScript] returns normally, calls
    [resolve] once, removes the registry entry and unlinks the script;
    what it resolves does not depend on the state it runs in. *)
Lemma closeJS_effect (stdout stderr : jsstring) :
  exists (v : value) (errs : list jsstring),
    (wellFormed v = true \/
     exists text, (sentinelPayloadJS stdout = Some text \/ jsonMatch stdout = Some text)
                  /\ JSON_parse text = Some v) /\
    forall (execId scriptPath : jsstring) (w : World),
      closeJS msgOf execId scriptPath stdout stderr w =
      (Normal tt,
       {| executionProcesses := delete execId (executionProcesses w);
          files := files w ∖ {[scriptPath]};
          signalled := signalled w;
          settled := settled w ++ [v];
          consoleErrors := consoleErrors w ++ errs |}).
Proof.
  destruct (sentinelPayloadJS stdout) as [jsonStr|] eqn:Epay.
  - destruct (JSON_parse jsonStr) as [v|] eqn:Ep.
    + exists v, []. split; [right; eauto|]. intros. handler_steps.
      rewrite Epay, Ep. simpl. now rewrite app_nil_r.
    + eexists _, [_]. split; [left|intros; handler_steps; rewrite Epay, Ep; reflexivity].
      reflexivity.
  - destruct (truthy stderr && negb (includes stdout JS_START))%bool eqn:Eerr.
    + eexists _, []. split; [left|intros; handler_steps; rewrite Epay, Eerr; simpl;
                                  now rewrite app_nil_r].
      reflexivity.
    + destruct (jsonMatch stdout) as [text|] eqn:Em.
      * destruct (JSON_parse text) as [v|] eqn:Ep.
        -- exists v, []. split; [right; eauto|]. intros. handler_steps.
           rewrite Epay, Eerr, Em, Ep. simpl. now rewrite app_nil_r.
        -- eexists _, [_]. split; [left|intros; handler_steps;
                                        rewrite Epay, Eerr, Em, Ep; reflexivity].
           reflexivity.
      * eexists _, []. split; [left|intros; handler_steps; rewrite Epay, Eerr, Em; simpl;
                                    now rewrite app_nil_r].
        reflexivity.
Qed.

(** The same for the close handler of [executePHP], which leaves the
    script in place when stderr mentions a parse error. *)
Lemma closePHP_effect (stdout stderr : jsstring) :
  exists (v : value) (errs : list jsstring),
    (wellFormed v = true \/
     exists text, (sentinelPayloadPHP stdout = Some text \/ jsonMatch stdout = Some text)
                  /\ JSON_parse text = Some v) /\
    forall (execId scriptPath : jsstring) (w : World),
      closePHP msgOf execId scriptPath stdout stderr w =
      (Normal tt,
       {| executionProcesses := delete execId (executionProcesses w);
          files := if (truthy stderr && includes stderr (U "Parse error"))%bool
                   then files w else files w ∖ {[scriptPath]};
          signalled := signalled w;
          settled := settled w ++ [v];
          consoleErrors := consoleErrors w ++ errs |}).
Proof.
  destruct (sentinelPayloadPHP stdout) as [jsonStr|] eqn:Epay.
  - destruct (JSON_parse jsonStr) as [v|] eqn:Ep.
    + exists v, []. split; [right; eauto|]. intros. handler_steps.
      rewrite Epay, Ep. destruct (truthy stderr && includes stderr (U "Parse error"))%bool;
        simpl; now rewrite app_nil_r.
    + eexists _, [_]. split; [left|intros; handler_steps; rewrite Epay, Ep;
                                    destruct (truthy stderr && includes stderr (U "Parse error"))%bool;
                                    reflexivity].
      reflexivity.
  - destruct (truthy stderr && negb (includes stdout PHP_START))%bool eqn:Eerr.
    + eexists _, []. split; [left|intros; handler_steps; rewrite Epay, Eerr;
                                  destruct (truthy stderr && includes stderr (U "Parse error"))%bool;
                                  simpl; now rewrite app_nil_r].
      reflexivity.
    + destruct (jsonMatch stdout) as [text|] eqn:Em.
      * destruct (JSON_parse text) as [v|] eqn:Ep.
        -- exists v, []. split; [right; eauto|]. intros. handler_steps.
           rewrite Epay, Eerr, Em, Ep.
           destruct (truthy stderr && includes stderr (U "Parse error"))%bool;
             simpl; now rewrite app_nil_r.
        -- eexists _, []. split; [left|intros; handler_steps; rewrite Epay, Eerr, Em, Ep;
                                      destruct (truthy stderr && includes stderr (U "Parse error"))%bool;
                                      simpl; now rewrite app_nil_r].
           reflexivity.
      * destruct (truthy (trim stdout)) eqn:Eout; [|destruct (truthy (trim stderr)) eqn:Eerr2];
          (eexists _, []; split; [left|intros; handler_steps; rewrite Epay, Eerr, Em, Eout, ?Eerr2;
                                   destruct (truthy stderr && includes stderr (U "Parse error"))%bool;
                                   simpl; now rewrite app_nil_r]; reflexivity).
Qed.

End EngineFacts.

Section ResultProtocol.

Import Engine Samples.

(** C1, as amended: for every pair of accumulated stdout and stderr
    strings, in any state, the close handlers of [executeJavaScript]
    and of [executePHP] return without raising and call [resolve]
    exactly once.  When the text cut out between the sentinels is
    accepted by [JSON.parse], what they resolve is the parsed value as
    it is, whatever its shape; so it is with the text from the first
    to the last brace, when no text is found between sentinels and
    the stderr rung does not apply.  In every other case what they
    resolve is a well-formed ExecutionResult. *)
Theorem close_handlers_resolve_exactly_once
        (msgOf : jsstring -> jsstring) (execId scriptPath stdout stderr : jsstring) (w : World) :
  (exists (v : value) (w' : World),
      closeJS msgOf execId scriptPath stdout stderr w = (Normal tt, w')
      /\ settled w' = settled w ++ [v]
      /\ (forall text parsed,
             sentinelPayloadJS stdout = Some text -> JSON_parse text = Some parsed ->
             v = parsed)
      /\ (forall text parsed,
             sentinelPayloadJS stdout = None ->
             (truthy stderr && negb (includes stdout JS_START))%bool = false ->
             jsonMatch stdout = Some text -> JSON_parse text = Some parsed ->
             v = parsed)
      /\ (wellFormed v = true
          \/ (exists text, sentinelPayloadJS stdout = Some text /\ JSON_parse text = Some v)
          \/ (exists text,
                 sentinelPayloadJS stdout = None
                 /\ (truthy stderr && negb (includes stdout JS_START))%bool = false
                 /\ jsonMatch stdout = Some text /\ JSON_parse text = Some v)))
  /\ (exists (v : value) (w' : World),
         closePHP msgOf execId scriptPath stdout stderr w = (Normal tt, w')
         /\ settled w' = settled w ++ [v]
         /\ (forall text parsed,
                sentinelPayloadPHP stdout = Some text -> JSON_parse text = Some parsed ->
                v = parsed)
         /\ (forall text parsed,
                sentinelPayloadPHP stdout = None ->
                (truthy stderr && negb (includes stdout PHP_START))%bool = false ->
                jsonMatch stdout = Some text -> JSON_parse text = Some parsed ->
                v = parsed)
         /\ (wellFormed v = true
             \/ (exists text, sentinelPayloadPHP stdout = Some text /\ JSON_parse text = Some v)
             \/ (exists text,
                    sentinelPayloadPHP stdout = None
                    /\ (truthy stderr && negb (includes stdout PHP_START))%bool = false
                    /\ jsonMatch stdout = Some text /\ JSON_parse text = Some v))).
Proof.
  split.
  - unfold closeJS, parseFailed, parse, bind, tryCatch, registry_delete, fs_unlink, resolve,
      console_error, ret, throw.
    destruct (sentinelPayloadJS stdout) as [text|] eqn:Epay;
      [destruct (JSON_parse text) as [p|] eqn:Ep
      |destruct (truthy stderr && negb (includes stdout JS_START))%bool eqn:Erung;
       [|destruct (jsonMatch stdout) as [text|] eqn:Em;
         [destruct (JSON_parse text) as [p|] eqn:Ep|]]];
      cbn [settled]; eexists; eexists; (split; [reflexivity|]); (split; [reflexivity|]);
      (split; [intros t q Ht Hq; congruence|]);
      (split; [intros t q Ht Hr Hm Hq; congruence|]);
      first [left; reflexivity | right; left; solve [eauto] | right; right; solve [eauto 10]].
  - unfold closePHP, parseFailed, parse, bind, tryCatch, registry_delete, fs_unlink, resolve,
      console_error, ret, throw.
    destruct (negb (truthy stderr && includes stderr (U "Parse error")));
      (destruct (sentinelPayloadPHP stdout) as [text|] eqn:Epay;
       [destruct (JSON_parse text) as [p|] eqn:Ep
       |destruct (truthy stderr && negb (includes stdout PHP_START))%bool eqn:Erung;
        [|destruct (jsonMatch stdout) as [text|] eqn:Em;
          [destruct (JSON_parse text) as [p|] eqn:Ep
          |destruct (truthy (trim stdout)); [|destruct (truthy (trim stderr))]]]]);
      cbn [settled]; eexists; eexists; (split; [reflexivity|]); (split; [reflexivity|]);
      (split; [intros t q Ht Hq; congruence|]);
      (split; [intros t q Ht Hr Hm Hq; congruence|]);
      first [left; reflexivity | right; left; solve [eauto] | right; right; solve [eauto 10]].
Qed.

(** The payload written before the process was signalled, between the
    JavaScript sentinels: it is accepted, and resolved as it is. *)
Lemma close_handlers_resolve_exactly_once_witness :
  sentinelPayloadJS stdoutPayloadJS = Some payloadText
  /\ JSON_parse payloadText = Some payloadValue
  /\ settled (closeJS unexpectedToken (execIdOf 17) (scriptPathJS (U "/tmp") (execIdOf 17))
                stdoutPayloadJS [] tracked).2 = settled tracked ++ [payloadValue].
Proof.
  assert (Hpay : sentinelPayloadJS stdoutPayloadJS = Some payloadText)
    by (vm_compute; reflexivity).
  assert (Hparse : JSON_parse payloadText = Some payloadValue) by (vm_compute; reflexivity).
  split; [exact Hpay|]. split; [exact Hparse|].
  destruct (close_handlers_resolve_exactly_once unexpectedToken (execIdOf 17)
              (scriptPathJS (U "/tmp") (execIdOf 17)) stdoutPayloadJS [] tracked)
    as [(v & w' & E & Hs & Hsent & _) _].
  rewrite E. cbn [snd]. rewrite Hs, (Hsent payloadText payloadValue Hpay Hparse). reflexivity.
Defined.

(** C1 as stated fails: a payload that is valid JSON but no object is
    resolved as it is.  The number 42 between the JavaScript
    sentinels, and the array [[1]] between the PHP sentinels, reach
    the caller, and neither is an ExecutionResult. *)
Lemma close_handlers_resolve_unvalidated_payload :
  settled (closeJS unexpectedToken (execIdOf 17) (scriptPathJS (U "/tmp") (execIdOf 17))
             stdoutNumberJS [] tracked).2 = [VNumber (U "42")]
  /\ wellFormed (VNumber (U "42")) = false
  /\ settled (closePHP unexpectedToken (execIdOf 17) (scriptPathPHP (U "/tmp") (execIdOf 17))
                stdoutArrayPHP [] tracked).2 = [VArray [VNumber (U "1")]]
  /\ wellFormed (VArray [VNumber (U "1")]) = false.
Proof. repeat split; vm_compute; reflexivity. Qed.

End ResultProtocol.

Section LifecycleFacts.

Import Engine Samples.

Lemma indexOf_go_found (a p b : jsstring) (i : Z) :
  0 <= i -> 0 <= indexOf_go (a ++ p ++ b) p i.
Proof.
  revert i. induction a as [|c a IH]; intros i Hi.
  - simpl app. pose proof (startsWith_app p b) as Hs.
    destruct (p ++ b); simpl; now rewrite Hs.
  - simpl. destruct (startsWith (c :: a ++ p ++ b) p); [assumption|].
    apply IH. lia.
Qed.

(** A text includes each of its parts. *)
Lemma includes_part (a p b : jsstring) : includes (a ++ p ++ b) p = true.
Proof.
  unfold includes, indexOf, clamp.
  assert (H0 : Z.max 0 (Z.min 0 (len (a ++ p ++ b))) = 0) by (unfold len; lia).
  rewrite H0. change (drop (Z.to_nat 0) (a ++ p ++ b)) with (a ++ p ++ b).
  pose proof (indexOf_go_found a p b 0 ltac:(lia)) as H.
  destruct (indexOf_go (a ++ p ++ b) p 0 =? -1) eqn:E; [|reflexivity].
  apply Z.eqb_eq in E. lia.
Qed.

(** The stop handler signals every tracked child and clears the
    registry. *)
Lemma stopExecution_signals (w : World) (execId : jsstring) (child : Child) :
  executionProcesses w !! execId = Some child ->
  child ∈ signalled (stopExecution w).2 /\ executionProcesses (stopExecution w).2 = ∅.
Proof.
  intros H. simpl. split; [|reflexivity].
  apply elem_of_union. right. apply elem_of_list_to_set, list_elem_of_In.
  change child with (snd (execId, child)). apply in_map, list_elem_of_In.
  now apply elem_of_map_to_list.
Qed.

Lemma U_inj (a b : string) : U a = U b -> a = b.
Proof.
  unfold U. intros H.
  rewrite <- (string_of_list_ascii_of_string a), <- (string_of_list_ascii_of_string b).
  f_equal. revert H. generalize (list_ascii_of_string a) (list_ascii_of_string b).
  intros x. induction x as [|c x IH]; intros [|d y] H; simpl in H; try discriminate; [reflexivity|].
  injection H as Hc H. unfold ch in Hc.
  rewrite <- (ascii_N_embedding c), <- (ascii_N_embedding d), Hc. f_equal. now apply IH.
Qed.

(** Clock readings that differ give execution identifiers that differ. *)
Lemma execIdOf_inj (now1 now2 : Z) : execIdOf now1 = execIdOf now2 -> now1 = now2.
Proof. unfold execIdOf. intros H. apply U_inj in H. now apply (inj pretty) in H. Qed.

End LifecycleFacts.

Section Lifecycle.

Import Engine Samples.

(** C2, as amended: the stop handler sends the signal to every tracked
    child and clears the registry, and that is all it does: nothing
    marks the execution as cancelled.  When the close event of a
    signalled child arrives, the close handler (of [executeJavaScript]
    as of [executePHP]) parses what was accumulated and resolves the
    caller's promise with the very result it resolves for a child that
    was never signalled; deleting the entry of the cleared registry
    changes nothing. *)
Theorem stop_execution_does_not_discard_results
        (msgOf : jsstring -> jsstring) (execId scriptPath stdout stderr : jsstring)
        (child : Child) (w : World) :
  executionProcesses w !! execId = Some child ->
  child ∈ signalled (stopExecution w).2
  /\ executionProcesses (stopExecution w).2 = ∅
  /\ (exists v : value,
         settled (closeJS msgOf execId scriptPath stdout stderr w).2 = settled w ++ [v]
         /\ settled (closeJS msgOf execId scriptPath stdout stderr (stopExecution w).2).2
            = settled w ++ [v]
         /\ executionProcesses
              (closeJS msgOf execId scriptPath stdout stderr (stopExecution w).2).2 = ∅)
  /\ (exists v : value,
         settled (closePHP msgOf execId scriptPath stdout stderr w).2 = settled w ++ [v]
         /\ settled (closePHP msgOf execId scriptPath stdout stderr (stopExecution w).2).2
            = settled w ++ [v]
         /\ executionProcesses
              (closePHP msgOf execId scriptPath stdout stderr (stopExecution w).2).2 = ∅).
Proof.
  intros Htracked.
  destruct (stopExecution_signals w execId child Htracked) as [Hsig Hreg].
  split; [exact Hsig|]. split; [exact Hreg|]. split.
  - destruct (closeJS_effect msgOf stdout stderr) as (v & errs & _ & E).
    exists v. rewrite !E. simpl. repeat split; apply delete_empty.
  - destruct (closePHP_effect msgOf stdout stderr) as (v & errs & _ & E).
    exists v. rewrite !E. simpl. repeat split; apply delete_empty.
Qed.

(** The tracked execution of the samples, stopped and then closed with a
    payload in stdout. *)
Lemma stop_execution_does_not_discard_results_witness :
  executionProcesses tracked !! execIdOf 17 = Some 7%positive
  /\ 7%positive ∈ signalled (stopExecution tracked).2
  /\ executionProcesses (stopExecution tracked).2 = ∅
  /\ exists v : value,
       settled (closeJS unexpectedToken (execIdOf 17) (scriptPathJS (U "/tmp") (execIdOf 17))
                  stdoutPayloadJS [] (stopExecution tracked).2).2 = settled tracked ++ [v].
Proof.
  assert (H : executionProcesses tracked !! execIdOf 17 = Some 7%positive)
    by (vm_compute; reflexivity).
  split; [exact H|].
  destruct (stop_execution_does_not_discard_results unexpectedToken (execIdOf 17)
              (scriptPathJS (U "/tmp") (execIdOf 17)) stdoutPayloadJS [] 7%positive tracked H)
    as (Hsig & Hreg & (v & _ & Hv & _) & _).
  split; [exact Hsig|]. split; [exact Hreg|]. exists v. exact Hv.
Defined.

(** C2 as stated fails: the child tracked under the identifier of clock
    reading 17 is signalled by the stop handler, its payload arrives
    with the close event, and the close handler resolves that payload to
    the caller. *)
Lemma cancelled_execution_still_delivers_payload :
  executionProcesses tracked !! execIdOf 17 = Some 7%positive
  /\ bool_decide (7%positive ∈ signalled (stopExecution tracked).2) = true
  /\ settled (closeJS unexpectedToken (execIdOf 17) (scriptPathJS (U "/tmp") (execIdOf 17))
                stdoutPayloadJS [] (stopExecution tracked).2).2 = [payloadValue].
Proof. repeat split; vm_compute; reflexivity. Qed.

(** C4, as amended: in the close handler of [executePHP], when no
    sentinel-delimited payload is found, stderr is empty or stdout
    mentions the start sentinel, stdout holds no brace-delimited text
    and the trimmed stdout is not empty, the handler resolves an
    ExecutionResult whose output list is the one log entry holding the
    trimmed stdout, with a null error. *)
Theorem closePHP_synthesizes_log_entry
        (msgOf : jsstring -> jsstring) (execId scriptPath stdout stderr : jsstring) (w : World) :
  sentinelPayloadPHP stdout = None ->
  (truthy stderr && negb (includes stdout PHP_START))%bool = false ->
  jsonMatch stdout = None ->
  truthy (trim stdout) = true ->
  exists w' : World,
    closePHP msgOf execId scriptPath stdout stderr w = (Normal tt, w')
    /\ settled w' = settled w ++
                    [VObject [(U "output", VArray [logEntry (U "log") (trim stdout)]);
                              (U "error", VNull);
                              (U "value", VUndefined);
                              (U "magicComments", VArray [])]].
Proof.
  intros Hpay Herr Hmatch Hout.
  unfold closePHP, bind, tryCatch, registry_delete, fs_unlink, resolve, ret.
  rewrite Hpay, Herr, Hmatch, Hout.
  destruct (negb (truthy stderr && includes stderr (U "Parse error")));
    eexists; (split; [reflexivity|reflexivity]).
Qed.

(** stdout [ hello ] and an empty stderr. *)
Lemma closePHP_synthesizes_log_entry_witness :
  exists w' : World,
    closePHP unexpectedToken (execIdOf 17) (scriptPathPHP (U "/tmp") (execIdOf 17))
      (U " hello ") [] tracked = (Normal tt, w')
    /\ settled w' = [VObject [(U "output", VArray [logEntry (U "log") (U "hello")]);
                              (U "error", VNull);
                              (U "value", VUndefined);
                              (U "magicComments", VArray [])]].
Proof.
  apply (closePHP_synthesizes_log_entry unexpectedToken (execIdOf 17)
           (scriptPathPHP (U "/tmp") (execIdOf 17)) (U " hello ") [] tracked);
    vm_compute; reflexivity.
Defined.

(** C4 as stated fails in both handlers.  With stdout [hello] nothing
    can be parsed and stdout has content; the JavaScript handler then
    resolves an empty output list, and the PHP handler, when stderr is
    not empty, resolves stderr as the error, with an empty output list
    as well. *)
Lemma raw_stdout_is_not_always_synthesized :
  sentinelPayloadJS (U "hello") = None
  /\ sentinelPayloadPHP (U "hello") = None
  /\ jsonMatch (U "hello") = None
  /\ truthy (trim (U "hello")) = true
  /\ settled (closeJS unexpectedToken (execIdOf 17) (scriptPathJS (U "/tmp") (execIdOf 17))
                (U "hello") [] tracked).2
     = [executionResult (VArray []) VNull VUndefined]
  /\ settled (closePHP unexpectedToken (execIdOf 17) (scriptPathPHP (U "/tmp") (execIdOf 17))
                (U "hello") (U "boom") tracked).2
     = [executionResult (VArray []) (errorOf (U "boom")) VUndefined].
Proof. repeat split; vm_compute; reflexivity. Qed.

(** C5, as amended: when the close event arrives, the handler of
    [executeJavaScript] unlinks the temporary script whatever stderr
    holds, and the handler of [executePHP] unlinks it unless stderr
    contains [Parse error], in which case the files are left as they
    are. *)
Theorem close_handlers_unlink_script
        (msgOf : jsstring -> jsstring) (execId scriptPath stdout stderr : jsstring) (w : World) :
  files (closeJS msgOf execId scriptPath stdout stderr w).2 = files w ∖ {[scriptPath]}
  /\ (scriptPath ∉ files (closeJS msgOf execId scriptPath stdout stderr w).2)
  /\ (files (closePHP msgOf execId scriptPath stdout stderr w).2
      = if includes stderr (U "Parse error") then files w else files w ∖ {[scriptPath]})
  /\ (includes stderr (U "Parse error") = false ->
      scriptPath ∉ files (closePHP msgOf execId scriptPath stdout stderr w).2).
Proof.
  destruct (closeJS_effect msgOf stdout stderr) as (v & errs & _ & E).
  destruct (closePHP_effect msgOf stdout stderr) as (v' & errs' & _ & E').
  rewrite E, E'. simpl.
  assert (Hinc : (truthy stderr && includes stderr (U "Parse error"))%bool
                 = includes stderr (U "Parse error")).
  { destruct stderr; [reflexivity|]. reflexivity. }
  assert (Hgone : scriptPath ∉ files w ∖ {[scriptPath]}).
  { intros H. apply elem_of_difference in H as [_ H]. apply H, elem_of_singleton.
    reflexivity. }
  rewrite Hinc. repeat split; [exact Hgone|]. intros ->. exact Hgone.
Qed.

(** C5 as stated fails for the JavaScript handler: with [Parse error]
    in stderr the script that was on disk is unlinked all the same. *)
Lemma closeJS_unlinks_despite_parse_marker :
  includes (U "Parse error: syntax error") (U "Parse error") = true
  /\ bool_decide (scriptPathJS (U "/tmp") (execIdOf 17) ∈ files tracked) = true
  /\ bool_decide (scriptPathJS (U "/tmp") (execIdOf 17)
                  ∈ files (closeJS unexpectedToken (execIdOf 17)
                             (scriptPathJS (U "/tmp") (execIdOf 17))
                             [] (U "Parse error: syntax error") tracked).2) = false.
Proof. repeat split; vm_compute; reflexivity. Qed.

End Lifecycle.

Section SpawnAndIdentifiers.

Import AutoLog Engine Executions Samples.

Lemma gone_after_unlink (path : jsstring) (fs : gset jsstring) : path ∉ fs ∖ {[path]}.
Proof.
  intros H. apply elem_of_difference in H as [_ H]. apply H, elem_of_singleton. reflexivity.
Qed.

(** The message a failed spawn of [executable] is reported with names
    [executable]. *)
Lemma spawn_message_names_executable (notFound executable code : jsstring) :
  includes (if bool_decide (err_code (spawnFailure executable code) = U "ENOENT")
            then notFound ++ [NL; NL] ++ U "Tried: " ++ executable
            else err_message (spawnFailure executable code)) executable = true.
Proof.
  destruct (bool_decide _).
  - replace (notFound ++ [NL; NL] ++ U "Tried: " ++ executable)
      with ((notFound ++ [NL; NL] ++ U "Tried: ") ++ executable ++ [])
      by (rewrite app_nil_r, <- !app_assoc; reflexivity).
    apply includes_part.
  - unfold spawnFailure, err_message. apply includes_part.
Qed.

(** C6: when the spawn of the interpreter fails (the child emits the
    error of a failed spawn, whatever its code: not found, not
    executable), the error handler of [executeJavaScript], as that of
    [executePHP], resolves once, with an ExecutionResult whose output
    list is empty, whose value is undefined and whose error message
    names the interpreter path that was tried; the temporary script is
    unlinked and the registry entry removed. *)
Theorem spawn_failure_resolves_diagnostic
        (execId scriptPath executable code : jsstring) (w : World) :
  (exists (message : jsstring) (w' : World),
      errorJS execId scriptPath executable (spawnFailure executable code) w = (Normal tt, w')
      /\ settled w' = settled w ++
                      [executionResult (VArray [])
                         (VObject [(U "message", VString message); (U "code", VString code)])
                         VUndefined]
      /\ wellFormed (executionResult (VArray [])
                       (VObject [(U "message", VString message); (U "code", VString code)])
                       VUndefined) = true
      /\ includes message executable = true
      /\ (scriptPath ∉ files w')
      /\ executionProcesses w' !! execId = None)
  /\ (exists (message : jsstring) (w' : World),
         errorPHP execId scriptPath executable (spawnFailure executable code) w = (Normal tt, w')
         /\ settled w' = settled w ++
                         [executionResult (VArray [])
                            (VObject [(U "message", VString message); (U "code", VString code)])
                            VUndefined]
         /\ wellFormed (executionResult (VArray [])
                          (VObject [(U "message", VString message); (U "code", VString code)])
                          VUndefined) = true
         /\ includes message executable = true
         /\ (scriptPath ∉ files w')
         /\ executionProcesses w' !! execId = None).
Proof.
  split;
    cbv beta iota zeta delta [errorJS errorPHP bind registry_delete fs_unlink resolve];
    eexists; eexists; (split; [reflexivity|]);
    cbn [settled files executionProcesses spawnFailed spawnFailure err_code];
    (split; [reflexivity|]); (split; [reflexivity|]);
    (split; [apply spawn_message_names_executable|]);
    (split; [apply gone_after_unlink|apply lookup_delete_eq]).
Qed.

Lemma scriptPath_inj (tmpdir pre suf id1 id2 : jsstring) :
  tmpdir ++ U "/" ++ pre ++ id1 ++ suf = tmpdir ++ U "/" ++ pre ++ id2 ++ suf -> id1 = id2.
Proof.
  intros H. do 3 apply app_inv_head in H. now apply app_inv_tail in H.
Qed.

(** C7, as amended: the execution identifier is the clock reading in
    milliseconds.  The script of a JavaScript execution and that of a
    PHP execution never share a path, whatever their identifiers.  Two
    executions whose clock readings differ, of whatever languages, get
    identifiers that differ and script paths that differ, so that the
    registry holds the handle of each and both scripts are on disk.
    Two executions started at the same reading share the identifier:
    the registry then keeps the later handle only, and when they are of
    the same language the two share the one script file. *)
Theorem distinct_clock_readings_give_distinct_identifiers
        (tmpdir : jsstring) (lang1 lang2 : Language) (now1 now2 : Z) (child1 child2 : Child)
        (w : World) :
  let started := (startOf lang2 tmpdir now2 child2 (startOf lang1 tmpdir now1 child1 w).2).2 in
  (forall id1 id2 : jsstring, scriptPathJS tmpdir id1 <> scriptPathPHP tmpdir id2)
  /\ (now1 <> now2 ->
      execIdOf now1 <> execIdOf now2
      /\ (forall la lb : Language,
             scriptPathOf la tmpdir (execIdOf now1) <> scriptPathOf lb tmpdir (execIdOf now2))
      /\ executionProcesses started !! execIdOf now1 = Some child1
      /\ executionProcesses started !! execIdOf now2 = Some child2
      /\ scriptPathOf lang1 tmpdir (execIdOf now1) ∈ files started
      /\ scriptPathOf lang2 tmpdir (execIdOf now2) ∈ files started)
  /\ (now1 = now2 ->
      (startOf lang1 tmpdir now1 child1 w).1 = Normal (execIdOf now2)
      /\ (startOf lang2 tmpdir now2 child2 (startOf lang1 tmpdir now1 child1 w).2).1
         = Normal (execIdOf now2)
      /\ executionProcesses started = <[execIdOf now2 := child2]> (executionProcesses w)
      /\ (lang1 = lang2 ->
          scriptPathOf lang1 tmpdir (execIdOf now1) = scriptPathOf lang2 tmpdir (execIdOf now2)
          /\ files started = files w ∪ {[scriptPathOf lang2 tmpdir (execIdOf now2)]})).
Proof.
  assert (Hcross : forall id1 id2 : jsstring,
             scriptPathJS tmpdir id1 <> scriptPathPHP tmpdir id2).
  { intros id1 id2 H. unfold scriptPathJS, scriptPathPHP, inTmpdir in H.
    do 2 apply app_inv_head in H. vm_compute in H. discriminate H. }
  assert (Hstart : forall lang now child w0,
             startOf lang tmpdir now child w0
             = (Normal (execIdOf now),
                {| executionProcesses := <[execIdOf now := child]> (executionProcesses w0);
                   files := files w0 ∪ {[scriptPathOf lang tmpdir (execIdOf now)]};
                   signalled := signalled w0; settled := settled w0;
                   consoleErrors := consoleErrors w0 |}))
    by (intros [] ? ? ?; reflexivity).
  cbv zeta. rewrite !Hstart. cbn [fst snd executionProcesses files].
  split; [exact Hcross|]. split.
  - intros Hne.
    assert (Hid : execIdOf now1 <> execIdOf now2)
      by (intros H; apply Hne; now apply execIdOf_inj).
    split; [exact Hid|]. split; [|split; [|split; [|split]]].
    + intros [] []; cbn [scriptPathOf]; intros H.
      * apply Hid. exact (scriptPath_inj _ _ _ _ _ H).
      * exact (Hcross _ _ H).
      * exact (Hcross _ _ (eq_sym H)).
      * apply Hid. exact (scriptPath_inj _ _ _ _ _ H).
    + rewrite lookup_insert_ne by congruence. apply lookup_insert_eq.
    + apply lookup_insert_eq.
    + apply elem_of_union_l, elem_of_union_r, elem_of_singleton. reflexivity.
    + apply elem_of_union_r, elem_of_singleton. reflexivity.
  - intros ->. split; [reflexivity|]. split; [reflexivity|]. split.
    + apply insert_insert_eq.
    + intros ->. split; [reflexivity|].
      apply set_eq. intros x. rewrite !elem_of_union. tauto.
Qed.

(** The clock readings 17 and 18, a JavaScript and a PHP execution;
    then two JavaScript executions at the reading 17. *)
Lemma distinct_clock_readings_give_distinct_identifiers_witness :
  17 <> 18
  /\ execIdOf 17 <> execIdOf 18
  /\ executionProcesses
       (startPHP (U "/tmp") 18 8%positive (startJS (U "/tmp") 17 7%positive idle).2).2
       !! execIdOf 17 = Some 7%positive
  /\ executionProcesses
       (startPHP (U "/tmp") 18 8%positive (startJS (U "/tmp") 17 7%positive idle).2).2
       !! execIdOf 18 = Some 8%positive
  /\ executionProcesses
       (startJS (U "/tmp") 17 8%positive (startJS (U "/tmp") 17 7%positive idle).2).2
     = <[execIdOf 17 := 8%positive]> (executionProcesses idle).
Proof.
  assert (H : 17 <> 18) by lia.
  split; [exact H|].
  destruct (distinct_clock_readings_give_distinct_identifiers (U "/tmp") JavaScript PHP 17 18
              7%positive 8%positive idle) as (_ & Hdiff & _).
  destruct (Hdiff H) as (Hid & _ & H1 & H2 & _).
  destruct (distinct_clock_readings_give_distinct_identifiers (U "/tmp") JavaScript JavaScript
              17 17 7%positive 8%positive idle) as (_ & _ & Hsame).
  destruct (Hsame eq_refl) as (_ & _ & H3 & _).
  split; [exact Hid|]. split; [exact H1|]. split; [exact H2|exact H3].
Defined.

(** C7 as stated fails: two executions started at the same clock
    reading, tracked as children 7 and 8, get the same execution
    identifier; the second registration replaces the handle of the
    first, and both scripts are the one file. *)
Lemma same_clock_reading_same_identifier :
  (startJS (U "/tmp") 17 7%positive idle).1 = Normal (execIdOf 17)
  /\ (startJS (U "/tmp") 17 8%positive (startJS (U "/tmp") 17 7%positive idle).2).1
     = Normal (execIdOf 17)
  /\ executionProcesses
       (startJS (U "/tmp") 17 8%positive (startJS (U "/tmp") 17 7%positive idle).2).2
       !! execIdOf 17 = Some 8%positive
  /\ size (executionProcesses
             (startJS (U "/tmp") 17 8%positive (startJS (U "/tmp") 17 7%positive idle).2).2)
     = 1%nat
  /\ size (files (startJS (U "/tmp") 17 8%positive (startJS (U "/tmp") 17 7%positive idle).2).2)
     = 1%nat.
Proof. repeat split; vm_compute; reflexivity. Qed.

End SpawnAndIdentifiers.

(** ** The generated harness *)

Section HarnessFacts.

Import MagicComments Harness.

Lemma filter_defined_idempotent (arguments : list argument) :
  filter (fun a => isDefined a = true) (filter (fun a => isDefined a = true) arguments)
  = filter (fun a => isDefined a = true) arguments.
Proof.
  induction arguments as [|a l IH]; [reflexivity|].
  rewrite filter_cons. destruct (decide (isDefined a = true)) as [Ha|Ha]; [|exact IH].
  rewrite filter_cons, decide_True by exact Ha. now rewrite IH.
Qed.

Lemma filter_all_undefined (arguments : list argument) :
  Forall (fun a => a = AUndefined) arguments ->
  filter (fun a => isDefined a = true) arguments = [].
Proof.
  induction 1 as [|a l Ha _ IH]; [reflexivity|].
  subst a. rewrite filter_cons, decide_False by discriminate. exact IH.
Qed.

(** C10: a call of a captured console method ([log], [warn], [error]
    or [info]) acts as the call with the undefined arguments left out:
    they take no part in the formatted text.  A call whose arguments
    are all undefined appends no entry and changes nothing, so
    [console.log(undefined)] contributes nothing to the output list;
    any other call appends one entry, the defined arguments formatted
    and joined by a space. *)
Theorem console_drops_undefined_arguments
        (m : method) (arguments : list argument) (c : Console) :
  console m arguments c = console m (filter (fun a => isDefined a = true) arguments) c
  /\ (Forall (fun a => a = AUndefined) arguments -> console m arguments c = c)
  /\ console m [AUndefined] c = c
  /\ (filter (fun a => isDefined a = true) arguments <> [] ->
      output (console m arguments c)
      = output c ++ [ {| type := methodName m;
                         args := join (U " ")
                                   (map safeStringify
                                      (filter (fun a => isDefined a = true) arguments)) |} ]).
Proof.
  split; [|split; [|split]].
  - unfold console. now rewrite filter_defined_idempotent.
  - intros Hall. unfold console. now rewrite (filter_all_undefined arguments Hall).
  - reflexivity.
  - intros Hne. unfold console.
    destruct (filter (fun a => isDefined a = true) arguments) as [|a l]; [congruence|].
    reflexivity.
Qed.

(** [console.log(undefined, undefined)] and
    [console.warn(undefined, 1, undefined, null)] on an empty buffer. *)
Lemma console_drops_undefined_arguments_witness :
  console log [AUndefined; AUndefined] {| output := []; forwarded := [] |}
  = {| output := []; forwarded := [] |}
  /\ output (console warn [AUndefined; APrimitive (U "1"); AUndefined; ANull]
               {| output := []; forwarded := [] |})
     = [ {| type := U "warn"; args := U "1 null" |} ].
Proof.
  destruct (console_drops_undefined_arguments log [AUndefined; AUndefined]
              {| output := []; forwarded := [] |}) as (_ & Hall & _ & _).
  destruct (console_drops_undefined_arguments warn
              [AUndefined; APrimitive (U "1"); AUndefined; ANull]
              {| output := []; forwarded := [] |}) as (_ & _ & _ & Hsome).
  split.
  - apply Hall. repeat constructor.
  - rewrite Hsome by discriminate. reflexivity.
Defined.


End HarnessFacts.

Section Witnesses.

Import AutoLog Engine Samples.

(** The second line of a two-line snippet is a [console.log] call. *)
Lemma autoLog_never_wraps_output_calls_witness :
  split (U "  x;" ++ [NL] ++ U "console.log(x);") !! 1%nat = Some (U "console.log(x);")
  /\ invokesOutput JavaScript (U "console.log(x);") = true
  /\ split (autoLog JavaScript (U "  x;" ++ [NL] ++ U "console.log(x);")) !! 1%nat
     = Some (U "console.log(x);").
Proof.
  assert (H : split (U "  x;" ++ [NL] ++ U "console.log(x);") !! 1%nat
              = Some (U "console.log(x);")) by (vm_compute; reflexivity).
  assert (Hinv : invokesOutput JavaScript (U "console.log(x);") = true)
    by (vm_compute; reflexivity).
  split; [exact H|]. split; [exact Hinv|].
  exact (proj1 (autoLog_never_wraps_output_calls JavaScript _ 1%nat _ H) Hinv).
Defined.

(** A PHP run whose stderr holds a warning and no parse error. *)
Lemma close_handlers_unlink_script_witness :
  includes (U "Warning: x") (U "Parse error") = false
  /\ (scriptPathPHP (U "/tmp") (execIdOf 17)
      ∉ files (closePHP unexpectedToken (execIdOf 17) (scriptPathPHP (U "/tmp") (execIdOf 17))
                 [] (U "Warning: x") tracked).2).
Proof.
  assert (H : includes (U "Warning: x") (U "Parse error") = false) by (vm_compute; reflexivity).
  split; [exact H|].
  destruct (close_handlers_unlink_script unexpectedToken (execIdOf 17)
              (scriptPathPHP (U "/tmp") (execIdOf 17)) [] (U "Warning: x") tracked)
    as (_ & _ & _ & Hphp).
  exact (Hphp H).
Defined.

End Witnesses.

(** ** Sample evaluations *)

Section SampleEvaluations.

Import MagicComments AutoLog Engine Harness Samples.

(** Two annotated lines and one line without annotation. *)
Example processMagicComments_sample :
  processMagicComments (U "let x = 1; // $x" ++ [NL] ++ U "y" ++ [NL] ++ U "// $ a.b  ")
  = {| code := U "let x = 1; // $x" ++ [NL] ++ U "y" ++ [NL] ++ U "// $ a.b  ";
       magicComments := [ {| line := 1; expression := U "x" |};
                          {| line := 3; expression := U "a.b" |} ] |}.
Proof. vm_compute. reflexivity. Qed.

(** A declaration, a bare name, a call chain, an output call and a line
    inside a block. *)
Example autoLogExpressions_sample :
  autoLogExpressions
    (U "const x = 1;" ++ [NL] ++ U "  x" ++ [NL] ++ U "x.y(1)[2];" ++ [NL]
       ++ U "console.log(x);" ++ [NL] ++ U "if (x) {" ++ [NL] ++ U "y" ++ [NL] ++ U "}")
  = U "const x = 1;" ++ [NL] ++ U "  console.log(x);" ++ [NL] ++ U "console.log(x.y(1)[2]);"
      ++ [NL] ++ U "console.log(x);" ++ [NL] ++ U "if (x) {" ++ [NL] ++ U "y" ++ [NL] ++ U "}".
Proof. vm_compute. reflexivity. Qed.

Example autoLogExpressionsPHP_sample :
  autoLogExpressionsPHP (U "$x = 1;" ++ [NL] ++ U "  $x;" ++ [NL] ++ U "$x->y(1);" ++ [NL] ++ U "echo $x;")
  = U "$x = 1;" ++ [NL]
      ++ U "  echo var_export($x, true) . " ++ [DQ] ++ U "\n" ++ [DQ] ++ U ";" ++ [NL]
      ++ U "echo print_r($x->y(1), true) . " ++ [DQ] ++ U "\n" ++ [DQ] ++ U ";" ++ [NL]
      ++ U "echo $x;".
Proof. vm_compute. reflexivity. Qed.

(** [JSON.parse] on an object with a repeated key, and on texts it
    rejects. *)
Example JSON_parse_sample :
  JSON_parse (U " {" ++ [DQ] ++ U "a" ++ [DQ] ++ U ": [1, -2.5e+3, true, null, {}], "
                ++ [DQ] ++ U "a" ++ [DQ] ++ U ":[[]] } ")
  = Some (VObject [(U "a", VArray [VArray []])])
  /\ JSON_parse (U "[1,]") = None
  /\ JSON_parse (U "01") = None
  /\ JSON_parse (U "1 2") = None
  /\ JSON_parse [] = None
  /\ JSON_parse payloadText = Some payloadValue.
Proof. repeat split; vm_compute; reflexivity. Qed.

(** The rungs of the two close handlers, on stdout and stderr of the
    tracked sample execution. *)
Example closeJS_sample :
  settled (closeJS unexpectedToken (execIdOf 17) (scriptPathJS (U "/tmp") (execIdOf 17))
             stdoutPayloadJS [] tracked).2 = [payloadValue]
  /\ settled (closeJS unexpectedToken (execIdOf 17) (scriptPathJS (U "/tmp") (execIdOf 17))
                [] (U "boom") tracked).2 = [failure (U "boom")]
  /\ settled (closeJS unexpectedToken (execIdOf 17) (scriptPathJS (U "/tmp") (execIdOf 17))
                (U "x " ++ payloadText ++ U " y") [] tracked).2 = [payloadValue]
  /\ settled (closeJS unexpectedToken (execIdOf 17) (scriptPathJS (U "/tmp") (execIdOf 17))
                (U "{oops}") [] tracked).2 = [failure (U "Unexpected token")]
  /\ settled (closeJS unexpectedToken (execIdOf 17) (scriptPathJS (U "/tmp") (execIdOf 17))
                [] [] tracked).2 = [executionResult (VArray []) VNull VUndefined].
Proof. repeat split; vm_compute; reflexivity. Qed.

Example closePHP_sample :
  settled (closePHP unexpectedToken (execIdOf 17) (scriptPathPHP (U "/tmp") (execIdOf 17))
             (PHP_START ++ U "  " ++ payloadText ++ U "  " ++ PHP_END) [] tracked).2
  = [payloadValue]
  /\ settled (closePHP unexpectedToken (execIdOf 17) (scriptPathPHP (U "/tmp") (execIdOf 17))
                (U "{oops}") [] tracked).2
     = [failure (U "Failed to parse execution result. Output: {oops}")]
  /\ settled (closePHP unexpectedToken (execIdOf 17) (scriptPathPHP (U "/tmp") (execIdOf 17))
                (U " ") (U " warn ") tracked).2 = [failure (U " warn ")]
  /\ settled (closePHP unexpectedToken (execIdOf 17) (scriptPathPHP (U "/tmp") (execIdOf 17))
                PHP_START (U " warn ") tracked).2 = [rawOutput PHP_START]
  /\ settled (closePHP unexpectedToken (execIdOf 17) (scriptPathPHP (U "/tmp") (execIdOf 17))
                [] [] tracked).2 = [failure (U "Execution returned no output.")].
Proof. repeat split; vm_compute; reflexivity. Qed.

(** The probes of a JavaScript run: a value and an error. *)
Example returnedResults_sample :
  returnedResults sampleInterpreter probeJS (ReachesEnd [])
    [ {| line := 1; expression := U "x" |}; {| line := 5; expression := U "y" |} ]
  = Some [ {| pr_line := 1; pr_expression := U "x"; pr_value := VNumber (U "41");
              pr_error := None |};
           {| pr_line := 5; pr_expression := U "y"; pr_value := VNull;
              pr_error := Some (U "y is not defined") |} ].
Proof. vm_compute. reflexivity. Qed.

(** An object probed twice is written once: the second entry carries
    the text the serializer puts in its place. *)
Example returnedResults_shared_object :
  returnedResults sharedObject probeJS (ReachesEnd [])
    [ {| line := 1; expression := U "u" |}; {| line := 2; expression := U "u" |} ]
  = Some [ {| pr_line := 1; pr_expression := U "u"; pr_value := VObject [];
              pr_error := None |};
           {| pr_line := 2; pr_expression := U "u"; pr_value := VString (U "[Circular]");
              pr_error := None |} ].
Proof. vm_compute. reflexivity. Qed.

(** A PHP probe that raises an [Error] loses the entries pushed before
    it: the outer [catch] writes an empty list. *)
Example returnedResults_error_escapes :
  returnedResults outsideObjectContext probePHP (ReachesEnd [])
    [ {| line := 1; expression := U "total" |}; {| line := 2; expression := U "this" |} ]
  = Some [].
Proof. vm_compute. reflexivity. Qed.

(** A script the interpreter rejects returns no list. *)
Example returnedResults_no_parse :
  returnedResults sampleInterpreter probeJS DoesNotParse
    [ {| line := 1; expression := U "x +" |} ] = None.
Proof. reflexivity. Qed.

End SampleEvaluations.

(** ** [JSON.parse]: the fuel is enough *)

Section JsonFuel.

Lemma skipWs_length (s : jsstring) : (length (skipWs s) <= length s)%nat.
Proof.
  induction s as [|c s IH]; simpl; [lia|]. destruct (isJsonSpace c); simpl; lia.
Qed.

Lemma skipWs_cons_length (s : jsstring) (c : char16) (r : jsstring) :
  skipWs s = c :: r -> (length r < length s)%nat.
Proof. intros H. pose proof (skipWs_length s) as Hl. rewrite H in Hl. simpl in Hl. lia. Qed.

Lemma digits_length (s d r : jsstring) : digits s = (d, r) -> (length r <= length s)%nat.
Proof.
  revert d r. induction s as [|c s IH]; intros d r H; simpl in H.
  - injection H as <- <-. simpl. lia.
  - destruct (isDigit c).
    + destruct (digits s) as [d' r'] eqn:E. injection H as <- <-.
      specialize (IH _ _ eq_refl). simpl. lia.
    + injection H as <- <-. simpl. lia.
Qed.

Lemma digits_cons_length (c : char16) (s d r : jsstring) :
  isDigit c = true -> digits (c :: s) = (d, r) -> (length r <= length s)%nat.
Proof.
  intros Hc H. simpl in H. rewrite Hc in H.
  destruct (digits s) as [d' r'] eqn:E. injection H as <- <-.
  now apply digits_length in E.
Qed.

Lemma parseChars_length (n : nat) :
  forall (s acc str r : jsstring),
    (length s <= n)%nat -> parseChars s acc = Some (str, r) -> (length r < length s)%nat.
Proof.
  induction n as [|n IH]; intros s acc str r Hn H.
  - destruct s; [discriminate|simpl in Hn; lia].
  - destruct s as [|c s]; [discriminate|]. simpl in Hn. simpl in H.
    destruct (N.eqb c 34); [injection H as <- <-; simpl; lia|].
    destruct (N.eqb c 92).
    + destruct s as [|e r1]; [discriminate|].
      destruct (N.eqb e 117).
      * destruct r1 as [|h1 [|h2 [|h3 [|h4 r2]]]]; try discriminate.
        destruct (hex4 h1 h2 h3 h4); [|discriminate].
        apply IH in H; simpl in *; lia.
      * destruct (simpleEscape e); [|discriminate].
        apply IH in H; simpl in *; lia.
    + destruct (c <? 32)%N; [discriminate|].
      apply IH in H; simpl in *; lia.
Qed.

Lemma parseNumber_length (s lit r : jsstring) :
  parseNumber s = Some (lit, r) -> (length r < length s)%nat.
Proof.
  unfold parseNumber. intros H.
  repeat match goal with
         | H : context [match ?x with _ => _ end] |- _ => destruct x eqn:?; try discriminate
         end;
    simplify_eq;
    repeat match goal with
           | Hd : negb (isDigit _) = false |- _ => apply negb_false_iff in Hd
           end;
    repeat match goal with
           | E : digits (?c :: _) = (_, _), Hd : isDigit ?c = true |- _ =>
               apply (digits_cons_length _ _ _ _ Hd) in E
           | E : digits _ = (_, _) |- _ => apply digits_length in E
           end;
    simpl in *; lia.
Qed.

Ltac more_fuel m :=
  intros m ?; destruct m; [lia|]; cbn [parseValue parseElements parseMembers];
  repeat match goal with
         | E : ?x = _ |- context [match ?x with _ => _ end] => rewrite E
         | E : ?x = _ |- context [if ?x then _ else _] => rewrite E
         end.

(** A parse consumes input, and succeeds again with any fuel above the
    number of code units it consumed. *)
Lemma parse_fuel (n : nat) :
  (forall s v r,
      parseValue n s = Some (v, r) ->
      (length r < length s)%nat
      /\ forall m, (length s - length r < m)%nat -> parseValue m s = Some (v, r))
  /\ (forall s acc v r,
         parseElements n s acc = Some (v, r) ->
         (length r < length s)%nat
         /\ forall m, (length s - length r < m)%nat -> parseElements m s acc = Some (v, r))
  /\ (forall s acc v r,
         parseMembers n s acc = Some (v, r) ->
         (length r < length s)%nat
         /\ forall m, (length s - length r < m)%nat -> parseMembers m s acc = Some (v, r)).
Proof.
  induction n as [|n (IHV & IHE & IHM)]; [repeat split; discriminate|].
  split; [|split].
  - intros s v r H. cbn [parseValue] in H.
    destruct (skipWs s) as [|c r0] eqn:Es; [discriminate|].
    pose proof (skipWs_cons_length _ _ _ Es) as Hs.
    destruct (N.eqb c 123) eqn:E1.
    { destruct (skipWs r0) as [|c2 r2] eqn:Er; [discriminate|].
      pose proof (skipWs_cons_length _ _ _ Er) as Hr.
      destruct (N.eqb c2 125) eqn:E2.
      - injection H as <- <-. split; [lia|]. more_fuel m. reflexivity.
      - destruct (IHM _ _ _ _ H) as [Hl Hf]. split; [lia|]. more_fuel m. apply Hf. lia. }
    destruct (N.eqb c 91) eqn:E3.
    { destruct (skipWs r0) as [|c2 r2] eqn:Er; [discriminate|].
      pose proof (skipWs_cons_length _ _ _ Er) as Hr.
      destruct (N.eqb c2 93) eqn:E2.
      - injection H as <- <-. split; [lia|]. more_fuel m. reflexivity.
      - destruct (IHE _ _ _ _ H) as [Hl Hf]. split; [lia|]. more_fuel m. apply Hf. lia. }
    destruct (N.eqb c 34) eqn:E4.
    { destruct (parseChars r0 []) as [[str r2]|] eqn:Ec; [|discriminate].
      injection H as <- <-.
      pose proof (parseChars_length _ _ _ _ _ (le_n _) Ec) as Hc.
      split; [lia|]. more_fuel m. reflexivity. }
    destruct (startsWith (c :: r0) (U "true")) eqn:E5.
    { injection H as <- <-. split; [rewrite length_drop; simpl; lia|]. more_fuel m. reflexivity. }
    destruct (startsWith (c :: r0) (U "false")) eqn:E6.
    { injection H as <- <-. split; [rewrite length_drop; simpl; lia|]. more_fuel m. reflexivity. }
    destruct (startsWith (c :: r0) (U "null")) eqn:E7.
    { injection H as <- <-. split; [rewrite length_drop; simpl; lia|]. more_fuel m. reflexivity. }
    destruct (parseNumber (c :: r0)) as [[lit r2]|] eqn:En; [|discriminate].
    injection H as <- <-. pose proof (parseNumber_length _ _ _ En) as Hn. simpl in Hn.
    split; [lia|]. more_fuel m. reflexivity.
  - intros s acc v r H. cbn [parseElements] in H.
    destruct (parseValue n s) as [[v1 r1]|] eqn:Ev; [|discriminate].
    destruct (IHV _ _ _ Ev) as [Hl1 Hf1].
    destruct (skipWs r1) as [|c r2] eqn:Es; [discriminate|].
    pose proof (skipWs_cons_length _ _ _ Es) as Hs.
    destruct (N.eqb c 44) eqn:E1.
    { destruct (IHE _ _ _ _ H) as [Hl Hf]. split; [lia|].
      intros m Hm. destruct m; [lia|]. cbn [parseElements].
      rewrite (Hf1 m) by lia. rewrite Es, E1. apply Hf. lia. }
    destruct (N.eqb c 93) eqn:E2; [|discriminate].
    injection H as <- <-. split; [lia|].
    intros m Hm. destruct m; [lia|]. cbn [parseElements].
    rewrite (Hf1 m) by lia. rewrite Es, E1, E2. reflexivity.
  - intros s acc v r H. cbn [parseMembers] in H.
    destruct (skipWs s) as [|q r0] eqn:Es; [discriminate|].
    pose proof (skipWs_cons_length _ _ _ Es) as Hs.
    destruct (N.eqb q 34) eqn:Eq; [|discriminate].
    destruct (parseChars r0 []) as [[k r1]|] eqn:Ec; [|discriminate].
    pose proof (parseChars_length _ _ _ _ _ (le_n _) Ec) as Hc.
    destruct (skipWs r1) as [|colon r2] eqn:Es1; [discriminate|].
    pose proof (skipWs_cons_length _ _ _ Es1) as Hs1.
    destruct (N.eqb colon 58) eqn:Ecolon; [|discriminate].
    destruct (parseValue n r2) as [[v1 r3]|] eqn:Ev; [|discriminate].
    destruct (IHV _ _ _ Ev) as [Hl1 Hf1].
    destruct (skipWs r3) as [|c r4] eqn:Es2; [discriminate|].
    pose proof (skipWs_cons_length _ _ _ Es2) as Hs2.
    destruct (N.eqb c 44) eqn:E1.
    { destruct (IHM _ _ _ _ H) as [Hl Hf]. split; [lia|].
      intros m Hm. destruct m; [lia|]. cbn [parseMembers].
      rewrite Es, Eq, Ec, Es1, Ecolon. rewrite (Hf1 m) by lia.
      rewrite Es2, E1. apply Hf. lia. }
    destruct (N.eqb c 125) eqn:E2; [|discriminate].
    injection H as <- <-. split; [lia|].
    intros m Hm. destruct m; [lia|]. cbn [parseMembers].
    rewrite Es, Eq, Ec, Es1, Ecolon. rewrite (Hf1 m) by lia.
    rewrite Es2, E1, E2. reflexivity.
Qed.

(** Whatever fuel parses a text, [JSON_parse] parses it too: the fuel
    it gives is enough. *)
Lemma JSON_parse_fuel_enough (text : jsstring) (n : nat) (v : value) (rest : jsstring) :
  parseValue n text = Some (v, rest) -> skipWs rest = [] -> JSON_parse text = Some v.
Proof.
  intros H Hrest. unfold JSON_parse.
  destruct (parse_fuel n) as (HV & _ & _). destruct (HV _ _ _ H) as [_ Hf].
  rewrite (Hf (2 * length text + 2)%nat) by lia. now rewrite Hrest.
Qed.

End JsonFuel.

(** ** The payload frame: what the script writes is what the handler reads *)

Section FramingFacts.

Import Engine Protocol.

Lemma len_app (a b : jsstring) : len (a ++ b) = len a + len b.
Proof. unfold len. rewrite length_app. lia. Qed.

Lemma clamp_inside (s : jsstring) (i : Z) : 0 <= i <= len s -> clamp i s = i.
Proof. unfold clamp. lia. Qed.

Lemma startsWith_true (s p : jsstring) : startsWith s p = true <-> exists t, s = p ++ t.
Proof.
  split; [apply startsWith_inv|]. intros [t ->]. apply startsWith_app.
Qed.

(** [includes] fails only when the pattern starts nowhere. *)
Lemma indexOf_go_none (s p : jsstring) (i : Z) :
  0 <= i -> indexOf_go s p i = -1 ->
  forall k : nat, startsWith (drop k s) p = false.
Proof.
  revert i. induction s as [|c s IH]; intros i Hi H k.
  - rewrite drop_nil. simpl in H. destruct (startsWith [] p); [lia|reflexivity].
  - simpl in H. destruct (startsWith (c :: s) p) eqn:E; [lia|].
    destruct k as [|k]; [exact E|]. simpl. eapply IH; [|exact H]. lia.
Qed.

Lemma includes_false (s p : jsstring) :
  includes s p = false -> forall a b, s <> a ++ p ++ b.
Proof.
  intros H a b ->. rewrite includes_part in H. discriminate.
Qed.

(** The search finds the first place the pattern starts at. *)
Lemma indexOf_go_first (pre s p : jsstring) (i : Z) :
  (forall k : nat, (k < length pre)%nat -> startsWith (drop k (pre ++ s)) p = false) ->
  startsWith s p = true ->
  indexOf_go (pre ++ s) p i = i + len pre.
Proof.
  revert i. induction pre as [|c pre IH]; intros i Hno Hs.
  - simpl. destruct s; simpl; simpl in Hs; rewrite Hs; unfold len; simpl; lia.
  - simpl. pose proof (Hno 0%nat ltac:(simpl; lia)) as H0. simpl in H0. rewrite H0.
    rewrite IH; [unfold len; simpl length; lia| |exact Hs].
    intros k Hk. apply (Hno (S k)). simpl. lia.
Qed.

(** A pattern whose first code unit occurs nowhere else in it cannot
    start inside [pre] and run into a copy of itself that follows. *)
Lemma no_overlap_head (pre q rest : jsstring) (c : char16) :
  c ∉ q -> includes pre (c :: q) = false ->
  forall k : nat, (k < length pre)%nat ->
    startsWith (drop k (pre ++ (c :: q) ++ rest)) (c :: q) = false.
Proof.
  intros Hc Hpre k Hk.
  destruct (startsWith (drop k (pre ++ (c :: q) ++ rest)) (c :: q)) eqn:E; [|reflexivity].
  exfalso. apply startsWith_true in E as [t E].
  rewrite drop_app_le in E by lia.
  destruct (decide (length (c :: q) <= length (drop k pre))%nat) as [Hlong|Hshort].
  - apply (includes_false _ _ Hpre (take k pre) (drop (length (c :: q)) (drop k pre))).
    rewrite <- (take_drop k pre) at 1. f_equal.
    rewrite <- (take_drop (length (c :: q)) (drop k pre)) at 1. f_equal.
    apply (f_equal (take (length (c :: q)))) in E.
    rewrite take_app_le in E by exact Hlong.
    rewrite (take_app_length (c :: q) t) in E. exact E.
  - apply Hc.
    assert (Hb : (0 < length (drop k pre))%nat) by (rewrite length_drop; lia).
    assert (L : ((c :: q) ++ t) !! length (drop k pre) = Some c).
    { rewrite <- E. apply list_lookup_middle. reflexivity. }
    simpl in Hshort.
    destruct (length (drop k pre)) as [|n] eqn:En; [lia|]. simpl in L.
    apply lookup_app_Some in L as [L|[L _]]; [|lia].
    eapply list_elem_of_lookup_2. exact L.
Qed.

(** The same for a pattern whose last code unit occurs nowhere else in
    it. *)
Lemma no_overlap_last (pre q rest : jsstring) (c : char16) :
  c ∉ q -> includes pre (q ++ [c]) = false ->
  forall k : nat, (k < length pre)%nat ->
    startsWith (drop k (pre ++ (q ++ [c]) ++ rest)) (q ++ [c]) = false.
Proof.
  intros Hc Hpre k Hk.
  destruct (startsWith (drop k (pre ++ (q ++ [c]) ++ rest)) (q ++ [c])) eqn:E; [|reflexivity].
  exfalso. apply startsWith_true in E as [t E].
  rewrite drop_app_le in E by lia.
  destruct (decide (length (q ++ [c]) <= length (drop k pre))%nat) as [Hlong|Hshort].
  - apply (includes_false _ _ Hpre (take k pre) (drop (length (q ++ [c])) (drop k pre))).
    rewrite <- (take_drop k pre) at 1. f_equal.
    rewrite <- (take_drop (length (q ++ [c])) (drop k pre)) at 1. f_equal.
    apply (f_equal (take (length (q ++ [c])))) in E.
    rewrite take_app_le in E by exact Hlong.
    rewrite (take_app_length (q ++ [c]) t) in E. exact E.
  - apply Hc.
    assert (Hb : (0 < length (drop k pre))%nat) by (rewrite length_drop; lia).
    rewrite length_app in Hshort. simpl in Hshort.
    assert (L : (drop k pre ++ (q ++ [c]) ++ rest) !! length q = Some c).
    { rewrite E, <- (assoc_L (++) q [c] t). apply list_lookup_middle. reflexivity. }
    apply lookup_app_Some in L as [L|[_ L]].
    { apply lookup_lt_Some in L. lia. }
    rewrite <- (assoc_L (++) q [c] rest) in L.
    apply lookup_app_Some in L as [L|[L _]]; [|lia].
    eapply list_elem_of_lookup_2. exact L.
Qed.

Lemma indexOf_go_all_fail (s p : jsstring) (i : Z) :
  (forall k : nat, startsWith (drop k s) p = false) -> indexOf_go s p i = -1.
Proof.
  revert i. induction s as [|c s IH]; intros i H.
  - pose proof (H 0%nat) as H0. simpl in H0. simpl. now rewrite H0.
  - simpl. pose proof (H 0%nat) as H0. simpl in H0. rewrite H0.
    apply IH. intros k. apply (H (S k)).
Qed.

Lemma includes_false_iff (s p : jsstring) :
  includes s p = false <-> forall k : nat, startsWith (drop k s) p = false.
Proof.
  unfold includes, indexOf. rewrite clamp_inside by (unfold len; lia). simpl drop.
  rewrite negb_false_iff, Z.eqb_eq. split.
  - apply indexOf_go_none. lia.
  - apply indexOf_go_all_fail.
Qed.

Lemma includes_skip (a b q : jsstring) (c : char16) :
  c ∉ a -> includes b (c :: q) = false -> includes (a ++ b) (c :: q) = false.
Proof.
  rewrite !includes_false_iff. intros Ha Hb k.
  destruct (decide (k < length a)%nat) as [Hk|Hk].
  - rewrite drop_app_le by lia.
    destruct (drop k a) as [|x r] eqn:E.
    + apply (f_equal length) in E. rewrite length_drop in E. simpl in E. lia.
    + simpl. destruct (char_eqb c x) eqn:Ex; [|reflexivity].
      apply char_eqb_eq in Ex. subst x. exfalso. apply Ha.
      apply (subseteq_drop k a). rewrite E. left.
  - rewrite drop_app_ge by lia. apply Hb.
Qed.

Lemma substring_middle (a m b : jsstring) :
  substring (a ++ m ++ b) (len a) (len a + len m) = m.
Proof.
  unfold substring. rewrite !clamp_inside by (rewrite !len_app; unfold len; lia).
  replace (Z.min (len a) (len a + len m)) with (len a) by (unfold len; lia).
  replace (Z.max (len a) (len a + len m) - len a) with (len m) by (unfold len; lia).
  unfold len. rewrite !Nat2Z.id.
  rewrite drop_app_length. apply take_app_length.
Qed.

(** What the two searches and the cut of the close handlers give on a
    frame written between [pre] and [post]. *)
Lemma frame_searches (start stop pre json post : jsstring) :
  NL ∉ start -> NL ∉ stop ->
  includes pre (start ++ [NL]) = false ->
  includes ([NL] ++ json) ([NL] ++ stop) = false ->
  let stdout := pre ++ (start ++ [NL] ++ json ++ [NL] ++ stop ++ [NL]) ++ post in
  indexOf stdout (start ++ [NL]) 0 = len pre
  /\ indexOf stdout ([NL] ++ stop) (len pre) = len pre + len start + 1 + len json
  /\ indexOf stdout ([NL] ++ stop) (len pre + len start) = len pre + len start + 1 + len json
  /\ charAt stdout (len pre + len start) = Some NL
  /\ substring stdout (len pre + len start + 1) (len pre + len start + 1 + len json) = json.
Proof.
  intros HS HE Hpre Hjson stdout.
  assert (E1 : stdout = pre ++ (start ++ [NL]) ++ (json ++ [NL] ++ stop ++ [NL] ++ post)).
  { unfold stdout. now rewrite <- !(assoc_L (++)). }
  assert (E2 : stdout = (pre ++ start) ++ ([NL] ++ json) ++ ([NL] ++ stop) ++ ([NL] ++ post)).
  { unfold stdout. now rewrite <- !(assoc_L (++)). }
  assert (E3 : stdout = (pre ++ start ++ [NL]) ++ json ++ ([NL] ++ stop ++ [NL] ++ post)).
  { unfold stdout. now rewrite <- !(assoc_L (++)). }
  assert (Hend : forall k : nat, (k < length ([NL] ++ json))%nat ->
            startsWith (drop k (([NL] ++ json) ++ ([NL] ++ stop) ++ ([NL] ++ post)))
              ([NL] ++ stop) = false).
  { apply no_overlap_head; assumption. }
  repeat split.
  - unfold indexOf. rewrite clamp_inside by (unfold len; lia).
    change (Z.to_nat 0) with 0%nat. rewrite drop_0, E1. rewrite indexOf_go_first; [lia| |apply startsWith_app].
    apply no_overlap_last; assumption.
  - unfold indexOf. rewrite clamp_inside by (rewrite E1, !len_app; unfold len; lia).
    unfold len at 1. rewrite Nat2Z.id.
    rewrite E1 at 1. rewrite drop_app_length.
    replace ((start ++ [NL]) ++ json ++ [NL] ++ stop ++ [NL] ++ post)
      with ((start ++ [NL] ++ json) ++ ([NL] ++ stop) ++ ([NL] ++ post))
      by now rewrite <- !(assoc_L (++)).
    rewrite indexOf_go_first; [rewrite !len_app; unfold len; simpl length; lia| |apply startsWith_app].
    apply no_overlap_head; [assumption|]. apply includes_skip; assumption.
  - unfold indexOf. rewrite clamp_inside by (rewrite E1, !len_app; unfold len; lia).
    replace (Z.to_nat (len pre + len start)) with (length (pre ++ start))
      by (rewrite length_app; unfold len; lia).
    rewrite E2 at 1. rewrite drop_app_length.
    rewrite indexOf_go_first; [rewrite !len_app; unfold len; simpl length; lia|exact Hend|apply startsWith_app].
  - unfold charAt. destruct (Z.ltb_spec (len pre + len start) 0) as [Hneg|_]; [unfold len in Hneg; lia|].
    replace (Z.to_nat (len pre + len start)) with (length (pre ++ start))
      by (rewrite length_app; unfold len; lia).
    rewrite E2. apply list_lookup_middle. reflexivity.
  - replace (len pre + len start + 1) with (len (pre ++ start ++ [NL]))
      by (rewrite !len_app; unfold len; simpl length; lia).
    rewrite E3. apply substring_middle.
Qed.

Lemma sentinels_one_line :
  (NL ∉ JS_START) /\ (NL ∉ JS_END) /\ (NL ∉ PHP_START) /\ (NL ∉ PHP_END).
Proof.
  repeat split; apply (bool_decide_unpack _); vm_compute; reflexivity.
Qed.

Lemma sentinelPayloadJS_frame (pre json post : jsstring) :
  includes pre (JS_START ++ [NL]) = false ->
  includes ([NL] ++ json) ([NL] ++ JS_END) = false ->
  sentinelPayloadJS (pre ++ frameJS json ++ post) = Some json.
Proof.
  intros Hpre Hjson.
  destruct sentinels_one_line as (HS & HE & _ & _).
  destruct (frame_searches JS_START JS_END pre json post HS HE Hpre Hjson)
    as (E1 & E2 & _ & _ & E5).
  assert (N1 : (len pre =? -1) = false) by (apply Z.eqb_neq; unfold len; lia).
  assert (N2 : (len pre + len JS_START + 1 + len json =? -1) = false)
    by (apply Z.eqb_neq; unfold len; lia).
  unfold sentinelPayloadJS, frameJS. cbv beta zeta.
  repeat progress (rewrite ?E1, ?E2, ?N1, ?N2; cbn [negb andb]; cbv iota).
  rewrite len_app.
  change (len [NL]) with 1. rewrite Z.add_assoc, E5. reflexivity.
Qed.

Lemma sentinelPayloadPHP_frame (pre json post : jsstring) :
  includes pre (PHP_START ++ [NL]) = false ->
  includes ([NL] ++ json) ([NL] ++ PHP_END) = false ->
  sentinelPayloadPHP (pre ++ framePHP json ++ post) = Some (trim json).
Proof.
  intros Hpre Hjson.
  destruct sentinels_one_line as (_ & _ & HS & HE).
  destruct (frame_searches PHP_START PHP_END pre json post HS HE Hpre Hjson)
    as (E1 & _ & E3 & E4 & E5).
  assert (N1 : (len pre =? -1) = false) by (apply Z.eqb_neq; unfold len; lia).
  assert (N2 : (len pre + len PHP_START + 1 + len json =? -1) = false)
    by (apply Z.eqb_neq; unfold len; lia).
  unfold sentinelPayloadPHP, framePHP. cbv beta zeta.
  repeat progress (rewrite ?E1, ?N1, ?E3, ?N2; cbn [negb andb]; cbv iota).
  rewrite E4, bool_decide_eq_true_2 by reflexivity.
  cbv iota. rewrite E5. reflexivity.
Qed.

End FramingFacts.

Section Framing.

Import Engine Protocol Samples.

(** X1: the payload the JavaScript script writes between its sentinels
    is the payload the close handler reads.  Whatever stdout holds before
    the frame (as long as the start sentinel line is not in it) and after
    it, and whatever stderr holds, when the payload does not itself hold
    the end sentinel at the start of a line the handler cuts out exactly
    the payload, and when [JSON.parse] accepts it the handler resolves
    the parsed value, once. *)
Theorem closeJS_reads_the_written_frame
        (msgOf : jsstring -> jsstring) (execId scriptPath pre json post stderr : jsstring)
        (v : value) (w : World) :
  includes pre (JS_START ++ [NL]) = false ->
  includes ([NL] ++ json) ([NL] ++ JS_END) = false ->
  JSON_parse json = Some v ->
  sentinelPayloadJS (pre ++ frameJS json ++ post) = Some json
  /\ exists w' : World,
       closeJS msgOf execId scriptPath (pre ++ frameJS json ++ post) stderr w = (Normal tt, w')
       /\ settled w' = settled w ++ [v].
Proof.
  intros Hpre Hjson Hv.
  pose proof (sentinelPayloadJS_frame pre json post Hpre Hjson) as E.
  split; [exact E|].
  unfold closeJS, parse, bind, tryCatch, registry_delete, fs_unlink, resolve, ret.
  rewrite E, Hv. eexists. split; reflexivity.
Qed.

Lemma closeJS_reads_the_written_frame_witness :
  sentinelPayloadJS (U "log line" ++ [NL] ++ frameJS payloadText ++ U "trailing")
  = Some payloadText
  /\ exists w' : World,
       closeJS unexpectedToken (execIdOf 17) (scriptPathJS (U "/tmp") (execIdOf 17))
         (U "log line" ++ [NL] ++ frameJS payloadText ++ U "trailing") (U "a warning") tracked
       = (Normal tt, w')
       /\ settled w' = settled tracked ++ [payloadValue].
Proof.
  apply (closeJS_reads_the_written_frame unexpectedToken (execIdOf 17)
           (scriptPathJS (U "/tmp") (execIdOf 17)) (U "log line" ++ [NL]) payloadText
           (U "trailing") (U "a warning") payloadValue tracked);
    vm_compute; reflexivity.
Defined.

(** X2: the same for PHP, whose script pretty-prints the payload over
    several lines: the handler cuts out the payload, trimmed, and
    resolves what [JSON.parse] makes of it. *)
Theorem closePHP_reads_the_written_frame
        (msgOf : jsstring -> jsstring) (execId scriptPath pre json post stderr : jsstring)
        (v : value) (w : World) :
  includes pre (PHP_START ++ [NL]) = false ->
  includes ([NL] ++ json) ([NL] ++ PHP_END) = false ->
  JSON_parse (trim json) = Some v ->
  sentinelPayloadPHP (pre ++ framePHP json ++ post) = Some (trim json)
  /\ exists w' : World,
       closePHP msgOf execId scriptPath (pre ++ framePHP json ++ post) stderr w = (Normal tt, w')
       /\ settled w' = settled w ++ [v].
Proof.
  intros Hpre Hjson Hv.
  pose proof (sentinelPayloadPHP_frame pre json post Hpre Hjson) as E.
  split; [exact E|].
  unfold closePHP, parse, bind, tryCatch, registry_delete, fs_unlink, resolve, ret.
  rewrite E, Hv.
  destruct (negb (truthy stderr && includes stderr (U "Parse error"))); eexists; split; reflexivity.
Qed.

Lemma closePHP_reads_the_written_frame_witness :
  sentinelPayloadPHP (U "Notice: x" ++ [NL] ++ framePHP (U "{" ++ [NL] ++ U "}") ++ [])
  = Some (trim (U "{" ++ [NL] ++ U "}"))
  /\ exists w' : World,
       closePHP unexpectedToken (execIdOf 17) (scriptPathPHP (U "/tmp") (execIdOf 17))
         (U "Notice: x" ++ [NL] ++ framePHP (U "{" ++ [NL] ++ U "}") ++ []) [] tracked
       = (Normal tt, w')
       /\ settled w' = settled tracked ++ [VObject []].
Proof.
  apply (closePHP_reads_the_written_frame unexpectedToken (execIdOf 17)
           (scriptPathPHP (U "/tmp") (execIdOf 17)) (U "Notice: x" ++ [NL])
           (U "{" ++ [NL] ++ U "}") [] [] (VObject []) tracked);
    vm_compute; reflexivity.
Defined.

End Framing.

(** ** One execution from start to close *)

Section LifecycleRoundTrip.

Import Engine Samples.

Lemma union_difference_fresh (X : gset jsstring) (p : jsstring) :
  p ∉ X -> (X ∪ {[p]}) ∖ {[p]} = X.
Proof.
  intros Hp. apply set_eq. intros x.
  rewrite elem_of_difference, elem_of_union, elem_of_singleton. split.
  - intros [[H|H] Hn]; [exact H|contradiction].
  - intros H. split; [now left|]. intros ->. contradiction.
Qed.

(** X3: a JavaScript execution leaves no trace.  From the start (script
    written, child tracked) to the close event, or to the error event
    of a failed spawn, the registry and the set of temporary files
    come back to what they were before, whatever the child wrote. *)
Theorem javascript_execution_leaves_no_trace
        (msgOf : jsstring -> jsstring) (tmpdir stdout stderr executable : jsstring)
        (error : SpawnError) (now : Z) (child : Child) (w : World) :
  executionProcesses w !! execIdOf now = None ->
  scriptPathJS tmpdir (execIdOf now) ∉ files w ->
  let started := (startJS tmpdir now child w).2 in
  let closed := (closeJS msgOf (execIdOf now) (scriptPathJS tmpdir (execIdOf now))
                   stdout stderr started).2 in
  let failed := (errorJS (execIdOf now) (scriptPathJS tmpdir (execIdOf now))
                   executable error started).2 in
  executionProcesses started !! execIdOf now = Some child
  /\ scriptPathJS tmpdir (execIdOf now) ∈ files started
  /\ executionProcesses closed = executionProcesses w /\ files closed = files w
  /\ executionProcesses failed = executionProcesses w /\ files failed = files w.
Proof.
  intros Hid Hpath started closed failed.
  destruct (closeJS_effect msgOf stdout stderr) as (v & errs & _ & Hclose).
  unfold closed. rewrite Hclose. unfold failed, started.
  cbn [snd startJS errorJS bind fs_writeFile registry_set registry_delete fs_unlink resolve ret
       executionProcesses files].
  unfold startJS, errorJS, bind, fs_writeFile, registry_set, registry_delete, fs_unlink,
    resolve, ret. cbn [snd executionProcesses files].
  rewrite lookup_insert_eq, delete_insert_id by exact Hid.
  rewrite union_difference_fresh by exact Hpath.
  repeat split. apply elem_of_union_r, elem_of_singleton. reflexivity.
Qed.

Lemma javascript_execution_leaves_no_trace_witness :
  executionProcesses idle !! execIdOf 17 = None
  /\ executionProcesses
       (closeJS unexpectedToken (execIdOf 17) (scriptPathJS (U "/tmp") (execIdOf 17))
          stdoutPayloadJS [] (startJS (U "/tmp") 17 7%positive idle).2).2
     = executionProcesses idle
  /\ files
       (closeJS unexpectedToken (execIdOf 17) (scriptPathJS (U "/tmp") (execIdOf 17))
          stdoutPayloadJS [] (startJS (U "/tmp") 17 7%positive idle).2).2
     = files idle.
Proof.
  assert (Hid : executionProcesses idle !! execIdOf 17 = None) by reflexivity.
  assert (Hpath : scriptPathJS (U "/tmp") (execIdOf 17) ∉ files idle)
    by (apply (bool_decide_unpack _); vm_compute; reflexivity).
  destruct (javascript_execution_leaves_no_trace unexpectedToken (U "/tmp") stdoutPayloadJS []
              (U "node") (spawnFailure (U "node") (U "ENOENT")) 17 7%positive idle Hid Hpath)
    as (_ & _ & H1 & H2 & _).
  exact (conj Hid (conj H1 H2)).
Defined.

(** X4: a PHP execution leaves no trace either, unless stderr holds the
    parse marker: then the close handler keeps the script, and the
    script file is exactly what stays behind. *)
Theorem php_execution_leaves_only_a_failed_script
        (msgOf : jsstring -> jsstring) (tmpdir stdout stderr executable : jsstring)
        (error : SpawnError) (now : Z) (child : Child) (w : World) :
  executionProcesses w !! execIdOf now = None ->
  scriptPathPHP tmpdir (execIdOf now) ∉ files w ->
  let started := (startPHP tmpdir now child w).2 in
  let closed := (closePHP msgOf (execIdOf now) (scriptPathPHP tmpdir (execIdOf now))
                   stdout stderr started).2 in
  let failed := (errorPHP (execIdOf now) (scriptPathPHP tmpdir (execIdOf now))
                   executable error started).2 in
  executionProcesses closed = executionProcesses w
  /\ files closed = (if includes stderr (U "Parse error")
                     then files w ∪ {[scriptPathPHP tmpdir (execIdOf now)]}
                     else files w)
  /\ executionProcesses failed = executionProcesses w /\ files failed = files w.
Proof.
  intros Hid Hpath started closed failed.
  destruct (closePHP_effect msgOf stdout stderr) as (v & errs & _ & Hclose).
  unfold closed. rewrite Hclose. unfold failed, started.
  unfold startPHP, errorPHP, bind, fs_writeFile, registry_set, registry_delete, fs_unlink,
    resolve, ret. cbn [snd executionProcesses files].
  rewrite delete_insert_id by exact Hid.
  rewrite union_difference_fresh by exact Hpath.
  repeat split.
  destruct stderr as [|c stderr']; [reflexivity|].
  cbn [truthy andb]. destruct (includes (c :: stderr') (U "Parse error")); reflexivity.
Qed.

Lemma php_execution_leaves_only_a_failed_script_witness :
  executionProcesses idle !! execIdOf 17 = None
  /\ files
       (closePHP unexpectedToken (execIdOf 17) (scriptPathPHP (U "/tmp") (execIdOf 17))
          [] (U "PHP Parse error: syntax error") (startPHP (U "/tmp") 17 7%positive idle).2).2
     = files idle ∪ {[scriptPathPHP (U "/tmp") (execIdOf 17)]}.
Proof.
  assert (Hid : executionProcesses idle !! execIdOf 17 = None) by reflexivity.
  assert (Hpath : scriptPathPHP (U "/tmp") (execIdOf 17) ∉ files idle)
    by (apply (bool_decide_unpack _); vm_compute; reflexivity).
  destruct (php_execution_leaves_only_a_failed_script unexpectedToken (U "/tmp") []
              (U "PHP Parse error: syntax error")
              (U "php") (spawnFailure (U "php") (U "ENOENT")) 17 7%positive idle Hid Hpath)
    as (_ & H2 & _).
  exact (conj Hid H2).
Defined.

(** X5: the handlers of one execution leave the others alone.  The
    close and error handlers change the registry at their own
    identifier only and the files at their own script only, and signal
    no child. *)
Theorem handlers_touch_their_own_execution_only
        (msgOf : jsstring -> jsstring) (execId scriptPath stdout stderr executable : jsstring)
        (error : SpawnError) (w : World) (w' : World) :
  w' = (closeJS msgOf execId scriptPath stdout stderr w).2
  \/ w' = (closePHP msgOf execId scriptPath stdout stderr w).2
  \/ w' = (errorJS execId scriptPath executable error w).2
  \/ w' = (errorPHP execId scriptPath executable error w).2 ->
  (forall other : jsstring,
      other <> execId -> executionProcesses w' !! other = executionProcesses w !! other)
  /\ (forall path : jsstring, path <> scriptPath -> path ∈ files w' <-> path ∈ files w)
  /\ signalled w' = signalled w.
Proof.
  destruct (closeJS_effect msgOf stdout stderr) as (v1 & errs1 & _ & HJ).
  destruct (closePHP_effect msgOf stdout stderr) as (v2 & errs2 & _ & HP).
  rewrite HJ, HP.
  unfold errorJS, errorPHP, bind, registry_delete, fs_unlink, resolve.
  cbn [snd].
  intros [-> | [-> | [-> | ->]]]; cbn [executionProcesses files signalled];
    (split; [intros other Hne; apply lookup_delete_ne; congruence|]);
    (split; [|reflexivity]); intros path Hne;
    try destruct (truthy stderr && includes stderr (U "Parse error"))%bool;
    rewrite ?elem_of_difference, ?elem_of_singleton; tauto.
Qed.

Lemma handlers_touch_their_own_execution_only_witness :
  executionProcesses
    (closeJS unexpectedToken (execIdOf 18) (scriptPathJS (U "/tmp") (execIdOf 18))
       stdoutPayloadJS [] tracked).2 !! execIdOf 17 = Some 7%positive.
Proof.
  destruct (handlers_touch_their_own_execution_only unexpectedToken (execIdOf 18)
              (scriptPathJS (U "/tmp") (execIdOf 18)) stdoutPayloadJS [] (U "node")
              (spawnFailure (U "node") (U "ENOENT")) tracked _ (or_introl eq_refl))
    as (H & _).
  rewrite H; [reflexivity|]. vm_compute. discriminate.
Defined.

(** X6: the stop handler signals exactly the tracked children and
    empties the registry, and that is all: it removes no script, it
    settles no promise, it returns [{ success: true }], and a second
    stop changes nothing more. *)
Theorem stopExecution_signals_exactly_the_tracked (w : World) :
  (stopExecution w).1 = Normal (VObject [(U "success", VBool true)])
  /\ (forall child : Child,
         child ∈ signalled (stopExecution w).2 <->
         child ∈ signalled w \/ exists execId, executionProcesses w !! execId = Some child)
  /\ executionProcesses (stopExecution w).2 = ∅
  /\ files (stopExecution w).2 = files w
  /\ settled (stopExecution w).2 = settled w
  /\ stopExecution (stopExecution w).2 = stopExecution w.
Proof.
  unfold stopExecution. cbn [fst snd executionProcesses files settled signalled consoleErrors].
  repeat split.
  - intros H. apply elem_of_union in H as [H|H]; [now left|right].
    apply elem_of_list_to_set, list_elem_of_fmap in H as ([execId c] & -> & H).
    apply elem_of_map_to_list in H. now exists execId.
  - intros [H|[execId H]]; apply elem_of_union; [now left|right].
    apply elem_of_list_to_set, list_elem_of_fmap. exists (execId, child).
    split; [reflexivity|]. now apply elem_of_map_to_list.
  - rewrite map_to_list_empty. cbn [map]. rewrite list_to_set_nil, (right_id_L ∅ (∪)).
    reflexivity.
Qed.

End LifecycleRoundTrip.

(** ** The Auto-Log Transform, line by line *)

Section AutoLogLoopFacts.

Import AutoLog AutoLogLoop.

Lemma autoLog_unfold (lang : Language) (code : jsstring) :
  autoLog lang code =
  if (negb (truthy code) || negb (truthy (trim code)))%bool then code
  else join [NL] (processedLines (fold_left (step lang) (split code) initial)).
Proof. destruct lang; reflexivity. Qed.

Lemma step_appends (lang : Language) (st : Loop) (l : jsstring) :
  exists o, processedLines (step lang st l) = processedLines st ++ [o] /\ rewritten lang l o.
Proof.
  apply body_appends. destruct lang; [apply rewriteJS_appends|apply rewritePHP_appends].
Qed.

Lemma step_passedOver (lang : Language) (st : Loop) (l : jsstring) :
  passedOver lang l = true -> processedLines (step lang st l) = processedLines st ++ [l].
Proof.
  unfold passedOver, step, body. cbv zeta.
  destruct (negb (truthy (trim l)) || startsWith (trim l) (U "//"))%bool; [reflexivity|].
  destruct (includes (trim l) (U "/*")); [reflexivity|].
  destruct (includes (trim l) (U "*/")); [reflexivity|].
  destruct (inMultiLineComment st); [reflexivity|].
  cbn [orb].
  destruct (isStatementLine (keywordsOf lang) (trim l)); [reflexivity|].
  cbn [orb]. intros Has.
  destruct lang; unfold rewriteOf, rewriteJS, rewritePHP, hasAssignment in *;
    rewrite Has; reflexivity.
Qed.

(** The lines pushed by the loop, one for each line read. *)
Lemma fold_lines (R : jsstring -> jsstring -> Prop) (f : Loop -> jsstring -> Loop) :
  (forall st l, exists o, processedLines (f st l) = processedLines st ++ [o] /\ R l o) ->
  forall lines st,
  exists outs, processedLines (fold_left f lines st) = processedLines st ++ outs
               /\ Forall2 R lines outs.
Proof.
  intros Hstep lines. induction lines as [|l lines IH]; intros st; simpl.
  - exists []. split; [now rewrite app_nil_r|constructor].
  - destruct (Hstep st l) as (o & E & Rlo).
    destruct (IH (f st l)) as (outs & E' & R').
    exists (o :: outs). split; [|now constructor].
    rewrite E', E, <- app_assoc. reflexivity.
Qed.

Lemma Forall2_and {A B} (P Q : A -> B -> Prop) (xs : list A) (ys : list B) :
  Forall2 (fun x y => P x y /\ Q x y) xs ys -> Forall2 P xs ys /\ Forall2 Q xs ys.
Proof.
  induction 1 as [|x y xs ys [Hp Hq] _ [IHp IHq]]; split; constructor; assumption.
Qed.

(** The lines of the result, related to the lines of the snippet by
    any relation every turn of the loop keeps. *)
Lemma autoLog_lines_rel (R : jsstring -> jsstring -> Prop) (lang : Language) (code : jsstring) :
  (forall l, R l l) ->
  (forall st l o, processedLines (step lang st l) = processedLines st ++ [o] -> R l o) ->
  Forall2 R (split code) (split (autoLog lang code)).
Proof.
  intros Hrefl Hstep. rewrite autoLog_unfold.
  destruct (negb (truthy code) || negb (truthy (trim code)))%bool.
  { apply Forall2_same_length_lookup_2; [reflexivity|].
    intros i x y Hx Hy. replace y with x by congruence. apply Hrefl. }
  destruct (fold_lines (fun l o => rewritten lang l o /\ R l o) (step lang)) with
    (lines := split code) (st := initial) as (outs & E & HR).
  { intros st l. destruct (step_appends lang st l) as (o & Eo & Ro).
    exists o. split; [exact Eo|]. split; [exact Ro|]. eapply Hstep, Eo. }
  apply Forall2_and in HR as [Hrw HR].
  rewrite E. simpl app. rewrite split_join; [assumption| |].
  - destruct (split_cons_inv code) as (l & ls & Hs). rewrite Hs in HR.
    inversion HR. congruence.
  - eapply rewritten_all_no_NL; [exact Hrw|apply split_lines_no_NL].
Qed.

Lemma processMagicComments_code (snippet : jsstring) :
  MagicComments.code (MagicComments.processMagicComments snippet) = snippet.
Proof.
  unfold MagicComments.processMagicComments. simpl.
  rewrite forEach_processedLines. simpl. apply join_split.
Qed.

End AutoLogLoopFacts.

Section AutoLogLines.

Import MagicComments AutoLog AutoLogLoop Renderer.

(** X7: what [executeCode] sends to the main process.  Whatever the
    current language, the code sent has as many lines as the code
    typed, so the line numbers of the magic comments, which are
    taken from the code as typed, are line numbers of the code that
    runs; for a language other than the two known ones the code is
    sent as it is. *)
Theorem prepareExecution_keeps_line_numbers (currentLanguage code : jsstring) :
  length (split (prepareExecution currentLanguage code).1) = length (split code)
  /\ (prepareExecution currentLanguage code).2 = magicComments (processMagicComments code)
  /\ Forall (fun mc => (1 <= line mc <= length (split (prepareExecution currentLanguage code).1))%nat)
       (prepareExecution currentLanguage code).2
  /\ (prepareExecution currentLanguage code).1
     = (if bool_decide (currentLanguage = U "javascript") then autoLog JavaScript code
        else if bool_decide (currentLanguage = U "php") then autoLog PHP code
        else code).
Proof.
  assert (Hlen : forall lang, length (split (autoLog lang code)) = length (split code)).
  { intros lang. symmetry. eapply Forall2_length, autoLog_lines. }
  assert (E : (prepareExecution currentLanguage code).1
              = (if bool_decide (currentLanguage = U "javascript") then autoLog JavaScript code
                 else if bool_decide (currentLanguage = U "php") then autoLog PHP code
                 else code)).
  { unfold prepareExecution. cbn [fst]. rewrite processMagicComments_code. reflexivity. }
  assert (L : length (split (prepareExecution currentLanguage code).1) = length (split code)).
  { rewrite E. repeat case_bool_decide; auto. }
  split; [exact L|]. split; [reflexivity|]. split; [|exact E].
  rewrite L. unfold prepareExecution. cbn [snd].
  apply Forall_forall. intros mc Hmc. unfold processMagicComments in Hmc. simpl in Hmc.
  apply forEach_magicComments in Hmc as [Hmc|(i & l & g & Hi & _ & ->)].
  - now apply elem_of_nil in Hmc.
  - simpl. apply lookup_lt_Some in Hi. lia.
Qed.

(** X8: the lines the transform never touches.  A line that is empty
    or a line comment, that holds a block-comment delimiter, that is a
    statement line (it starts with a statement keyword or a brace, ends
    with an opening brace, or holds a colon and no question mark) or
    that is an assignment comes out as it went in, at its place,
    wherever it stands in the snippet. *)
Theorem autoLog_passes_over_statements
        (lang : Language) (code : jsstring) (i : nat) (l : jsstring) :
  split code !! i = Some l ->
  passedOver lang l = true ->
  split (autoLog lang code) !! i = Some l.
Proof.
  intros Hi Hover.
  pose proof (autoLog_lines_rel (fun l o => passedOver lang l = true -> o = l) lang code) as H.
  destruct (Forall2_lookup_l _ _ _ i l (H (fun _ _ => eq_refl) ltac:(
    intros st l0 o Eo Hp; rewrite step_passedOver in Eo by exact Hp;
    apply app_inv_head in Eo; congruence)) Hi) as (o & Ho & Hkeep).
  rewrite Ho, (Hkeep Hover). reflexivity.
Qed.

Lemma autoLog_passes_over_statements_witness :
  split (autoLog JavaScript (U "total" ++ [NL] ++ U "const total = 1;")) !! 1%nat
  = Some (U "const total = 1;").
Proof.
  apply (autoLog_passes_over_statements JavaScript (U "total" ++ [NL] ++ U "const total = 1;")
           1 (U "const total = 1;")); vm_compute; reflexivity.
Defined.

End AutoLogLines.

(** ** The Auto-Log Transform applied to its own result *)

Section AutoLogIdempotence.

Import AutoLog AutoLogLoop.

Lemma trim_inner (s : jsstring) :
  exists a b, s = a ++ trim s ++ b
              /\ Forall (fun c => isSpace c = true) a /\ Forall (fun c => isSpace c = true) b.
Proof.
  destruct (trimStart_suffix s) as (a & Ea & Ha).
  destruct (trimEnd_prefix (trimStart s)) as (b & Eb & Hb).
  exists a, b. unfold trim. rewrite <- Eb. auto.
Qed.

Lemma includes_cons_false (c : char16) (s p : jsstring) :
  includes (c :: s) p = false <-> startsWith (c :: s) p = false /\ includes s p = false.
Proof.
  rewrite !includes_false_iff. split.
  - intros H. split; [apply (H 0%nat)|intros k; apply (H (S k))].
  - intros [H0 H] [|k]; [exact H0|apply H].
Qed.

Lemma includes_true_split (s p : jsstring) :
  includes s p = true -> exists a b, s = a ++ p ++ b.
Proof.
  induction s as [|c s IH]; intros H.
  - destruct (startsWith [] p) eqn:E.
    + apply startsWith_inv in E as [t E]. now exists [], t.
    + unfold includes, indexOf in H. simpl in H. rewrite E in H. discriminate.
  - destruct (startsWith (c :: s) p) eqn:E.
    + apply startsWith_inv in E as [t E]. now exists [], t.
    + destruct (includes s p) eqn:E2.
      * destruct (IH eq_refl) as (a & b & ->). now exists (c :: a), b.
      * rewrite (proj2 (includes_cons_false c s p) (conj E E2)) in H. discriminate.
Qed.

Lemma includes_inner (a m b p : jsstring) :
  includes (a ++ m ++ b) p = false -> includes m p = false.
Proof.
  destruct (includes m p) eqn:E; [|reflexivity].
  apply includes_true_split in E as (a' & b' & ->). intros H. rewrite <- H. symmetry.
  replace (a ++ (a' ++ p ++ b') ++ b) with ((a ++ a') ++ p ++ (b' ++ b))
    by (now rewrite <- !app_assoc).
  apply includes_part.
Qed.

(** A pattern of two code units starts in one of two texts put side
    by side, or at the place where they meet. *)
Lemma includes_pair_app (x y : char16) (s1 s2 : jsstring) :
  includes s1 [x; y] = false -> includes s2 [x; y] = false ->
  last s1 <> Some x \/ head s2 <> Some y ->
  includes (s1 ++ s2) [x; y] = false.
Proof.
  intros H1 H2 Hmeet. induction s1 as [|c s1 IH]; [exact H2|].
  apply includes_cons_false in H1 as [Hc H1].
  simpl app. apply includes_cons_false. split.
  - destruct s1 as [|d s1]; [|exact Hc].
    simpl. destruct (char_eqb x c) eqn:Ex; [|reflexivity].
    apply char_eqb_eq in Ex. subst c.
    destruct Hmeet as [Hl|Hh]; [now elim Hl|].
    destruct s2 as [|e s2]; [reflexivity|]. simpl.
    destruct (char_eqb y e) eqn:Ey; [|reflexivity].
    apply char_eqb_eq in Ey. subst e. now elim Hh.
  - apply IH; [exact H1|].
    destruct Hmeet as [Hl|Hh]; [left|now right].
    destruct s1 as [|d s1]; [discriminate|exact Hl].
Qed.

Lemma includes_spaces (sp rest q : jsstring) (x : char16) :
  Forall (fun c => isSpace c = true) sp -> isSpace x = false ->
  includes rest (x :: q) = false -> includes (sp ++ rest) (x :: q) = false.
Proof.
  intros Hsp Hx. apply includes_skip. intros Hin.
  rewrite Forall_forall in Hsp. apply Hsp in Hin. congruence.
Qed.

(** Removing the semicolon removes the last code unit or nothing. *)
Lemma withoutSemicolon_cases (s : jsstring) :
  replaceFirst trailingSemicolon [] s = s
  \/ s = replaceFirst trailingSemicolon [] s ++ [ch ";"].
Proof.
  induction s as [|c s IH]; [now left|].
  simpl replaceFirst. unfold trailingSemicolon at 1 3.
  destruct (char_eqb (ch ";") c) eqn:Ec.
  - apply char_eqb_eq in Ec. subst c. destruct s as [|d s].
    + right. reflexivity.
    + change (matchHere (Cat (Lit1 (ch ";")) Eol) (ch ";" :: d :: s)) with (@None matched).
      cbv iota. destruct IH as [IH|IH]; [left; now rewrite IH|right; cbn [app]; f_equal; exact IH].
  - apply char_eqb_neq in Ec. rewrite matchHere_first by congruence.
    destruct IH as [IH|IH]; [left; now rewrite IH|right; cbn [app]; f_equal; exact IH].
Qed.

Lemma lineDepth_app (open close : char16) (a b : jsstring) :
  lineDepth open close (a ++ b) = lineDepth open close a + lineDepth open close b.
Proof.
  unfold lineDepth. rewrite fold_left_app.
  match goal with |- fold_left ?f b ?d = _ => generalize d; set (count := f) end.
  induction b as [|x b IH]; intros d; simpl; [lia|].
  rewrite IH, (IH (count 0 x)). unfold count.
  destruct (char_eqb x open), (char_eqb x close); lia.
Qed.

Lemma lineDepth_spaces (open close : char16) (sp : jsstring) :
  isSpace open = false -> isSpace close = false ->
  Forall (fun c => isSpace c = true) sp -> lineDepth open close sp = 0.
Proof.
  intros Ho Hc. induction 1 as [|x sp Hx _ IH]; [reflexivity|].
  change (x :: sp) with ([x] ++ sp). rewrite lineDepth_app, IH.
  unfold lineDepth. cbn [fold_left].
  destruct (char_eqb x open) eqn:E1; [apply char_eqb_eq in E1; congruence|].
  destruct (char_eqb x close) eqn:E2; [apply char_eqb_eq in E2; congruence|]. reflexivity.
Qed.

Lemma lineDepth_trim (open close : char16) (l : jsstring) :
  isSpace open = false -> isSpace close = false ->
  lineDepth open close (trim l) = lineDepth open close l.
Proof.
  intros Ho Hc. destruct (trim_inner l) as (a & b & E & Ha & Hb).
  rewrite E at 2.
  rewrite !lineDepth_app, (lineDepth_spaces open close a), (lineDepth_spaces open close b)
    by assumption. lia.
Qed.

Lemma lineDepth_withoutSemicolon (open close : char16) (l : jsstring) :
  isSpace open = false -> isSpace close = false ->
  open <> ch ";" -> close <> ch ";" ->
  lineDepth open close (withoutSemicolonOf l) = lineDepth open close l.
Proof.
  intros Ho Hc Ho' Hc'. rewrite <- (lineDepth_trim open close l) by assumption.
  unfold withoutSemicolonOf.
  destruct (withoutSemicolon_cases (trim l)) as [E|E]; [now rewrite E|].
  rewrite E at 2. rewrite lineDepth_app. unfold lineDepth at 3. cbn [fold_left].
  destruct (char_eqb (ch ";") open) eqn:E1; [apply char_eqb_eq in E1; congruence|].
  destruct (char_eqb (ch ";") close) eqn:E2; [apply char_eqb_eq in E2; congruence|]. lia.
Qed.

(** A wrapped line opens and closes one parenthesis more than the
    line it comes from, and as many braces. *)
Lemma wrapped_depths (lang : Language) (l o : jsstring) :
  rewritten lang l o -> o <> l ->
  lineDepth (ch "{") (ch "}") o = lineDepth (ch "{") (ch "}") l
  /\ lineDepth (ch "(") (ch ")") o = lineDepth (ch "(") (ch ")") l.
Proof.
  intros [->|R] Hne; [congruence|]. destruct (indentOf_spaces l) as [Hsp _].
  assert (G : forall call tail : jsstring,
             lineDepth (ch "{") (ch "}") call = 0 -> lineDepth (ch "{") (ch "}") tail = 0 ->
             lineDepth (ch "(") (ch ")") call = 1 -> lineDepth (ch "(") (ch ")") tail = -1 ->
             lineDepth (ch "{") (ch "}") (indentOf l ++ call ++ withoutSemicolonOf l ++ tail)
             = lineDepth (ch "{") (ch "}") l
             /\ lineDepth (ch "(") (ch ")") (indentOf l ++ call ++ withoutSemicolonOf l ++ tail)
                = lineDepth (ch "(") (ch ")") l).
  { intros call tail B1 B2 P1 P2.
    rewrite !lineDepth_app, !lineDepth_withoutSemicolon,
      !(lineDepth_spaces _ _ (indentOf l)), B1, B2, P1, P2
      by (reflexivity || discriminate || assumption). lia. }
  destruct lang.
  - destruct R as [_ ->]. apply G; reflexivity.
  - destruct R as [_ [->| ->]]; apply G; reflexivity.
Qed.

(** A wrapped line holds no comment delimiter the line it comes from
    did not hold. *)
Lemma wrapped_delimiters (lang : Language) (l o : jsstring) (x y : char16) :
  (x = ch "/" /\ y = ch "*") \/ (x = ch "*" /\ y = ch "/") ->
  rewritten lang l o -> o <> l ->
  includes (trim l) [x; y] = false -> includes (trim o) [x; y] = false.
Proof.
  intros Hxy [->|R] Hne Hl; [congruence|]. destruct (indentOf_spaces l) as [Hsp _].
  assert (Hws : includes (withoutSemicolonOf l) [x; y] = false).
  { unfold withoutSemicolonOf.
    destruct (withoutSemicolon_cases (trim l)) as [E|E]; [now rewrite E|].
    rewrite E in Hl. apply (includes_inner [] _ [ch ";"]). exact Hl. }
  assert (G : forall call tail : jsstring,
             includes call [x; y] = false -> last call <> Some x ->
             includes tail [x; y] = false -> head tail <> Some y ->
             includes (trim (indentOf l ++ call ++ withoutSemicolonOf l ++ tail)) [x; y] = false).
  { intros call tail C1 C2 T1 T2.
    destruct (trim_inner (indentOf l ++ call ++ withoutSemicolonOf l ++ tail))
      as (a & b & E & _ & _).
    apply (includes_inner a _ b). rewrite <- E.
    apply includes_spaces; [exact Hsp|destruct Hxy as [[-> _]|[-> _]]; reflexivity|].
    apply includes_pair_app; [exact C1| |now left].
    apply includes_pair_app; [exact Hws|exact T1|now right]. }
  destruct lang.
  - destruct R as [_ ->]. unfold wrappedJS.
    destruct Hxy as [[-> ->]|[-> ->]]; apply G; (reflexivity || discriminate).
  - destruct R as [_ [->| ->]]; unfold wrappedPHP;
      destruct Hxy as [[-> ->]|[-> ->]]; apply G; (reflexivity || discriminate).
Qed.

Lemma rewriteOf_control (lang : Language) (st : Loop) (l trimmed : jsstring) :
  control (rewriteOf lang st l trimmed) = control st.
Proof.
  destruct lang; unfold rewriteOf, rewriteJS, rewritePHP; cbv zeta;
    repeat match goal with
           | |- context [if ?b then _ else _] => destruct b
           end; reflexivity.
Qed.

(** A turn of the loop reads of the state its control variables only. *)
Lemma step_reads_control (lang : Language) (st1 st2 : Loop) (l o : jsstring) :
  control st1 = control st2 ->
  processedLines (step lang st1 l) = processedLines st1 ++ [o] ->
  processedLines (step lang st2 l) = processedLines st2 ++ [o]
  /\ control (step lang st2 l) = control (step lang st1 l).
Proof.
  destruct st1 as [ml1 bd1 pd1 pl1], st2 as [ml2 bd2 pd2 pl2].
  unfold control. cbn [inMultiLineComment braceDepth parenDepth processedLines].
  intros [= -> -> ->].
  destruct lang; unfold step, body, rewriteOf, rewriteJS, rewritePHP, countDepths, push;
    cbv zeta; cbn [inMultiLineComment braceDepth parenDepth processedLines];
    repeat match goal with
           | |- context [if ?b then _ else _] => destruct b
           end;
    cbn [inMultiLineComment braceDepth parenDepth processedLines];
    intros E; apply app_inv_head in E; (split; [now rewrite E|reflexivity]).
Qed.

(** A line that was rewritten went through the whole body of the
    loop. *)
Lemma step_rewrote (lang : Language) (st : Loop) (l o : jsstring) :
  processedLines (step lang st l) = processedLines st ++ [o] -> o <> l ->
  inMultiLineComment st = false
  /\ includes (trim l) (U "/*") = false /\ includes (trim l) (U "*/") = false
  /\ control (step lang st l) = control (countDepths st l).
Proof.
  unfold step, body. cbv zeta.
  destruct (negb (truthy (trim l)) || startsWith (trim l) (U "//"))%bool;
    [intros E Hne; apply app_inv_head in E; congruence|].
  destruct (includes (trim l) (U "/*"));
    [intros E Hne; apply app_inv_head in E; congruence|].
  destruct (includes (trim l) (U "*/"));
    [intros E Hne; apply app_inv_head in E; congruence|].
  destruct (inMultiLineComment st) eqn:Eml;
    [intros E Hne; apply app_inv_head in E; congruence|].
  destruct (isStatementLine (keywordsOf lang) (trim l));
    [intros E Hne; apply app_inv_head in E; congruence|].
  intros _ _. repeat split. apply rewriteOf_control.
Qed.

Lemma invokes_not_comment (lang : Language) (l : jsstring) :
  invokesOutput lang l = true ->
  (negb (truthy (trim l)) || startsWith (trim l) (U "//"))%bool = false.
Proof.
  destruct lang; unfold invokesOutput, startsWithConsoleCall, startsWithPHPOutput;
    intros H; repeat (apply orb_true_iff in H as [H|H]);
    apply startsWith_cons_inv in H as [t ->]; reflexivity.
Qed.

(** A line that invokes the output call and holds no comment
    delimiter is pushed as it is, after it was counted. *)
Lemma step_keeps_output_call (lang : Language) (st : Loop) (l : jsstring) :
  invokesOutput lang l = true ->
  includes (trim l) (U "/*") = false -> includes (trim l) (U "*/") = false ->
  inMultiLineComment st = false ->
  processedLines (step lang st l) = processedLines st ++ [l]
  /\ control (step lang st l) = control (countDepths st l).
Proof.
  intros Hinv H1 H2 Hml.
  assert (Hpl : processedLines (step lang st l) = processedLines st ++ [l]).
  { destruct (step_appends lang st l) as (o & E & R).
    now rewrite E, (invokes_kept lang l o Hinv R). }
  split; [exact Hpl|].
  unfold step, body. cbv zeta.
  rewrite (invokes_not_comment lang l Hinv), H1, H2, Hml.
  destruct (isStatementLine (keywordsOf lang) (trim l)); [reflexivity|].
  apply rewriteOf_control.
Qed.

(** One turn on a line, then one turn on the line it pushed: the
    second pushes the same line and leaves the same control
    variables. *)
Lemma step_twice (lang : Language) (st1 st2 : Loop) (l : jsstring) :
  control st1 = control st2 ->
  exists o, processedLines (step lang st1 l) = processedLines st1 ++ [o]
            /\ rewritten lang l o
            /\ processedLines (step lang st2 o) = processedLines st2 ++ [o]
            /\ control (step lang st2 o) = control (step lang st1 l).
Proof.
  intros Hc. destruct (step_appends lang st1 l) as (o & E & R).
  exists o. split; [exact E|]. split; [exact R|].
  destruct (decide (o = l)) as [->|Hne].
  - apply step_reads_control; assumption.
  - destruct (step_rewrote lang st1 l o E Hne) as (Hml & H1 & H2 & Hc1).
    destruct (wrapped_depths lang l o R Hne) as [Hb Hp].
    destruct (step_keeps_output_call lang st2 o) as [Hpl Hc2].
    + apply wrapped_invokes with l; assumption.
    + apply (wrapped_delimiters lang l o); auto.
    + apply (wrapped_delimiters lang l o); auto.
    + unfold control in Hc. congruence.
    + split; [exact Hpl|]. rewrite Hc2, Hc1.
      unfold control, countDepths in *. cbn [inMultiLineComment braceDepth parenDepth].
      congruence.
Qed.

Lemma fold_twice (lang : Language) (lines : list jsstring) :
  forall st1 st2 : Loop,
    control st1 = control st2 ->
    exists outs,
      processedLines (fold_left (step lang) lines st1) = processedLines st1 ++ outs
      /\ Forall2 (rewritten lang) lines outs
      /\ processedLines (fold_left (step lang) outs st2) = processedLines st2 ++ outs.
Proof.
  induction lines as [|l lines IH]; intros st1 st2 Hc; simpl.
  - exists []. simpl. rewrite !app_nil_r. repeat split. constructor.
  - destruct (step_twice lang st1 st2 l Hc) as (o & E1 & R & E2 & Hc').
    destruct (IH (step lang st1 l) (step lang st2 o) (eq_sym Hc')) as (outs & F1 & RR & F2).
    exists (o :: outs). simpl.
    rewrite F1, F2, E1, E2, <- !app_assoc. repeat split. now constructor.
Qed.

End AutoLogIdempotence.

Section AutoLogTwice.

Import AutoLog AutoLogLoop.

(** X9: the transform is idempotent.  In JavaScript and in PHP, for
    every snippet, applying the transform to its own result gives that
    result again: a second pass wraps nothing more and changes no
    line. *)
Theorem autoLog_idempotent (lang : Language) (code : jsstring) :
  autoLog lang (autoLog lang code) = autoLog lang code.
Proof.
  pose proof (autoLog_unfold lang code) as E.
  destruct (negb (truthy code) || negb (truthy (trim code)))%bool eqn:Eblank.
  - rewrite E, autoLog_unfold, Eblank. reflexivity.
  - rewrite (autoLog_unfold lang (autoLog lang code)).
    destruct (negb (truthy (autoLog lang code)) || negb (truthy (trim (autoLog lang code))))%bool;
      [reflexivity|].
    rewrite E.
    destruct (fold_twice lang (split code) initial initial eq_refl) as (outs & F1 & RR & F2).
    rewrite F1. simpl app. rewrite split_join.
    + rewrite F2. reflexivity.
    + destruct (split_cons_inv code) as (l & ls & Hs). rewrite Hs in RR.
      inversion RR. congruence.
    + eapply rewritten_all_no_NL; [exact RR|apply split_lines_no_NL].
Qed.

End AutoLogTwice.

Section AutoLogNesting.

Import AutoLog AutoLogLoop.

(** A line read inside a block comment, or with a brace or a
    parenthesis still open once it is counted, is pushed as it is. *)
Lemma step_nested (lang : Language) (st : Loop) (l : jsstring) :
  inMultiLineComment st = true
  \/ 0 < braceDepth st + lineDepth (ch "{") (ch "}") l
  \/ 0 < parenDepth st + lineDepth (ch "(") (ch ")") l ->
  processedLines (step lang st l) = processedLines st ++ [l].
Proof.
  intros H. unfold step, body. cbv zeta.
  destruct (negb (truthy (trim l)) || startsWith (trim l) (U "//"))%bool; [reflexivity|].
  destruct (includes (trim l) (U "/*")); [reflexivity|].
  destruct (includes (trim l) (U "*/")); [reflexivity|].
  destruct (inMultiLineComment st) eqn:Eml; [reflexivity|].
  destruct (isStatementLine (keywordsOf lang) (trim l)); [reflexivity|].
  destruct H as [H|H]; [discriminate|].
  assert (Hdepth : ((braceDepth (countDepths st l) <=? 0)
                    && (parenDepth (countDepths st l) <=? 0))%bool = false).
  { unfold countDepths. cbn [braceDepth parenDepth].
    apply andb_false_iff. destruct H as [H|H]; [left|right]; apply Z.leb_gt; exact H. }
  destruct lang; unfold rewriteOf, rewriteJS, rewritePHP; cbv zeta;
    rewrite <- andb_assoc, Hdepth, andb_false_r; reflexivity.
Qed.

(** The lines pushed by the loop, each by the turn that reads it. *)
Lemma fold_lines_at (lang : Language) (lines : list jsstring) :
  forall st : Loop,
  exists outs,
    processedLines (fold_left (step lang) lines st) = processedLines st ++ outs
    /\ Forall2 (rewritten lang) lines outs
    /\ forall i l, lines !! i = Some l ->
         exists o, outs !! i = Some o
                   /\ processedLines (step lang (fold_left (step lang) (take i lines) st) l)
                      = processedLines (fold_left (step lang) (take i lines) st) ++ [o].
Proof.
  induction lines as [|l0 lines IH]; intros st.
  - exists []. simpl. rewrite app_nil_r. repeat split; [constructor|]. intros i l H.
    now rewrite lookup_nil in H.
  - destruct (step_appends lang st l0) as (o0 & E0 & R0).
    destruct (IH (step lang st l0)) as (outs & E & RR & Hat).
    exists (o0 :: outs). simpl fold_left. rewrite E, E0, <- app_assoc.
    repeat split; [now constructor|]. intros [|i] l Hl.
    + injection Hl as <-. exists o0. split; [reflexivity|exact E0].
    + apply (Hat i l) in Hl as (o & Ho & Hstep). exists o. split; [exact Ho|exact Hstep].
Qed.

(** The lines of the result, each pushed by the turn of the loop
    that reads the line of the snippet at its place. *)
Lemma autoLog_line_at (lang : Language) (code : jsstring) (i : nat) (l : jsstring) :
  split code !! i = Some l ->
  split (autoLog lang code) !! i = Some l
  \/ exists o, split (autoLog lang code) !! i = Some o
               /\ processedLines (step lang (stateBefore lang code i) l)
                  = processedLines (stateBefore lang code i) ++ [o].
Proof.
  intros Hl. rewrite autoLog_unfold.
  destruct (negb (truthy code) || negb (truthy (trim code)))%bool; [now left|right].
  destruct (fold_lines_at lang (split code) initial) as (outs & E & RR & Hat).
  rewrite E. simpl app. rewrite split_join.
  - apply Hat, Hl.
  - destruct (split_cons_inv code) as (l0 & ls & Hs). rewrite Hs in RR.
    inversion RR. congruence.
  - eapply rewritten_all_no_NL; [exact RR|apply split_lines_no_NL].
Qed.

End AutoLogNesting.

Section AutoLogShape.

Import AutoLog AutoLogLoop.

(** X10: the transform works line by line.  Every line of the result
    stands at the place of a line of the snippet and is that line, or
    that line wrapped: its indentation, the output call of the
    language, its trimmed text without the final semicolon, and the
    closing text of the call. *)
Theorem autoLog_lines_are_kept_or_wrapped
        (lang : Language) (code : jsstring) (i : nat) (l : jsstring) :
  split code !! i = Some l ->
  exists l' : jsstring,
    split (autoLog lang code) !! i = Some l'
    /\ (l' = l
        \/ match lang with
           | JavaScript =>
               l' = indentOf l ++ U "console.log(" ++ withoutSemicolonOf l ++ U ");"
           | PHP =>
               l' = indentOf l ++ U "echo var_export(" ++ withoutSemicolonOf l
                      ++ U ", true) . " ++ [DQ] ++ U "\n" ++ [DQ] ++ U ";"
               \/ l' = indentOf l ++ U "echo print_r(" ++ withoutSemicolonOf l
                         ++ U ", true) . " ++ [DQ] ++ U "\n" ++ [DQ] ++ U ";"
           end).
Proof.
  intros Hl.
  destruct (Forall2_lookup_l _ _ _ _ _ (autoLog_lines lang code) Hl) as (l' & Hl' & R).
  exists l'. split; [exact Hl'|].
  destruct R as [R|R]; [now left|right].
  destruct lang; [exact (proj2 R)|exact (proj2 R)].
Qed.

Lemma autoLog_lines_are_kept_or_wrapped_witness :
  exists l' : jsstring,
    split (autoLog JavaScript (U "let a = 1;" ++ [NL] ++ U "  a + 1;" ++ [NL] ++ U "  a;"))
      !! 2%nat = Some l'
    /\ (l' = U "  a;"
        \/ l' = indentOf (U "  a;") ++ U "console.log(" ++ withoutSemicolonOf (U "  a;")
                  ++ U ");").
Proof.
  apply (autoLog_lines_are_kept_or_wrapped JavaScript
           (U "let a = 1;" ++ [NL] ++ U "  a + 1;" ++ [NL] ++ U "  a;") 2 (U "  a;")).
  reflexivity.
Defined.

(** X11: nested lines are not wrapped.  A line the loop reads inside a
    block comment, or while a brace or a parenthesis counted on the
    lines before it or on the line itself is still open, comes out as
    it went in. *)
Theorem autoLog_passes_over_nested_lines
        (lang : Language) (code : jsstring) (i : nat) (l : jsstring) :
  split code !! i = Some l ->
  inMultiLineComment (stateBefore lang code i) = true
  \/ 0 < braceDepth (stateBefore lang code i) + lineDepth (ch "{") (ch "}") l
  \/ 0 < parenDepth (stateBefore lang code i) + lineDepth (ch "(") (ch ")") l ->
  split (autoLog lang code) !! i = Some l.
Proof.
  intros Hl Hnested.
  destruct (autoLog_line_at lang code i l Hl) as [H|(o & Ho & Hstep)]; [exact H|].
  rewrite step_nested in Hstep by exact Hnested.
  apply app_inv_head in Hstep. congruence.
Qed.

Lemma autoLog_passes_over_nested_lines_witness :
  split (autoLog JavaScript (U "call(" ++ [NL] ++ U "  total" ++ [NL] ++ U ")")) !! 1%nat
  = Some (U "  total").
Proof.
  apply (autoLog_passes_over_nested_lines JavaScript
           (U "call(" ++ [NL] ++ U "  total" ++ [NL] ++ U ")") 1 (U "  total"));
    [reflexivity|]. right. right. vm_compute. reflexivity.
Defined.

End AutoLogShape.

(** ** What the magic-comment pattern matches *)

Section MagicPatternFacts.

Import MagicComments.

Lemma run_class_inv {A} (p : char16 -> bool) (s : jsstring) (cap : option jsstring)
      (k : jsstring -> option jsstring -> option A) (a : A) :
  run (Class p) s cap k = Some a ->
  exists c s', s = c :: s' /\ p c = true /\ k s' cap = Some a.
Proof.
  destruct s as [|c s']; simpl; [discriminate|].
  destruct (p c) eqn:E; [|discriminate]. intros H. now exists c, s'.
Qed.

(** A greedy run of one class gives back code units until the
    continuation accepts: what it consumed is of the class. *)
Lemma greedy_backtracks {A} (m : matcher A) (p : char16 -> bool)
      (k : jsstring -> option jsstring -> option A) (n : nat) :
  (forall s cap k', m s cap k' = run (Class p) s cap k') ->
  forall (s : jsstring) (cap : option jsstring) (a : A),
    greedy m k n s cap = Some a ->
    exists pre rest, s = pre ++ rest /\ Forall (fun c => p c = true) pre
                     /\ k rest cap = Some a.
Proof.
  intros Hm. induction n as [|n IH]; intros s cap a H.
  - exists [], s. repeat split; [constructor|exact H].
  - simpl greedy in H. rewrite Hm in H. cbn [run] in H.
    destruct s as [|c s]; [exists [], []; repeat split; [constructor|exact H]|].
    destruct (p c) eqn:Hp; [|exists [], (c :: s); repeat split; [constructor|exact H]].
    destruct (length s <? length (c :: s))%nat;
      [|exists [], (c :: s); repeat split; [constructor|exact H]].
    destruct (greedy m k n s cap) as [a'|] eqn:G;
      [|exists [], (c :: s); repeat split; [constructor|exact H]].
    injection H as ->. destruct (IH s cap a G) as (pre & rest & -> & Hpre & Hk).
    exists (c :: pre), rest. repeat split; [now constructor|exact Hk].
Qed.

(** It accepts whenever the continuation accepts after some code
    units of the class. *)
Lemma greedy_accepts {A} (m : matcher A) (p : char16 -> bool)
      (k : jsstring -> option jsstring -> option A) (pre rest : jsstring)
      (cap : option jsstring) :
  (forall s cap k', m s cap k' = run (Class p) s cap k') ->
  Forall (fun c => p c = true) pre ->
  is_Some (k rest cap) ->
  forall n : nat, (length (pre ++ rest) <= n)%nat ->
    is_Some (greedy m k n (pre ++ rest) cap).
Proof.
  intros Hm Hpre Hk. induction Hpre as [|c pre Hc _ IH]; intros n Hn.
  - simpl app. destruct n as [|n]; [exact Hk|]. simpl greedy.
    match goal with |- is_Some (match ?x with _ => _ end) => destruct x end;
      [eexists; reflexivity|exact Hk].
  - destruct n as [|n]; [simpl in Hn; lia|].
    simpl app. simpl greedy. rewrite Hm. cbn [run]. rewrite Hc.
    rewrite (proj2 (Nat.ltb_lt (length (pre ++ rest)) (S (length (pre ++ rest)))))
      by lia.
    destruct (IH n ltac:(simpl in Hn; lia)) as [a ->]. eexists; reflexivity.
Qed.

(** Followed by a continuation that always accepts, it consumes the
    longest run of the class. *)
Lemma greedy_class_longest {A} (m : matcher A) (p : char16 -> bool)
      (k : jsstring -> option jsstring -> option A) (n : nat) :
  (forall s cap k', m s cap k' = run (Class p) s cap k') ->
  (forall rest c, is_Some (k rest c)) ->
  forall (s : jsstring) (cap : option jsstring),
    (length s <= n)%nat ->
    exists pre rest,
      s = pre ++ rest /\ Forall (fun c => p c = true) pre
      /\ (rest = [] \/ exists c r, rest = c :: r /\ p c = false)
      /\ greedy m k n s cap = k rest cap.
Proof.
  intros Hm Hk. induction n as [|n IH]; intros s cap Hn.
  - destruct s; [|simpl in Hn; lia]. exists [], []. repeat split; [constructor|now left].
  - destruct s as [|c s].
    { exists [], []. repeat split; [constructor|now left|]. simpl. now rewrite Hm. }
    simpl greedy. rewrite Hm. cbn [run]. destruct (p c) eqn:Hp.
    + rewrite (proj2 (Nat.ltb_lt (length s) (S (length s)))) by lia.
      destruct (IH s cap) as (pre & rest & E & Hpre & Hrest & Hg); [simpl in Hn; lia|].
      rewrite Hg. exists (c :: pre), rest.
      repeat split; [simpl; congruence|now constructor|exact Hrest|].
      destruct (Hk rest cap) as [a ->]. reflexivity.
    + exists [], (c :: s). repeat split; [constructor|right; eauto].
Qed.

Lemma search_split (r : regex) (s : jsstring) (m : matched) :
  search r s = Some m -> exists a b, s = a ++ b /\ matchHere r b = Some m.
Proof.
  induction s as [|c s IH]; simpl.
  - destruct (matchHere r []) eqn:E; [|discriminate]. intros [= <-]. now exists [], [].
  - destruct (matchHere r (c :: s)) eqn:E.
    + intros [= <-]. now exists [], (c :: s).
    + intros H. destruct (IH H) as (a & b & -> & Hb). now exists (c :: a), b.
Qed.

Lemma search_accepts (r : regex) (a b : jsstring) :
  is_Some (matchHere r b) -> is_Some (search r (a ++ b)).
Proof.
  intros Hb. induction a as [|c a IH]; simpl.
  - destruct b; simpl; destruct Hb as [m ->]; eexists; reflexivity.
  - destruct (matchHere r (c :: a ++ b)); [eexists; reflexivity|exact IH].
Qed.

(** What a match of the pattern at the front of a text consists of. *)
Lemma magicPattern_match (b : jsstring) (m : matched) :
  matchHere magicPattern b = Some m ->
  exists sp1 sp2 g rest,
    b = U "//" ++ sp1 ++ [ch "$"] ++ sp2 ++ g ++ rest
    /\ Forall (fun c => isSpace c = true) sp1
    /\ Forall (fun c => isSpace c = true) sp2
    /\ g <> []
    /\ Forall (fun c => isLineTerminator c = false) g
    /\ (rest = [] \/ exists c r, rest = c :: r /\ isLineTerminator c = true)
    /\ group1 m = Some g.
Proof.
  unfold matchHere, magicPattern.
  change (Lit (U "//")) with (Cat (Lit1 (ch "/")) (Cat (Lit1 (ch "/")) Eps)).
  cbn [run]. intros H.
  apply run_class_inv in H as (c1 & b1 & -> & E1 & H). apply char_eqb_eq in E1. subst c1.
  apply run_class_inv in H as (c2 & b2 & -> & E2 & H). apply char_eqb_eq in E2. subst c2.
  apply (greedy_backtracks _ isSpace) in H as (sp1 & b3 & -> & Hsp1 & H);
    [|reflexivity].
  apply run_class_inv in H as (c3 & b4 & -> & E3 & H). apply char_eqb_eq in E3. subst c3.
  apply (greedy_backtracks _ isSpace) in H as (sp2 & b5 & -> & Hsp2 & H);
    [|reflexivity].
  apply run_class_inv in H as (c & b6 & -> & Ec & H).
  match type of H with
  | greedy ?mm ?k ?n ?s ?cap = _ =>
      destruct (greedy_class_longest mm (fun c => negb (isLineTerminator c)) k n
                  ltac:(reflexivity) ltac:(intros; eexists; reflexivity) s cap (le_n _))
        as (pre & rest & E & Hpre & Hrest & Hg)
  end.
  rewrite Hg in H. injection H as <-.
  exists sp1, sp2, (c :: pre), rest. repeat split.
  - now rewrite E.
  - assumption.
  - assumption.
  - discriminate.
  - constructor; [now apply negb_true_iff|].
    eapply Forall_impl; [exact Hpre|]. intros x Hx. now apply negb_true_iff.
  - destruct Hrest as [->|(x & r & -> & Hx)]; [now left|right].
    exists x, r. split; [reflexivity|now apply negb_false_iff].
  - cbn [group1]. f_equal. rewrite E.
    transitivity (take (length (c :: pre)) ((c :: pre) ++ rest));
      [f_equal; simpl; rewrite length_app; lia|apply take_app_length].
Qed.

End MagicPatternFacts.

Section MagicPattern.

Import MagicComments.

(** X12: what a magic comment is.  When the extractor finds a magic
    comment in a line, the line holds two slashes, optional white
    space, a dollar sign and optional white space, and the text
    captured is what follows up to the end of the line (or its first
    line terminator): at least one code unit, none of them a line
    terminator. *)
Theorem magicMatch_reads_the_text_after_the_dollar (l g : jsstring) :
  magicMatch l = Some g ->
  exists before sp1 sp2 rest,
    l = before ++ U "//" ++ sp1 ++ [ch "$"] ++ sp2 ++ g ++ rest
    /\ Forall (fun c => isSpace c = true) sp1
    /\ Forall (fun c => isSpace c = true) sp2
    /\ g <> []
    /\ Forall (fun c => isLineTerminator c = false) g
    /\ (rest = [] \/ exists c r, rest = c :: r /\ isLineTerminator c = true).
Proof.
  unfold magicMatch. destruct (search magicPattern l) as [m|] eqn:E; [|discriminate].
  intros Hg. apply search_split in E as (before & b & -> & Hb).
  apply magicPattern_match in Hb as (sp1 & sp2 & g' & rest & -> & H1 & H2 & H3 & H4 & H5 & H6).
  rewrite Hg in H6. injection H6 as ->.
  exists before, sp1, sp2, rest. repeat split; assumption.
Qed.

Lemma magicMatch_reads_the_text_after_the_dollar_witness :
  exists before sp1 sp2 rest,
    U "total; // $ total" = before ++ U "//" ++ sp1 ++ [ch "$"] ++ sp2 ++ U "total" ++ rest
    /\ Forall (fun c => isSpace c = true) sp1
    /\ Forall (fun c => isSpace c = true) sp2.
Proof.
  destruct (magicMatch_reads_the_text_after_the_dollar (U "total; // $ total") (U "total")
              eq_refl) as (before & sp1 & sp2 & rest & E & H1 & H2 & _).
  exists before, sp1, sp2, rest. auto.
Defined.

(** X13: no annotation is missed.  A line that holds two slashes,
    optional white space, a dollar sign, optional white space and then
    a code unit that is no line terminator yields a magic comment,
    wherever the slashes stand in the line. *)
Theorem magicMatch_finds_every_annotation
        (before sp1 sp2 rest : jsstring) (c : char16) :
  Forall (fun x => isSpace x = true) sp1 ->
  Forall (fun x => isSpace x = true) sp2 ->
  isLineTerminator c = false ->
  is_Some (magicMatch (before ++ U "//" ++ sp1 ++ [ch "$"] ++ sp2 ++ c :: rest)).
Proof.
  intros H1 H2 Hc.
  assert (Hhere : is_Some (matchHere magicPattern
                             (U "//" ++ sp1 ++ [ch "$"] ++ sp2 ++ c :: rest))).
  { unfold matchHere, magicPattern.
    change (Lit (U "//")) with (Cat (Lit1 (ch "/")) (Cat (Lit1 (ch "/")) Eps)).
    change (U "//") with [ch "/"; ch "/"]. unfold Lit1, space, dot, Plus. cbn [run app].
    rewrite !(proj2 (char_eqb_eq _ _) eq_refl).
    apply (greedy_accepts _ isSpace); [reflexivity|exact H1| |reflexivity].
    cbn [run app]. rewrite (proj2 (char_eqb_eq _ _) eq_refl).
    apply (greedy_accepts _ isSpace); [reflexivity|exact H2| |reflexivity].
    cbn [run]. rewrite Hc. cbn [negb].
    match goal with
    | |- is_Some (greedy ?mm ?k ?n ?s ?cap) =>
        destruct (greedy_class mm (fun c => negb (isLineTerminator c)) k n s cap
                    ltac:(reflexivity) ltac:(eauto) (le_n _)) as (pre & rest' & _ & _ & ->)
    end. eexists; reflexivity. }
  unfold magicMatch.
  destruct (search_accepts magicPattern before _ Hhere) as [m Hm]. rewrite Hm.
  apply search_split in Hm as (a & b & _ & Hb).
  apply magicPattern_match in Hb as (_ & _ & g & _ & _ & _ & _ & _ & _ & _ & ->).
  eexists; reflexivity.
Qed.

Lemma magicMatch_finds_every_annotation_witness :
  is_Some (magicMatch (U "const s = 'a'; " ++ U "//" ++ U " " ++ [ch "$"] ++ U "  "
                         ++ ch "s" :: U ".length")).
Proof.
  apply (magicMatch_finds_every_annotation (U "const s = 'a'; ") (U " ") (U "  ")
           (U ".length") (ch "s")); [repeat constructor..|reflexivity].
Defined.

End MagicPattern.

(** ** The PHP probe of a plain name *)

Section PlainNames.

Import MagicComments AutoLog Harness.

(** A text the plain-name pattern accepts is made of letters, digits
    and underscores. *)
Lemma plain_name_chars (s : jsstring) :
  testHere simpleVariablePattern s = true ->
  Forall (fun c => (alpha c || digit c || char_eqb c (ch "_"))%bool = true) s.
Proof.
  unfold testHere, matchHere, simpleVariablePattern, phpIdentStart, phpIdentPart.
  cbn [run]. destruct s as [|c s]; [discriminate|].
  destruct (alpha c || char_eqb c (ch "_"))%bool eqn:Ec; [|discriminate].
  match goal with
  | |- from_option _ _ ?g = true -> _ => destruct g as [m|] eqn:G; [|discriminate]
  end.
  intros _.
  apply (greedy_backtracks _ (fun c => (alpha c || digit c || char_eqb c (ch "_"))%bool))
    in G as (pre & rest & -> & Hpre & Hk); [|reflexivity].
  destruct rest; [|discriminate]. rewrite app_nil_r. constructor; [|exact Hpre].
  apply orb_true_iff in Ec as [Ec|Ec]; rewrite Ec; [reflexivity|apply orb_true_r].
Qed.

Lemma replaceAllChar_absent (c : char16) (r s : jsstring) :
  c ∉ s -> replaceAllChar c r s = s.
Proof.
  unfold replaceAllChar. induction s as [|x s IH]; intros H; [reflexivity|].
  apply not_elem_of_cons in H as [Hx Hs]. simpl.
  destruct (char_eqb x c) eqn:E; [apply char_eqb_eq in E; congruence|].
  simpl. now rewrite IH.
Qed.

(** A text whose trimmed part is a plain name holds no quote and no
    backslash. *)
Lemma plain_name_needs_no_escape (e : jsstring) (c : char16) :
  testHere simpleVariablePattern (trim e) = true ->
  isSpace c = false ->
  (alpha c || digit c || char_eqb c (ch "_"))%bool = false ->
  c ∉ e.
Proof.
  intros Hname Hsp Hid Hin. apply plain_name_chars in Hname.
  destruct (trim_inner e) as (a & b & E & Ha & Hb). rewrite E in Hin.
  rewrite Forall_forall in Hname, Ha, Hb.
  apply elem_of_app in Hin as [Hin|Hin]; [apply Ha in Hin; congruence|].
  apply elem_of_app in Hin as [Hin|Hin]; [apply Hname in Hin|apply Hb in Hin]; congruence.
Qed.

End PlainNames.

Section ProbeRuns.

Import MagicComments AutoLog Harness.

(** For a plain name the escaping of quotes and backslashes changes
    nothing. *)
Lemma escapeQuotes_plain_name (mc : MagicComment) :
  probedPHP mc ->
  escapeQuotes (expression mc) = expression mc
  /\ replaceAllChar SQ [BS; SQ] (expression mc) = expression mc
  /\ escapeQuotes (U "$" ++ trim (expression mc)) = U "$" ++ trim (expression mc).
Proof.
  unfold probedPHP. intros Hplain.
  assert (Hname : testHere simpleVariablePattern (trim (expression mc)) = true).
  { unfold isSimpleVariable in Hplain. now apply andb_true_iff in Hplain as [H _]. }
  assert (Hname' : testHere simpleVariablePattern (trim (trim (expression mc))) = true)
    by now rewrite trim_idempotent.
  assert (Hbs : BS ∉ expression mc)
    by (apply plain_name_needs_no_escape; [exact Hname|reflexivity..]).
  assert (Hsq : SQ ∉ expression mc)
    by (apply plain_name_needs_no_escape; [exact Hname|reflexivity..]).
  assert (Hbs' : BS ∉ U "$" ++ trim (expression mc)).
  { intros H. apply elem_of_cons in H as [H|H]; [discriminate|].
    revert H. apply plain_name_needs_no_escape; [exact Hname'|reflexivity..]. }
  assert (Hsq' : SQ ∉ U "$" ++ trim (expression mc)).
  { intros H. apply elem_of_cons in H as [H|H]; [discriminate|].
    revert H. apply plain_name_needs_no_escape; [exact Hname'|reflexivity..]. }
  unfold escapeQuotes.
  rewrite !(replaceAllChar_absent BS), !(replaceAllChar_absent SQ) by assumption.
  repeat split.
Qed.







End ProbeRuns.

Section Probes.

Import MagicComments Harness Samples.




End Probes.

Section PlainNameProbe.

Import MagicComments AutoLog Harness.

(** X14: the PHP probe of a plain name.  For a magic comment whose
    trimmed expression is a plain name, the probe [executePHP] writes
    reads the variable of that name (a dollar sign and the name) and
    names it by the expression as written: the escaping of quotes and
    backslashes leaves both texts as they are, so the statement of the
    probe is the assignment of that variable and nothing else. *)
Theorem probePHP_reads_the_named_variable (mc : MagicComment) :
  probedPHP mc ->
  probePHP mc = ProbePHP (line mc) (expression mc) (U "$" ++ trim (expression mc))
                  (expression mc)
  /\ escapeQuotes (expression mc) = expression mc
  /\ escapeQuotes (U "$" ++ trim (expression mc)) = U "$" ++ trim (expression mc)
  /\ (BS ∉ expression mc) /\ (SQ ∉ expression mc).
Proof.
  intros Hplain. destruct (escapeQuotes_plain_name mc Hplain) as (E1 & E2 & E3).
  assert (Hname : testHere simpleVariablePattern (trim (expression mc)) = true).
  { unfold probedPHP, isSimpleVariable in Hplain. now apply andb_true_iff in Hplain as [H _]. }
  split; [|split; [exact E1|split; [exact E3|]]].
  - unfold probePHP. cbv zeta. unfold probedPHP in Hplain. rewrite Hplain, E1, E2, E3.
    reflexivity.
  - split; apply plain_name_needs_no_escape; assumption || reflexivity.
Qed.

Lemma probePHP_reads_the_named_variable_witness :
  probePHP {| line := 3; expression := U "total" |}
  = ProbePHP 3 (U "total") (U "$" ++ trim (U "total")) (U "total").
Proof.
  destruct (probePHP_reads_the_named_variable {| line := 3; expression := U "total" |} eq_refl)
    as [H _].
  exact H.
Defined.

End PlainNameProbe.

(** ** The Runtime Locator *)

Section LocatorFacts.

Import Locator.

Variable platform : jsstring.
Variable env : jsstring -> option jsstring.
Variable existsSync : jsstring -> bool.
Variable readdirSync : jsstring -> option (list jsstring).
Variable exec : jsstring -> option jsstring.
Variable path_join : list jsstring -> jsstring.
Variable sortNewestFirst : list jsstring -> list jsstring.

Lemma firstExisting_exists (paths : list jsstring) (p : jsstring) :
  firstExisting existsSync paths = Some p ->
  existsSync p = true
  /\ exists before after, paths = before ++ p :: after
                          /\ Forall (fun q => existsSync q = false) before.
Proof.
  induction paths as [|q paths IH]; simpl; [discriminate|].
  destruct (existsSync q) eqn:E.
  - intros [= <-]. split; [exact E|]. now exists [], paths.
  - intros H. destruct (IH H) as (Hp & before & after & -> & Hb).
    split; [exact Hp|]. exists (q :: before), after. split; [reflexivity|].
    now constructor.
Qed.

Lemma firstExisting_none (paths : list jsstring) :
  firstExisting existsSync paths = None -> Forall (fun q => existsSync q = false) paths.
Proof.
  induction paths as [|q paths IH]; simpl; [constructor|].
  destruct (existsSync q) eqn:E; [discriminate|]. intros H. constructor; auto.
Qed.

Lemma checkCommonPaths_exists (commonPaths : list jsstring) (bare : jsstring) :
  (existsSync (checkCommonPaths existsSync commonPaths bare) = true
   /\ checkCommonPaths existsSync commonPaths bare ∈ commonPaths)
  \/ (checkCommonPaths existsSync commonPaths bare = bare
      /\ Forall (fun q => existsSync q = false) commonPaths).
Proof.
  unfold checkCommonPaths. destruct (firstExisting existsSync commonPaths) as [p|] eqn:E.
  - left. apply firstExisting_exists in E as (Hp & before & after & -> & _).
    split; [exact Hp|]. apply elem_of_app. right. left.
  - right. split; [reflexivity|]. now apply firstExisting_none.
Qed.

Lemma lookUp_exists (command : jsstring) (commonPaths : list jsstring) (bare : jsstring) :
  existsSync (lookUp existsSync exec command commonPaths bare) = true
  \/ (lookUp existsSync exec command commonPaths bare = bare
      /\ Forall (fun q => existsSync q = false) commonPaths).
Proof.
  unfold lookUp. destruct (exec command) as [stdout|].
  - destruct (truthy (hd [] (split (trim stdout))) && existsSync (hd [] (split (trim stdout))))%bool
      eqn:E.
    + left. now apply andb_true_iff in E as [_ E].
    + destruct (checkCommonPaths_exists commonPaths bare) as [[H _]|H]; auto.
  - destruct (checkCommonPaths_exists commonPaths bare) as [[H _]|H]; auto.
Qed.

(** X15: what the three locators return.  Whatever the platform, the
    environment, the file system and the outcome of [which]/[where],
    each locator returns a path that exists on disk, or else the bare
    command name; and it falls back to the bare command only when none
    of its well-known paths exists. *)
Theorem locators_return_existing_path_or_bare_command :
  let node := findNodeExecutable platform env existsSync readdirSync exec path_join
                sortNewestFirst in
  let php := findPHPExecutable platform env existsSync exec path_join in
  let composer := findComposerExecutable platform env existsSync exec path_join in
  (existsSync node = true
   \/ (node = U "node"
       /\ Forall (fun q => existsSync q = false) (commonPathsNode platform env path_join)))
  /\ (existsSync php = true
      \/ (php = U "php"
          /\ Forall (fun q => existsSync q = false) (commonPathsPHP platform env path_join)))
  /\ (existsSync composer = true
      \/ (composer = U "composer"
          /\ Forall (fun q => existsSync q = false)
               (commonPathsComposer platform env path_join))).
Proof.
  cbv zeta. split; [|split]; [|apply lookUp_exists..].
  unfold findNodeExecutable. cbv zeta.
  destruct (if truthy (envOr env "HOME" (envOr env "USERPROFILE" []))
            then nvmNode existsSync readdirSync path_join sortNewestFirst
                   (envOr env "HOME" (envOr env "USERPROFILE" []))
            else None) as [nodePath|] eqn:E; [|apply lookUp_exists].
  left. destruct (truthy _) in E; [|discriminate].
  unfold nvmNode in E. cbv zeta in E.
  destruct (existsSync (path_join _)) in E; [|discriminate].
  destruct (readdirSync _) in E; [|discriminate].
  now apply firstExisting_exists in E as [E _].
Qed.

End LocatorFacts.

(** ** Snippet files *)

Section SnippetFacts.

Import Snippets.

Lemma endsWith_app (name ext : jsstring) : endsWith (name ++ ext) ext = true.
Proof. unfold endsWith. rewrite rev_app_distr. apply startsWith_app. Qed.

Lemma endsWith_last (f ext : jsstring) (c : char16) :
  endsWith f (ext ++ [c]) = true -> last f = Some c.
Proof.
  unfold endsWith. rewrite rev_app_distr. simpl. intros H.
  apply startsWith_cons_inv in H as [t H].
  rewrite <- (rev_involutive f), H. simpl. apply last_snoc.
Qed.

(** X16: snippets are listed by the language they were saved for.  For
    the two configured languages, the file names [list-snippets]
    returns are entries of the snippets directory that end in one of the
    language's extensions, in the order of the directory; the file
    [save-snippet] writes for a name is listed for its language
    whenever it is in the directory; and no file is listed for both
    languages. *)
Theorem snippets_are_listed_by_language (files : list jsstring) (language : jsstring) :
  language = U "javascript" \/ language = U "php" ->
  (exists config,
      LANGUAGES language = Configured config
      /\ listSnippets files language = filter (fun f => hasExtension config f = true) files
      /\ forall name, snippetFileName name language = Some (name ++ defaultExtension config))
  /\ (forall f, f ∈ listSnippets files language -> f ∈ files)
  /\ (forall name f, snippetFileName name language = Some f -> f ∈ files ->
                     f ∈ listSnippets files language)
  /\ (forall f, f ∈ listSnippets files (U "javascript") ->
                f ∈ listSnippets files (U "php") -> False).
Proof.
  intros Hlang.
  assert (Hjs : forall fs, listSnippets fs (U "javascript")
                           = filter (fun f => hasExtension javascriptConfig f = true) fs)
    by reflexivity.
  assert (Hphp : forall fs, listSnippets fs (U "php")
                            = filter (fun f => hasExtension phpConfig f = true) fs)
    by reflexivity.
  split; [|split; [|split]].
  - destruct Hlang as [-> | ->]; eexists; repeat split.
  - destruct Hlang as [-> | ->]; intros f; rewrite ?Hjs, ?Hphp;
      intros H; now apply list_elem_of_filter in H.
  - destruct Hlang as [-> | ->]; intros name f [= <-] Hin; rewrite ?Hjs, ?Hphp;
      apply list_elem_of_filter; (split; [|exact Hin]);
      unfold hasExtension; cbn [extensions javascriptConfig phpConfig defaultExtension existsb];
      rewrite endsWith_app; reflexivity.
  - intros f. rewrite Hjs, Hphp, !list_elem_of_filter.
    unfold hasExtension. cbn [extensions javascriptConfig phpConfig existsb].
    rewrite !orb_false_r. intros [H1 _] [H2 _].
    apply (endsWith_last f (U ".ph") (ch "p")) in H2.
    apply orb_true_iff in H1 as [H1|H1].
    + apply (endsWith_last f (U ".j") (ch "s")) in H1.
      rewrite H1 in H2. vm_compute in H2. discriminate.
    + apply (endsWith_last f (U ".t") (ch "s")) in H1.
      rewrite H1 in H2. vm_compute in H2. discriminate.
Qed.

Lemma snippets_are_listed_by_language_witness :
  U "sum.js" ∈ listSnippets [U "notes.txt"; U "sum.js"; U "page.php"] (U "javascript").
Proof.
  destruct (snippets_are_listed_by_language [U "notes.txt"; U "sum.js"; U "page.php"]
              (U "javascript") (or_introl eq_refl)) as (_ & _ & H & _).
  apply (H (U "sum")); [reflexivity|]. apply (bool_decide_unpack _). vm_compute. reflexivity.
Defined.

End SnippetFacts.

(** ** The object text [displayExecutionResults] looks for *)

Section BraceMatching.

Import AutoLog Renderer.

Lemma findEndIndex_spec (s : jsstring) :
  forall (i : nat) (braceCount : Z) (endIndex : nat),
    findEndIndex s i braceCount = Some endIndex ->
    exists k : nat,
      endIndex = (i + k + 1)%nat
      /\ s !! k = Some (ch "}")
      /\ braceCount + lineDepth (ch "{") (ch "}") (take (S k) s) = 0
      /\ forall n : nat, (n <= k)%nat ->
           s !! n = Some (ch "}") ->
           braceCount + lineDepth (ch "{") (ch "}") (take (S n) s) = 0 -> n = k.
Proof.
  induction s as [|c s IH]; intros i b e; [discriminate|].
  assert (Hcons : forall n, lineDepth (ch "{") (ch "}") (take (S n) (c :: s))
                            = lineDepth (ch "{") (ch "}") [c]
                              + lineDepth (ch "{") (ch "}") (take n s)).
  { intros n. change (take (S n) (c :: s)) with ([c] ++ take n s). apply lineDepth_app. }
  assert (Hone : lineDepth (ch "{") (ch "}") [c]
                 = (if char_eqb c (ch "}")
                    then (if char_eqb c (ch "{") then 0 + 1 else 0) - 1
                    else if char_eqb c (ch "{") then 0 + 1 else 0)) by reflexivity.
  cbn [findEndIndex]. cbv zeta.
  destruct (char_eqb c (ch "}")) eqn:Eclose.
  - destruct ((if char_eqb c (ch "{") then b + 1 else b) - 1 =? 0) eqn:Ezero.
    + intros [= <-]. exists 0%nat. apply Z.eqb_eq in Ezero.
      repeat split.
      * lia.
      * apply char_eqb_eq in Eclose. now rewrite Eclose.
      * rewrite Hcons, Hone. change (lineDepth (ch "{") (ch "}") (take 0 s)) with 0.
        destruct (char_eqb c (ch "{")); lia.
      * intros n Hn _ _. lia.
    + intros H. destruct (IH _ _ _ H) as (k & -> & Hk & Hsum & Hmin).
      apply Z.eqb_neq in Ezero.
      exists (S k). repeat split.
      * lia.
      * exact Hk.
      * rewrite Hcons, Hone. destruct (char_eqb c (ch "{")); lia.
      * intros [|n] Hn Hc Hz.
        { exfalso. rewrite Hcons, Hone in Hz.
          change (lineDepth (ch "{") (ch "}") (take 0 s)) with 0 in Hz.
          destruct (char_eqb c (ch "{")); lia. }
        f_equal. apply Hmin; [lia|exact Hc|].
        rewrite Hcons, Hone in Hz. destruct (char_eqb c (ch "{")); lia.
  - intros H. destruct (IH _ _ _ H) as (k & -> & Hk & Hsum & Hmin).
    exists (S k). repeat split.
    + lia.
    + exact Hk.
    + rewrite Hcons, Hone. destruct (char_eqb c (ch "{")); lia.
    + intros [|n] Hn Hc Hz.
      { exfalso. injection Hc as ->. discriminate. }
      f_equal. apply Hmin; [lia|exact Hc|].
      rewrite Hcons, Hone in Hz. destruct (char_eqb c (ch "{")); lia.
Qed.

End BraceMatching.

Section BraceMatchingTheorem.

Import AutoLog Renderer.

Lemma lineDepth_one (c : char16) :
  -1 <= lineDepth (ch "{") (ch "}") [c] <= 1
  /\ (lineDepth (ch "{") (ch "}") [c] = -1 -> c = ch "}").
Proof.
  unfold lineDepth. cbn [fold_left].
  destruct (char_eqb c (ch "{")) eqn:E1, (char_eqb c (ch "}")) eqn:E2;
    (split; [lia|]); intros H; try lia; now apply char_eqb_eq in E2.
Qed.

(** X17: the object text the result view counts the properties of.  For
    a trimmed text that starts with an opening brace, the text cut out
    is the shortest prefix in which the braces balance: it is a prefix
    of the text, it starts with the opening brace and ends with a
    closing one, it holds as many opening as closing braces, and in
    every shorter non-empty prefix more braces are opened than
    closed. *)
Theorem objectText_is_shortest_balanced_prefix (trimmed text : jsstring) :
  objectText trimmed = Some text ->
  (exists rest, trimmed = text ++ rest)
  /\ startsWith text (U "{") = true
  /\ endsWith text (U "}") = true
  /\ lineDepth (ch "{") (ch "}") text = 0
  /\ forall n : nat, (0 < n < length text)%nat ->
       0 < lineDepth (ch "{") (ch "}") (take n text).
Proof.
  unfold objectText. destruct (startsWith trimmed (U "{")) eqn:Hstart; [|discriminate].
  destruct (findEndIndex trimmed 0 0) as [endIndex|] eqn:Hend; [|discriminate].
  intros [= <-].
  apply findEndIndex_spec in Hend as (k & -> & Hk & Hsum & Hmin).
  apply startsWith_cons_inv in Hstart as [r ->].
  replace (0 + k + 1)%nat with (S k) by lia.
  assert (Hlen : length (take (S k) (ch "{" :: r)) = S k).
  { apply lookup_lt_Some in Hk. rewrite length_take. lia. }
  split; [|split; [|split; [|split]]].
  - exists (drop (S k) (ch "{" :: r)). now rewrite take_drop.
  - reflexivity.
  - rewrite (take_S_r _ _ _ Hk). apply (endsWith_app _ [ch "}"]).
  - lia.
  - intros n [Hn0 Hn]. rewrite Hlen in Hn. rewrite take_take.
    replace (n `min` S k)%nat with n by lia.
    induction n as [|n IH]; [lia|].
    destruct n as [|n]; [reflexivity|].
    assert (Hprev : 0 < lineDepth (ch "{") (ch "}") (take (S n) (ch "{" :: r)))
      by (apply IH; lia).
    destruct (lookup_lt_is_Some_2 (ch "{" :: r) (S n)) as [c Hc].
    { apply lookup_lt_Some in Hk. lia. }
    rewrite (take_S_r _ _ _ Hc), lineDepth_app.
    destruct (lineDepth_one c) as [Hrange Hclose].
    destruct (Z.eq_dec (lineDepth (ch "{") (ch "}") [c]) (-1)) as [Hm1|Hm1]; [|lia].
    assert (Hzero : lineDepth (ch "{") (ch "}") (take (S n) (ch "{" :: r)) <> 1);
      [|lia].
    intros Hone.
    assert (S n = k); [|lia].
    apply Hmin; [lia|rewrite <- (Hclose Hm1); exact Hc|].
    rewrite (take_S_r _ _ _ Hc), lineDepth_app. lia.
Qed.

Lemma objectText_is_shortest_balanced_prefix_witness :
  exists rest, U "{ a: { b: 1 } } and more }" = U "{ a: { b: 1 } }" ++ rest.
Proof.
  destruct (objectText_is_shortest_balanced_prefix (U "{ a: { b: 1 } } and more }")
              (U "{ a: { b: 1 } }") eq_refl) as [H _].
  exact H.
Defined.

End BraceMatchingTheorem.
